(** * Solo TTRPG notation plugin: the parsing and entity-merging pipeline

    A shallow embedding of [src/parser/NotationParser.ts] (class
    [NotationParser]) and the properties of its merge engine and of its
    segmenter, followed by the functions of [src/views/DashboardView.ts]
    that select, count, filter and order the cards of the elements
    screen.

    [NotationParser] calls three classes whose files are not among the
    sources, [TagExtractor], [CodeBlockParser] and [ProgressParser], and
    the host application.  It is embedded over their interfaces.  A model
    of each of the three classes, written from the specification and
    checked against the expectations of the test suites, serves to run the
    whole pipeline on documents and to state the properties that concern
    those classes themselves.

    Conventions of the embedding.
    - A JavaScript string is a [string] (a sequence of 8-bit characters).
      The text the parser inspects (markers, brackets, digits, white space)
      is ASCII; letters outside ASCII are left alone by [toLowerCase] here.
    - A JavaScript number that holds a line number, a session number or a
      counter is a [Z]; rounding of integers above 2^53 is not modelled.
    - A [Map<string, T>] is a [gmap string T]; the properties below only look
      entries up by key, so insertion order is not represented.
    - Arrays are lists.  The objects the merge functions mutate are created
      afresh for every mention (by the extractor, or by the object literals
      of [collectAllTags]) and the lists of mentions are read by the merge
      functions only, so in-place mutation is modelled by rebuilding the
      record stored in the map.
    - The asynchronous functions await one read at a time; they are
      embedded as functions of the host application's answers. *)

From Stdlib Require Import ZArith Ascii.
From stdpp Require Import gmap strings list sorting pretty.

Local Open Scope Z_scope.

(** ** JavaScript string primitives used by the parser *)
Module JS.

(** The characters of a string, and back. *)
Fixpoint chars (s : string) : list ascii :=
  match s with
  | EmptyString => []
  | String c s' => c :: chars s'
  end.

Fixpoint ofChars (l : list ascii) : string :=
  match l with
  | [] => EmptyString
  | c :: l' => String c (ofChars l')
  end.

(** [s.startsWith(p)] *)
Fixpoint startsWith (s p : string) : bool :=
  match p with
  | EmptyString => true
  | String c p' =>
      match s with
      | EmptyString => false
      | String d s' => if decide (c = d) then startsWith s' p' else false
      end
  end.

(** [s.indexOf(c)] for a one-character needle; [None] stands for -1. *)
Fixpoint indexOf (s : string) (c : ascii) : option nat :=
  match s with
  | EmptyString => None
  | String d s' =>
      if decide (d = c) then Some 0%nat else S <$> indexOf s' c
  end.

(** [s.slice(n)] for [0 <= n]. *)
Fixpoint sliceFrom (s : string) (n : nat) : string :=
  match n, s with
  | O, _ => s
  | S n', String _ s' => sliceFrom s' n'
  | S _, EmptyString => EmptyString
  end.

(** [s.slice(0, n)] for [0 <= n]. *)
Fixpoint sliceTo (s : string) (n : nat) : string :=
  match n, s with
  | S n', String c s' => String c (sliceTo s' n')
  | _, _ => EmptyString
  end.

(** White space as [trim] and the regular-expression class [\s] see it,
    restricted to ASCII. *)
Definition isSpace (c : ascii) : bool := Ascii.is_space c.

(** [s.trimStart()] *)
Fixpoint trimStart (s : string) : string :=
  match s with
  | String c s' => if isSpace c then trimStart s' else s
  | EmptyString => EmptyString
  end.

(** [s.trimEnd()] *)
Definition trimEnd (s : string) : string :=
  ofChars (reverse (chars (trimStart (ofChars (reverse (chars s)))))).

(** [s.trim()] *)
Definition trim (s : string) : string := trimEnd (trimStart s).

(** The lower-case form of an ASCII letter. *)
Definition lowerChar (c : ascii) : ascii :=
  let n := nat_of_ascii c in
  if ((65 <=? n) && (n <=? 90))%nat then ascii_of_nat (n + 32) else c.

(** [s.toLowerCase()] *)
Fixpoint toLowerCase (s : string) : string :=
  match s with
  | EmptyString => EmptyString
  | String c s' => String (lowerChar c) (toLowerCase s')
  end.

(** [s.includes(p)] *)
Fixpoint includes (s p : string) : bool :=
  startsWith s p ||
  match s with
  | EmptyString => false
  | String _ s' => includes s' p
  end.

(** [s.split(c)] for a one-character separator: never the empty list. *)
Fixpoint split (s : string) (c : ascii) : list string :=
  match s with
  | EmptyString => [EmptyString]
  | String d s' =>
      if decide (d = c) then EmptyString :: split s' c
      else match split s' c with
           | [] => [String d EmptyString]
           | w :: ws => String d w :: ws
           end
  end.

(** [l.join(sep)] *)
Fixpoint join (l : list string) (sep : string) : string :=
  match l with
  | [] => EmptyString
  | [w] => w
  | w :: ws => w +:+ sep +:+ join ws sep
  end.

(** [\d] of a regular expression. *)
Definition isDigit (c : ascii) : bool :=
  let n := nat_of_ascii c in ((48 <=? n) && (n <=? 57))%nat.

(** [\w] of a regular expression without the unicode flag. *)
Definition isWord (c : ascii) : bool :=
  let n := nat_of_ascii c in
  (isDigit c || ((65 <=? n) && (n <=? 90)) || ((97 <=? n) && (n <=? 122))
   || (n =? 95))%nat.

(** [parseInt] of a non-empty run of decimal digits. *)
Definition parseDigits (ds : list ascii) : Z :=
  foldl (λ acc d, 10 * acc + (Z.of_nat (nat_of_ascii d) - 48)) 0 ds.

(** The line separator ['\n']. *)
Definition newline : ascii := "010"%char.

(** The longest prefix of [l] whose elements satisfy [p], and the rest. *)
Fixpoint span {A} (p : A → bool) (l : list A) : list A * list A :=
  match l with
  | x :: l' =>
      if p x then let '(a, b) := span p l' in (x :: a, b) else ([], l)
  | [] => ([], [])
  end.

End JS.

(** ** The data model

    The type declarations live in [src/types/notation.ts], which is not
    among the sources; each type below has the fields that the parser
    reads and writes and that section 3 of the specification lists. *)

(** Modelled from the spec: the interface [Location] of
    [src/types/notation.ts] ("file path, line number, owning session
    label, owning scene id"), with the fields [collectAllTags] fills. *)
Record Location := mkLocation {
  file : string;
  lineNumber : Z;
  session : string;
  scene : string;
}.

(** Modelled from the spec: the interfaces [NPC], [LocationTag] and
    [PlayerCharacter] of [src/types/notation.ts] ("{id, name, tags,
    firstMention, mentions}"); the three have the same five fields, which
    are those of the object literals of [collectAllTags]. *)
Module Tagged.
Record t := mk {
  id : string;
  name : string;
  tags : list string;
  firstMention : Location;
  mentions : list Location;
}.
End Tagged.
Abbreviation NPC := Tagged.t.
Abbreviation LocationTag := Tagged.t.
Abbreviation PlayerCharacter := Tagged.t.

(** Modelled from the spec: the interface [Thread] of
    [src/types/notation.ts] ("{id, name, state, firstMention,
    mentions}"). *)
Module Thread.
Record t := mk {
  id : string;
  name : string;
  state : string;
  firstMention : Location;
  mentions : list Location;
}.
End Thread.

(** Modelled from the spec: the type of the field [type] of [Reference]
    in [src/types/notation.ts] ("type (npc|location)"): the strings 'npc'
    and 'location'. *)
Inductive RefType := RefNpc | RefLocation.

(** Modelled from the spec: the interface [Reference] of
    [src/types/notation.ts] ("{id, name, type, firstMention, mentions}"),
    as the object literal of [collectAllTags] fills it. *)
Module Reference.
Record t := mk {
  id : string;
  name : string;
  type : RefType;
  firstMention : Location;
  mentions : list Location;
}.
End Reference.

Global Instance Location_eq_dec : EqDecision Location.
Proof. solve_decision. Defined.
Global Instance RefType_eq_dec : EqDecision RefType.
Proof. solve_decision. Defined.


(** Modelled from the spec: the interfaces [Clock], [Track] and [Event]
    of [src/types/notation.ts] ("{id, name, current, total, locations}");
    the three share one shape. *)
Module Progress.
Record t := mk {
  id : string;
  name : string;
  current : Z;
  total : Z;
  locations : list Location;
}.
End Progress.
Abbreviation Clock := Progress.t.
Abbreviation Track := Progress.t.
Abbreviation Event := Progress.t.

(** Modelled from the spec: the interface [Timer] of
    [src/types/notation.ts] ("{id, name, value, locations}"). *)
Module Timer.
Record t := mk {
  id : string;
  name : string;
  value : Z;
  locations : list Location;
}.
End Timer.

(** Modelled from the spec: the union [NotationElement] of
    [src/types/notation.ts] ("tagged variant ... every variant carries
    lineNumber and type discriminant"); the variants and their fields are
    those that [collectAllTags] and the test suite of [CodeBlockParser]
    read. *)
Module Element.
Inductive payload :=
| action (content : string)
| oracle_question (question : string)
| mechanics_roll (roll outcome : string) (success : option bool)
| oracle_result (answer : string) (roll : option string)
| consequence (description : string)
| table_lookup (roll result : string)
| generator (system result : string)
| meta_note (category content : string)
| text (content : string).
Record t := mk { lineNumber : Z; type : payload }.
End Element.
Abbreviation NotationElement := Element.t.

(** Modelled from the spec: the interface [Scene] of
    [src/types/notation.ts], with the fields of the object literal of
    [parseScenes]. *)
Module Scene.
Record t := mk {
  id : string;
  number : string;
  context : option string;
  startLine : Z;
  endLine : Z;
  elements : list NotationElement;
}.
End Scene.

(** Modelled from the spec: the interface [Session] of
    [src/types/notation.ts], with the fields of the object literals of
    [parseSessions] and [parseSessionFile]. *)
Module Session.
Record t := mk {
  number : Z;
  date : option string;
  duration : option string;
  recap : option string;
  goals : option string;
  scenes : list Scene.t;
  startLine : Z;
  endLine : Z;
  metadata : gmap string string;
  linkedFile : option string;
}.
End Session.

(** Modelled from the spec: the result type of
    [TagExtractor.extractTags], whose source is not among the sources: one
    list of mentions per kind, under the names [collectAllTags] reads. *)
Module Tags.
Record t := mk {
  npcs : list NPC;
  locations : list LocationTag;
  threads : list Thread.t;
  clocks : list Clock;
  tracks : list Track;
  timers : list Timer.t;
  events : list Event;
  playerCharacters : list PlayerCharacter;
}.
Definition empty : t := mk [] [] [] [] [] [] [] [].
End Tags.

(** Modelled from the spec: the element type of the result of
    [TagExtractor.extractReferences]: the fields [type] and [name] that
    [collectAllTags] and the test suite read. *)
Module RefTag.
Record t := mk { type : RefType; name : string }.
End RefTag.

(** ** The collaborators of [NotationParser]

    [NotationParser] holds a [TagExtractor], a [CodeBlockParser], a
    [ProgressParser] and, optionally, the host application.  Their sources
    are separate files that are not among the sources; the parser is
    embedded over their interfaces, and what is proved of it holds for any
    implementation of them. *)

(** The methods of [TagExtractor] that [collectAllTags] calls. *)
Class TagExtractor := {
  extractTags : string → Location → Tags.t;
  extractReferences : string → list RefTag.t;
}.

(** The method of [CodeBlockParser] that [parseSceneContent] calls. *)
Class CodeBlockParser := {
  parseCodeBlock : string → Z → list NotationElement;
}.

(** The methods of [ProgressParser] that [parseCampaignFile] calls. *)
Class ProgressParser := {
  mergeClocks : list Clock → gmap string Clock;
  mergeTracks : list Track → gmap string Track;
  mergeTimers : list Timer.t → gmap string Timer.t;
  mergeEvents : list Event → gmap string Event;
}.

(** The part of the host application the parser calls: link resolution
    ([metadataCache.getFirstLinkpathDest], giving the path of the file
    found), the vault's directory ([vault.getAbstractFileByPath]) and
    [vault.read], where [None] stands for a rejected read. *)
Inductive AbstractFile := TFile (path : string) | TFolder (path : string).

Record App := mkApp {
  getFirstLinkpathDest : string → string → option string;
  getAbstractFileByPath : string → option AbstractFile;
  read : string → option string;
}.

(** ** [NotationParser] *)
Module NotationParser.

(** *** The entity merge engine *)

(** [getTagKey]: the part of a tag before its first '=', or the tag. *)
Definition getTagKey (tag : string) : string :=
  match JS.indexOf tag "="%char with
  | Some equalsIndex => JS.sliceTo tag equalsIndex
  | None => tag
  end.

(** The body of the loop [for (const tag of npc.tags)] for one tag,
    acting on [existing.tags]. *)
Definition applyTag (existingTags : list string) (tag : string)
  : list string :=
  if JS.startsWith tag "-" then
    let tagToRemove := JS.sliceFrom tag 1 in
    filter (λ t, t ≠ tagToRemove) existingTags
  else
    let newTagKey := getTagKey tag in
    let kept :=
      if decide (newTagKey ≠ tag)
      then filter (λ t, getTagKey t ≠ newTagKey) existingTags
      else existingTags in
    if decide (tag ∈ kept) then kept else kept ++ [tag].

(** One iteration of [for (const npc of npcs)]. *)
Definition mergeTaggedStep (merged : gmap string Tagged.t) (npc : Tagged.t)
  : gmap string Tagged.t :=
  match merged !! Tagged.id npc with
  | Some existing =>
      <[Tagged.id npc :=
          Tagged.mk (Tagged.id existing) (Tagged.name existing)
            (foldl applyTag (Tagged.tags existing) (Tagged.tags npc))
            (Tagged.firstMention existing)
            (Tagged.mentions existing ++ Tagged.mentions npc)]> merged
  | None => <[Tagged.id npc := npc]> merged
  end.

(** The body shared by [mergeNPCs], [mergeLocations] and
    [mergePlayerCharacters], which are three copies of one function. *)
Definition mergeTagged (l : list Tagged.t) : gmap string Tagged.t :=
  foldl mergeTaggedStep ∅ l.

(** [mergeNPCs] *)
Definition mergeNPCs (npcs : list NPC) := mergeTagged npcs.
(** [mergeLocations] *)
Definition mergeLocations (locations : list LocationTag) :=
  mergeTagged locations.
(** [mergePlayerCharacters] *)
Definition mergePlayerCharacters (pcs : list PlayerCharacter) :=
  mergeTagged pcs.

(** One iteration of [for (const thread of threads)]. *)
Definition mergeThreadsStep (merged : gmap string Thread.t) (thread : Thread.t)
  : gmap string Thread.t :=
  match merged !! Thread.id thread with
  | Some existing =>
      <[Thread.id thread :=
          Thread.mk (Thread.id existing) (Thread.name existing)
            (Thread.state thread)
            (Thread.firstMention existing)
            (Thread.mentions existing ++ Thread.mentions thread)]> merged
  | None => <[Thread.id thread := thread]> merged
  end.

(** [mergeThreads] *)
Definition mergeThreads (threads : list Thread.t) : gmap string Thread.t :=
  foldl mergeThreadsStep ∅ threads.

(** The string a reference kind stands for. *)
Definition refTypeName (ty : RefType) : string :=
  match ty with RefNpc => "npc" | RefLocation => "location" end.

(** The key [`${ref.type}:${ref.id}`]. *)
Definition referenceKey (ref : Reference.t) : string :=
  refTypeName (Reference.type ref) +:+ ":" +:+ Reference.id ref.

(** One iteration of [for (const ref of references)]. *)
Definition mergeReferencesStep (merged : gmap string Reference.t)
    (ref : Reference.t) : gmap string Reference.t :=
  let key := referenceKey ref in
  match merged !! key with
  | Some existing =>
      <[key :=
          Reference.mk (Reference.id existing) (Reference.name existing)
            (Reference.type existing) (Reference.firstMention existing)
            (Reference.mentions existing ++ Reference.mentions ref)]> merged
  | None => <[key := ref]> merged
  end.

(** [mergeReferences] *)
Definition mergeReferences (references : list Reference.t)
  : gmap string Reference.t :=
  foldl mergeReferencesStep ∅ references.



(** *** The regular expressions of the segmenter, as matchers

    Each pattern is written as the deterministic matcher it amounts to
    (its quantifiers never need to give characters back, or where they do
    the cases are spelled out). *)

(** The literal [p] (in lower case) at the head of [l] under the flag
    [i]; gives what follows it. *)
Fixpoint ciPrefix (p l : list ascii) : option (list ascii) :=
  match p with
  | [] => Some l
  | c :: p' =>
      match l with
      | d :: l' =>
          if decide (JS.lowerChar d = c) then ciPrefix p' l' else None
      | [] => None
      end
  end.

(** [Sessione?\s+(\d+)] under the flag [i], at the head of [l]: the
    number captured.  [(Session|Sessione)\s+(\d+)] matches the same. *)
Definition sessionWord (l : list ascii) : option Z :=
  match ciPrefix (JS.chars "session") l with
  | Some rest =>
      let rest1 :=
        match rest with
        | c :: r => if decide (JS.lowerChar c = "e"%char) then r else rest
        | [] => rest
        end in
      let '(ws, rest2) := JS.span JS.isSpace rest1 in
      let '(ds, _) := JS.span JS.isDigit rest2 in
      match ws, ds with
      | _ :: _, _ :: _ => Some (JS.parseDigits ds)
      | _, _ => None
      end
  | None => None
  end.

(** [line.match(/^##\s+Sessione?\s+(\d+)/i)], then [parseInt] of the
    group. *)
Definition matchSessionHeader (line : string) : option Z :=
  match JS.chars line with
  | "#"%char :: "#"%char :: l =>
      let '(ws, rest) := JS.span JS.isSpace l in
      match ws with
      | [] => None
      | _ :: _ => sessionWord rest
      end
  | _ => None
  end.

(** [/(?:^|\/)(Session|Sessione)\s+(\d+)/i.exec(s)]: the leftmost match,
    the number of its second group. *)
Fixpoint sessionPatternFrom (atStart : bool) (l : list ascii) : option Z :=
  match (if atStart then sessionWord l else None) with
  | Some n => Some n
  | None =>
      match l with
      | [] => None
      | c :: l' =>
          match (if decide (c = "/"%char) then sessionWord l' else None) with
          | Some n => Some n
          | None => sessionPatternFrom false l'
          end
      end
  end.

(** [sessionPattern.exec(s)], the number of the match. *)
Definition sessionPattern (s : string) : option Z :=
  sessionPatternFrom true (JS.chars s).

(** The negated class of one character. *)
Definition notChar (x c : ascii) : bool := bool_decide (c ≠ x).

(** [\[\[([^\]]+)\]\]] at the head of [l]: the group. *)
Definition wikilinkAt (l : list ascii) : option (list ascii) :=
  match l with
  | "["%char :: "["%char :: r =>
      let '(body, rest) := JS.span (notChar "]") r in
      match body, rest with
      | _ :: _, "]"%char :: "]"%char :: _ => Some body
      | _, _ => None
      end
  | _ => None
  end.

(** The successive matches of the global pattern on a line, as the loop
    [while ((match = wikilinkPattern.exec(line)) !== null)] sees them;
    [skip] counts the characters still covered by the last match. *)
Fixpoint wikilinks (skip : nat) (l : list ascii) : list (list ascii) :=
  match l with
  | [] => []
  | _ :: l' =>
      match skip with
      | S k => wikilinks k l'
      | O =>
          match wikilinkAt l with
          | Some body => body :: wikilinks (length body + 3) l'
          | None => wikilinks 0 l'
          end
      end
  end.

(** [line.match(/\*([^*]+)\*/)]: the group of the leftmost match. *)
Fixpoint firstStarred (l : list ascii) : option (list ascii) :=
  match l with
  | [] => None
  | c :: l' =>
      if decide (c = "*"%char) then
        let '(body, rest) := JS.span (notChar "*") l' in
        match body, rest with
        | _ :: _, _ :: _ => Some body
        | _, _ => firstStarred l'
        end
      else firstStarred l'
  end.

(** The characters that the dot of a pattern does not match. *)
Definition isLineTerminator (c : ascii) : bool :=
  bool_decide (c = "010"%char ∨ c = "013"%char).

(** [line.match(/^<label>\s*(.+)$/i)] for a literal [label] given in
    lower case: the group.  When only white space follows the label, the
    group is its last character. *)
Definition matchLabelled (label line : string) : option string :=
  match ciPrefix (JS.chars label) (JS.chars line) with
  | Some rest =>
      let '(ws, body) := JS.span JS.isSpace rest in
      match body with
      | _ :: _ =>
          if forallb (λ c, negb (isLineTerminator c)) body
          then Some (JS.ofChars body) else None
      | [] =>
          match last ws with
          | Some c =>
              if isLineTerminator c then None else Some (JS.ofChars [c])
          | None => None
          end
      end
  | None => None
  end.

(** The class [[\w.-]]. *)
Definition isIdChar (c : ascii) : bool :=
  JS.isWord c || bool_decide (c = "."%char ∨ c = "-"%char).

(** [(S[\w.-]+|\w+-S[\w.-]+)] at the head of [l]: the group and what
    follows. *)
Definition sceneId (l : list ascii) : option (list ascii * list ascii) :=
  let alt1 :=
    match l with
    | "S"%char :: r =>
        let '(run, rest) := JS.span isIdChar r in
        match run with
        | [] => None
        | _ :: _ => Some ("S"%char :: run, rest)
        end
    | _ => None
    end in
  match alt1 with
  | Some m => Some m
  | None =>
      let '(w, r) := JS.span JS.isWord l in
      match w, r with
      | _ :: _, "-"%char :: "S"%char :: r' =>
          let '(run, rest) := JS.span isIdChar r' in
          match run with
          | [] => None
          | _ :: _ => Some (w ++ "-"%char :: "S"%char :: run, rest)
          end
      | _, _ => None
      end
  end.

(** The scene heading pattern of [parseScenes]: three '#', [\s+], the
    group [(S[\w.-]+|\w+-S[\w.-]+)], [\s*], an optional star, a second
    group holding the longest run of characters other than a star, and an
    optional star.  The result is the two groups. *)
Definition matchSceneHeader (line : string) : option (string * string) :=
  match JS.chars line with
  | "#"%char :: "#"%char :: "#"%char :: l =>
      let '(ws, l1) := JS.span JS.isSpace l in
      match ws, sceneId l1 with
      | _ :: _, Some (g1, rest) =>
          let '(_, r1) := JS.span JS.isSpace rest in
          let r2 := match r1 with "*"%char :: r => r | _ => r1 end in
          let '(g2, _) := JS.span (notChar "*") r2 in
          Some (JS.ofChars g1, JS.ofChars g2)
      | _, _ => None
      end
  | _ => None
  end.

(** A detected session link. *)
Module SessionLink.
Record t := mk {
  lineNumber : Z;
  sessionNumber : Z;
  linkText : string;
  linkedFilePath : option string;
}.
End SessionLink.

(** The campaign built by [parseCampaignFile].  The title and the front
    matter, which come from the host's YAML reader and which nothing
    below reads, are left out. *)
Module Campaign.
Record t := mk {
  file : string;
  sessions : list Session.t;
  npcs : gmap string NPC;
  locations : gmap string LocationTag;
  threads : gmap string Thread.t;
  clocks : gmap string Clock;
  tracks : gmap string Track;
  timers : gmap string Timer.t;
  events : gmap string Event;
  playerCharacters : gmap string PlayerCharacter;
  references : gmap string Reference.t;
}.
End Campaign.

(** What [collectAllTags] returns: the extractor's eight lists and the
    references. *)
Module AllTags.
Record t := mk { tags : Tags.t; references : list Reference.t }.
Definition empty : t := mk Tags.empty [].
End AllTags.

(** The eight calls [all....push(...tags....)] of [collectAllTags]. *)
Definition appendTags (a b : Tags.t) : Tags.t :=
  Tags.mk (Tags.npcs a ++ Tags.npcs b) (Tags.locations a ++ Tags.locations b)
    (Tags.threads a ++ Tags.threads b) (Tags.clocks a ++ Tags.clocks b)
    (Tags.tracks a ++ Tags.tracks b) (Tags.timers a ++ Tags.timers b)
    (Tags.events a ++ Tags.events b)
    (Tags.playerCharacters a ++ Tags.playerCharacters b).

(** *** The segmenter and the collection of tags *)
Section Parser.
Context `{!TagExtractor} `{!CodeBlockParser} `{!ProgressParser}.
Variable app : option App.

(** [content.split('\n')] *)
Definition lines (content : string) : list string :=
  JS.split content JS.newline.

(** [l.join('\n')] *)
Definition unlines (l : list string) : string :=
  JS.join l (String JS.newline EmptyString).

(** The loop of [parseSceneContent], from line [i] on. *)
Fixpoint sceneContentLoop (baseLineNumber i : Z) (ls : list string)
    (elements : list NotationElement) (inCodeBlock : bool)
    (codeBlockContent : list string) (codeBlockStartLine : Z)
  : list NotationElement :=
  match ls with
  | [] => elements
  | line :: rest =>
      if decide (JS.trim line = "```") then
        if inCodeBlock then
          let parsed :=
            parseCodeBlock (unlines codeBlockContent)
              (baseLineNumber + codeBlockStartLine) in
          sceneContentLoop baseLineNumber (i + 1) rest
            (elements ++ parsed) false [] codeBlockStartLine
        else
          sceneContentLoop baseLineNumber (i + 1) rest
            elements true codeBlockContent (i + 1)
      else if inCodeBlock then
        sceneContentLoop baseLineNumber (i + 1) rest
          elements inCodeBlock (codeBlockContent ++ [line])
          codeBlockStartLine
      else
        sceneContentLoop baseLineNumber (i + 1) rest
          elements inCodeBlock codeBlockContent codeBlockStartLine
  end.

(** [parseSceneContent]: the elements of the closed code blocks of a
    scene. *)
Definition parseSceneContent (content filePath : string)
    (baseLineNumber : Z) : list NotationElement :=
  sceneContentLoop baseLineNumber 0 (lines content) [] false [] 0.

(** The assignments [currentScene.elements = ...] and
    [currentScene.endLine = ...] of [parseScenes]. *)
Definition closeScene (currentScene : Scene.t)
    (elements : list NotationElement) (endLine : Z) : Scene.t :=
  Scene.mk (Scene.id currentScene) (Scene.number currentScene)
    (Scene.context currentScene) (Scene.startLine currentScene)
    endLine elements.

(** The scene saved when a new heading or the end is reached. *)
Definition savedScene (filePath : string) (baseLineNumber : Z)
    (currentScene : option Scene.t) (currentSceneContent : list string)
    (sceneStartLine endLine : Z) : list Scene.t :=
  match currentScene with
  | Some sc =>
      [closeScene sc
         (parseSceneContent (unlines currentSceneContent) filePath
            (baseLineNumber + sceneStartLine))
         endLine]
  | None => []
  end.

(** The loop of [parseScenes], from line [i] on, and the saving of the
    last scene. *)
Fixpoint scenesLoop (filePath : string) (baseLineNumber i : Z)
    (ls : list string) (scenes : list Scene.t)
    (currentScene : option Scene.t) (currentSceneContent : list string)
    (sceneStartLine : Z) : list Scene.t :=
  match ls with
  | [] =>
      scenes ++ savedScene filePath baseLineNumber currentScene
                  currentSceneContent sceneStartLine (baseLineNumber + i - 1)
  | line :: rest =>
      match matchSceneHeader line with
      | Some (sceneNumber, ctx) =>
          let context :=
            if decide (JS.trim ctx = "") then None else Some (JS.trim ctx) in
          scenesLoop filePath baseLineNumber (i + 1) rest
            (scenes ++ savedScene filePath baseLineNumber currentScene
                         currentSceneContent sceneStartLine
                         (baseLineNumber + i - 1))
            (Some (Scene.mk sceneNumber sceneNumber context
                     (baseLineNumber + i) (baseLineNumber + i) []))
            [] i
      | None =>
          match currentScene with
          | Some _ =>
              scenesLoop filePath baseLineNumber (i + 1) rest scenes
                currentScene (currentSceneContent ++ [line]) sceneStartLine
          | None =>
              scenesLoop filePath baseLineNumber (i + 1) rest scenes
                currentScene currentSceneContent sceneStartLine
          end
      end
  end.

(** [parseScenes]: the scenes of a session's content. *)
Definition parseScenes (content filePath : string) (baseLineNumber : Z)
  : list Scene.t :=
  scenesLoop filePath baseLineNumber 0 (lines content) [] None [] 0.

(** The body of [for (const pair of pairs)] in [parseSessionMetadata]. *)
Definition setPair (metadata : gmap string string) (pair : string)
  : gmap string string :=
  match JS.trim <$> JS.split pair ":"%char with
  | key :: value :: _ =>
      if decide (key ≠ "" ∧ value ≠ "")
      then <[key := value]> metadata else metadata
  | _ => metadata
  end.

(** [parseSessionMetadata]: the pairs of a line "*Key: value | ...*". *)
Definition parseSessionMetadata (line : string) : gmap string string :=
  match firstStarred (JS.chars line) with
  | Some inner => foldl setPair ∅ (JS.split (JS.ofChars inner) "|"%char)
  | None => ∅
  end.

(** The body of the loop over the matches of one line in
    [extractSessionLinks]. *)
Definition sessionLink (i : Z) (basePath linkContent : string)
  : option SessionLink.t :=
  let '(linkPath, linkAlias) :=
    match JS.indexOf linkContent "|"%char with
    | Some pipeIndex =>
        (JS.sliceTo linkContent pipeIndex,
         Some (JS.sliceFrom linkContent (S pipeIndex)))
    | None => (linkContent, None)
    end in
  let pathMatch := sessionPattern linkPath in
  let aliasMatch :=
    match linkAlias with
    | Some a => if decide (a = "") then None else sessionPattern a
    | None => None
    end in
  match (match pathMatch with Some n => Some n | None => aliasMatch end)
  with
  | Some sessionNumber =>
      Some (SessionLink.mk i sessionNumber ("[[" +:+ linkContent +:+ "]]")
              (a ← app; getFirstLinkpathDest a linkPath basePath))
  | None => None
  end.

(** The loop [for (let i = 0; i < lines.length; i++)] of
    [extractSessionLinks], from line [i] on. *)
Fixpoint sessionLinksFrom (i : Z) (basePath : string) (ls : list string)
  : list SessionLink.t :=
  match ls with
  | [] => []
  | line :: rest =>
      omap (λ body, sessionLink i basePath (JS.ofChars body))
        (wikilinks 0 (JS.chars line))
      ++ sessionLinksFrom (i + 1) basePath rest
  end.

(** [extractSessionLinks]: the links to session notes, line by line. *)
Definition extractSessionLinks (content basePath : string)
  : list SessionLink.t :=
  sessionLinksFrom 0 basePath (lines content).

(** The tests of [recapMatch] and [goalsMatch] in [parseSessionFile]. *)
Definition labelled (label key : string) (metadata : gmap string string)
    (line : string) : gmap string string :=
  match matchLabelled label line with
  | Some g => <[key := JS.trim g]> metadata
  | None => metadata
  end.

(** [parseSessionFile]: the session of a linked note; [None] for [null],
    which is also the result when the read is rejected. *)
Definition parseSessionFile (filePath : string) (sessionNumber : Z)
  : option Session.t :=
  match app with
  | None => None
  | Some a =>
      match getAbstractFileByPath a filePath with
      | Some (TFile path) =>
          match read a path with
          | Some content =>
              let ls := lines content in
              let metadata :=
                foldl (λ m line,
                         labelled "**goals:**" "Goals"
                           (labelled "**recap:**" "Recap" m line) line)
                  (parseSessionMetadata (hd "" ls)) ls in
              Some (Session.mk sessionNumber
                      (metadata !! "Date") (metadata !! "Duration")
                      (metadata !! "Recap") (metadata !! "Goals")
                      (parseScenes content filePath 0)
                      0 (Z.of_nat (length ls) - 1) metadata (Some filePath))
          | None => None
          end
      | _ => None
      end
  end.

(** The assignments [currentSession.scenes = ...] and
    [currentSession.endLine = ...] of [parseSessions]. *)
Definition closeSession (filePath : string) (currentSession : Session.t)
    (currentSessionContent : list string) (sessionStartLine endLine : Z)
  : Session.t :=
  Session.mk (Session.number currentSession) (Session.date currentSession)
    (Session.duration currentSession) (Session.recap currentSession)
    (Session.goals currentSession)
    (parseScenes (unlines currentSessionContent) filePath sessionStartLine)
    (Session.startLine currentSession) endLine
    (Session.metadata currentSession) (Session.linkedFile currentSession).

(** The inline session saved when a new heading or the end is reached. *)
Definition savedSession (filePath : string)
    (currentSession : option Session.t)
    (currentSessionContent : list string) (sessionStartLine endLine : Z)
  : list Session.t :=
  match currentSession with
  | Some cur =>
      [closeSession filePath cur currentSessionContent sessionStartLine
         endLine]
  | None => []
  end.

(** The session a link contributes, if any. *)
Definition linkedSession (linkMatch : SessionLink.t) : list Session.t :=
  match SessionLink.linkedFilePath linkMatch with
  | Some linkedFilePath =>
      if decide (linkedFilePath = "") then [] else
      match parseSessionFile linkedFilePath
              (SessionLink.sessionNumber linkMatch) with
      | Some s =>
          [Session.mk (Session.number s) (Session.date s)
             (Session.duration s) (Session.recap s) (Session.goals s)
             (Session.scenes s) (SessionLink.lineNumber linkMatch)
             (SessionLink.lineNumber linkMatch) (Session.metadata s)
             (Session.linkedFile s)]
      | None => []
      end
  | None => []
  end.

(** The [while] loop of [parseSessions], from line [currentLineNumber]
    on, and the saving of the last inline session. *)
Fixpoint sessionsLoop (filePath : string)
    (sessionLinks : list SessionLink.t) (currentLineNumber : Z)
    (ls : list string) (sessions : list Session.t)
    (currentSession : option Session.t)
    (currentSessionContent : list string) (sessionStartLine : Z)
  : list Session.t :=
  match ls with
  | [] =>
      sessions ++ savedSession filePath currentSession
                    currentSessionContent sessionStartLine
                    (currentLineNumber - 1)
  | line :: rest =>
      match matchSessionHeader line with
      | Some sessionNumber =>
          let metadata := parseSessionMetadata (hd "" rest) in
          sessionsLoop filePath sessionLinks (currentLineNumber + 1) rest
            (sessions ++ savedSession filePath currentSession
                           currentSessionContent sessionStartLine
                           (currentLineNumber - 1))
            (Some (Session.mk sessionNumber
                     (metadata !! "Date") (metadata !! "Duration")
                     (metadata !! "Recap") (metadata !! "Goals")
                     [] currentLineNumber currentLineNumber metadata None))
            [] currentLineNumber
      | None =>
          match currentSession with
          | None =>
              match
                find (λ l, bool_decide
                             (SessionLink.lineNumber l = currentLineNumber))
                  sessionLinks
              with
              | Some linkMatch =>
                  sessionsLoop filePath sessionLinks
                    (currentLineNumber + 1) rest
                    (sessions ++ linkedSession linkMatch)
                    currentSession currentSessionContent sessionStartLine
              | None =>
                  sessionsLoop filePath sessionLinks
                    (currentLineNumber + 1) rest sessions
                    currentSession currentSessionContent sessionStartLine
              end
          | Some _ =>
              sessionsLoop filePath sessionLinks (currentLineNumber + 1)
                rest sessions currentSession
                (currentSessionContent ++ [line]) sessionStartLine
          end
      end
  end.

(** [sessions.sort((a, b) => a.number - b.number)]: a stable sort by
    number, here by insertion. *)
Fixpoint insertSession (s : Session.t) (sorted : list Session.t)
  : list Session.t :=
  match sorted with
  | [] => [s]
  | x :: rest =>
      if decide (Session.number s ≤ Session.number x)
      then s :: sorted else x :: insertSession s rest
  end.

(** The sorted array: every session inserted in front of the sessions
    that followed it. *)
Definition sortSessions (sessions : list Session.t) : list Session.t :=
  foldr insertSession [] sessions.

(** [parseSessions]: the inline and linked sessions, sorted by number. *)
Definition parseSessions (content filePath : string) : list Session.t :=
  let sessionLinks := extractSessionLinks content filePath in
  sortSessions
    (sessionsLoop filePath sessionLinks 0 (lines content) [] None [] 0).

(** The text of an element that [collectAllTags] scans; [None] for a
    meta note, which is skipped. *)
Definition contentToScan (element : NotationElement) : option string :=
  match Element.type element with
  | Element.action content => Some content
  | Element.oracle_question question => Some question
  | Element.mechanics_roll roll outcome _ => Some (roll +:+ " " +:+ outcome)
  | Element.oracle_result answer _ => Some answer
  | Element.consequence description => Some description
  | Element.text content => Some content
  | Element.table_lookup _ result => Some result
  | Element.generator _ result => Some result
  | Element.meta_note _ _ => None
  end.

(** The body of [for (const ref of refs)]. *)
Definition pushReference (location : Location) (acc : AllTags.t)
    (ref : RefTag.t) : AllTags.t :=
  let references :=
    AllTags.references acc ++
    [Reference.mk (RefTag.name ref) (RefTag.name ref) (RefTag.type ref)
       location [location]] in
  let t := AllTags.tags acc in
  match RefTag.type ref with
  | RefNpc =>
      AllTags.mk
        (appendTags t
           (Tags.mk
              [Tagged.mk ("npc:" +:+ JS.toLowerCase (RefTag.name ref))
                 (RefTag.name ref) [] location [location]]
              [] [] [] [] [] [] []))
        references
  | RefLocation =>
      AllTags.mk
        (appendTags t
           (Tags.mk []
              [Tagged.mk ("location:" +:+ JS.toLowerCase (RefTag.name ref))
                 (RefTag.name ref) [] location [location]]
              [] [] [] [] [] []))
        references
  end.

(** The body of [for (const element of scene.elements)]. *)
Definition collectElement (filePath : string) (session : Session.t)
    (scene : Scene.t) (acc : AllTags.t) (element : NotationElement)
  : AllTags.t :=
  let location :=
    mkLocation filePath (Element.lineNumber element)
      ("Session " +:+ pretty (Session.number session))
      (Scene.number scene) in
  match contentToScan element with
  | None => acc
  | Some content =>
      if decide (content = "") then acc else
      let tags := extractTags content location in
      foldl (pushReference location)
        (AllTags.mk (appendTags (AllTags.tags acc) tags)
           (AllTags.references acc))
        (extractReferences content)
  end.

(** [collectAllTags]: the three nested loops over sessions, scenes and
    elements. *)
Definition collectAllTags (sessions : list Session.t) (filePath : string)
  : AllTags.t :=
  foldl (λ acc session,
           foldl (λ acc scene,
                    foldl (collectElement filePath session scene) acc
                      (Scene.elements scene))
             acc (Session.scenes session))
    AllTags.empty sessions.

(** [parseCampaignFile] *)
Definition parseCampaignFile (content filePath : string) : Campaign.t :=
  let sessions := parseSessions content filePath in
  let allTags := collectAllTags sessions filePath in
  let t := AllTags.tags allTags in
  Campaign.mk filePath sessions
    (mergeNPCs (Tags.npcs t))
    (mergeLocations (Tags.locations t))
    (mergeThreads (Tags.threads t))
    (mergeClocks (Tags.clocks t))
    (mergeTracks (Tags.tracks t))
    (mergeTimers (Tags.timers t))
    (mergeEvents (Tags.events t))
    (mergePlayerCharacters (Tags.playerCharacters t))
    (mergeReferences (AllTags.references allTags)).

End Parser.

End NotationParser.

(** ** [TagExtractor] *)
Module TagExtractorModel.

(** Modelled from the spec: the source of [TagExtractor], which is not
    among the sources (section 4.2: "kind keywords are case-sensitive,
    exactly as listed").  The literal [p] at the head of [l]; gives what
    follows it. *)
Fixpoint literalPrefix (p l : list ascii) : option (list ascii) :=
  match p with
  | [] => Some l
  | c :: p' =>
      match l with
      | d :: l' => if decide (d = c) then literalPrefix p' l' else None
      | [] => None
      end
  end.

(** Modelled from the spec: the source of [TagExtractor] (section 4.2,
    "[<Kind>:<Name>] or [<Kind>:<Name>|<tag1>|<tag2>|...]").  A tag is an
    opening bracket, a kind keyword, a colon, and a body that runs up to the
    next closing bracket; [tagAt kind l] is the body of a tag of that kind
    at the head of [l]. *)
Definition tagAt (kind : string) (l : list ascii) : option (list ascii) :=
  match l with
  | "["%char :: r =>
      match literalPrefix (JS.chars kind ++ [":"%char]) r with
      | Some r' =>
          let '(body, rest) := JS.span (NotationParser.notChar "]") r' in
          match rest with
          | _ :: _ => Some body
          | [] => None
          end
      | None => None
      end
  | _ => None
  end.

(** Modelled from the spec: the source of [TagExtractor] (section 4.2,
    "multiple tags in one text block each produce independent mention
    records, preserving left-to-right order of appearance").  The bodies of
    the tags of one kind in a text, left to right; a tag starts after the
    end of the one before, and [skip] counts the characters still covered
    by it. *)
Fixpoint tagBodies (kind : string) (skip : nat) (l : list ascii)
  : list string :=
  match l with
  | [] => []
  | _ :: l' =>
      match skip with
      | S k => tagBodies kind k l'
      | O =>
          match tagAt kind l with
          | Some body =>
              JS.ofChars body
              :: tagBodies kind (String.length kind + length body + 2) l'
          | None => tagBodies kind 0 l'
          end
      end
  end.

(** Modelled from the spec: the source of [TagExtractor] (the kind
    keywords of section 4.2, "case-sensitive, exactly as listed"). *)
Definition keywords : list string :=
  ["N"; "L"; "Thread"; "PC"; "Clock"; "Track"; "Timer"; "E"].

(** Modelled from the spec: the source of [TagExtractor] (section 4.2).
    The name part of the body of an NPC, location, player-character or
    thread tag: what precedes the first '|'. *)
Definition namePart (body : string) : string :=
  hd "" (JS.split body "|"%char).

(** Modelled from the spec: the source of [TagExtractor] (kinds [N], [L]
    and [PC]: "name and each tag are trimmed of surrounding whitespace; an
    empty name yields no mention at all"; identity key
    "<kindPrefix>:<name-lowercased-trimmed>"). *)
Definition taggedOf (prefix : string) (location : Location) (body : string)
  : option Tagged.t :=
  let name := JS.trim (namePart body) in
  if decide (name = "") then None else
  Some (Tagged.mk (prefix +:+ ":" +:+ JS.toLowerCase name) name
          (JS.trim <$> tail (JS.split body "|"%char))
          location [location]).

(** Modelled from the spec: the source of [TagExtractor] (kind [Thread]:
    "thread tags specifically require a |<state> segment ... if malformed
    the thread is not emitted"). *)
Definition threadOf (location : Location) (body : string)
  : option Thread.t :=
  let name := JS.trim (namePart body) in
  match tail (JS.split body "|"%char) with
  | state :: _ =>
      if decide (name = "" ∨ JS.trim state = "") then None else
      Some (Thread.mk ("thread:" +:+ JS.toLowerCase name) name
              (JS.trim state) location [location])
  | [] => None
  end.

(** Modelled from the spec: the source of [TagExtractor] (section 4.2,
    "space- and pipe-separated numeric suffix forms").  A body split into
    what precedes a separator (white space or '|') and the run of digits
    that ends it. *)
Definition splitNumber (body : list ascii) : option (list ascii * Z) :=
  let '(ds, before) := JS.span JS.isDigit (reverse body) in
  match ds, before with
  | _ :: _, c :: _ =>
      if JS.isSpace c || bool_decide (c = "|"%char) then
        let '(_, b1) := JS.span JS.isSpace before in
        let b2 := match b1 with "|"%char :: r => r | _ => b1 end in
        Some (reverse b2, JS.parseDigits (reverse ds))
      else None
  | _, _ => None
  end.

(** Modelled from the spec: the source of [TagExtractor] (section 4.2,
    the suffix "<current>/<total>").  A body split into its name part and
    the pair of numbers that ends it. *)
Definition splitProgress (body : string) : option (string * Z * Z) :=
  let '(ds, before) :=
    JS.span JS.isDigit (reverse (JS.chars (JS.trim body))) in
  match ds, before with
  | _ :: _, "/"%char :: before' =>
      match splitNumber (reverse before') with
      | Some (name, current) =>
          Some (JS.ofChars name, current, JS.parseDigits (reverse ds))
      | None => None
      end
  | _, _ => None
  end.

(** Modelled from the spec: the source of [TagExtractor] (kinds [Clock],
    [Track] and [E]: "[Clock:<Name> <current>/<total>] or
    [Clock:<Name>|<current>/<total>] - both forms must parse
    identically"). *)
Definition progressOf (prefix : string) (location : Location)
    (body : string) : option Progress.t :=
  match splitProgress body with
  | Some (namePart, current, total) =>
      let name := JS.trim namePart in
      if decide (name = "") then None else
      Some (Progress.mk (prefix +:+ ":" +:+ JS.toLowerCase name) name
              current total [location])
  | None => None
  end.

(** Modelled from the spec: the source of [TagExtractor] (kind [Timer]:
    "[Timer:<Name> <value>]"). *)
Definition timerOf (location : Location) (body : string) : option Timer.t :=
  match splitNumber (JS.chars (JS.trim body)) with
  | Some (namePart, value) =>
      let name := JS.trim (JS.ofChars namePart) in
      if decide (name = "") then None else
      Some (Timer.mk ("timer:" +:+ JS.toLowerCase name) name value
              [location])
  | None => None
  end.

(** Modelled from the spec: the source of [TagExtractor.extractNPCs]
    (kind [N], key prefix "npc" as the test suite shows). *)
Definition extractNPCs (content : string) (location : Location) :=
  omap (taggedOf "npc" location) (tagBodies "N" 0 (JS.chars content)).
(** Modelled from the spec: the source of
    [TagExtractor.extractLocations] (kind [L], key prefix "location"). *)
Definition extractLocations (content : string) (location : Location) :=
  omap (taggedOf "location" location) (tagBodies "L" 0 (JS.chars content)).
(** Modelled from the spec: the source of
    [TagExtractor.extractPlayerCharacters] (kind [PC], key prefix "pc"). *)
Definition extractPlayerCharacters (content : string) (location : Location) :=
  omap (taggedOf "pc" location) (tagBodies "PC" 0 (JS.chars content)).
(** Modelled from the spec: the source of [TagExtractor.extractThreads]
    (kind [Thread], key prefix "thread"). *)
Definition extractThreads (content : string) (location : Location) :=
  omap (threadOf location) (tagBodies "Thread" 0 (JS.chars content)).
(** Modelled from the spec: the source of [TagExtractor.extractClocks]
    (kind [Clock], key prefix "clock"). *)
Definition extractClocks (content : string) (location : Location) :=
  omap (progressOf "clock" location) (tagBodies "Clock" 0 (JS.chars content)).
(** Modelled from the spec: the source of [TagExtractor.extractTracks]
    (kind [Track]). *)
Definition extractTracks (content : string) (location : Location) :=
  omap (progressOf "track" location) (tagBodies "Track" 0 (JS.chars content)).
(** Modelled from the spec: the source of [TagExtractor.extractEvents]
    (kind [E], "same shape as Clock"). *)
Definition extractEvents (content : string) (location : Location) :=
  omap (progressOf "event" location) (tagBodies "E" 0 (JS.chars content)).
(** Modelled from the spec: the source of [TagExtractor.extractTimers]
    (kind [Timer]). *)
Definition extractTimers (content : string) (location : Location) :=
  omap (timerOf location) (tagBodies "Timer" 0 (JS.chars content)).

(** Modelled from the spec: the source of [TagExtractor.extractTags]
    (one list of mentions per kind). *)
Definition extractTags (content : string) (location : Location) : Tags.t :=
  Tags.mk (extractNPCs content location) (extractLocations content location)
    (extractThreads content location) (extractClocks content location)
    (extractTracks content location) (extractTimers content location)
    (extractEvents content location)
    (extractPlayerCharacters content location).

(** Modelled from the spec: the source of
    [TagExtractor.extractReferences] (a back-reference carries its kind and
    its trimmed name). *)
Definition refOf (type : RefType) (body : string) : option RefTag.t :=
  let name := JS.trim body in
  if decide (name = "") then None else Some (RefTag.mk type name).

(** Modelled from the spec: the source of
    [TagExtractor.extractReferences] ("a leading # immediately after the
    bracket, before the kind letter").  The back-references of a text, left
    to right, whatever their kind. *)
Fixpoint refBodies (skip : nat) (l : list ascii) : list (option RefTag.t) :=
  match l with
  | [] => []
  | _ :: l' =>
      match skip with
      | S k => refBodies k l'
      | O =>
          match tagAt "#N" l, tagAt "#L" l with
          | Some body, _ =>
              refOf RefNpc (JS.ofChars body)
              :: refBodies (length body + 4) l'
          | None, Some body =>
              refOf RefLocation (JS.ofChars body)
              :: refBodies (length body + 4) l'
          | None, None => refBodies 0 l'
          end
      end
  end.

(** Modelled from the spec: the source of
    [TagExtractor.extractReferences] ("[#N:<Name>], [#L:<Name>] -
    recognized separately from forward tags"). *)
Definition extractReferences (content : string) : list RefTag.t :=
  omap id (refBodies 0 (JS.chars content)).

(** Modelled from the spec: the source of [TagExtractor], as an instance
    of the interface the parser is embedded over. *)
Definition instance : TagExtractor :=
  Build_TagExtractor extractTags extractReferences.

End TagExtractorModel.

(** ** [CodeBlockParser] *)
Module CodeBlockParserModel.

(** Modelled from the spec: the source of [CodeBlockParser], which is
    not among the sources (success of a mechanics roll, section 4.1 rule 3:
    a keyword scan of the outcome, the keywords of success first; the test
    suite writes the keywords with capitals, so the scan ignores case).  The
    explicit marks S and F belong to the dice glyph shorthand, which is not
    modelled. *)
Definition determineSuccess (outcome : string) : option bool :=
  let lower := JS.toLowerCase outcome in
  if JS.includes lower "success" || JS.includes lower "strong hit"
  then Some true
  else if JS.includes lower "fail" || JS.includes lower "miss"
  then Some false
  else None.

(** Modelled from the spec: the source of [CodeBlockParser] (section 4.1,
    "<roll> => <outcome>").  A text split at the first occurrence of
    [arrow]. *)
Fixpoint splitFirst (arrow s : string) : option (string * string) :=
  if JS.startsWith s arrow
  then Some (EmptyString, JS.sliceFrom s (String.length arrow))
  else
    match s with
    | EmptyString => None
    | String c s' =>
        match splitFirst arrow s' with
        | Some (a, b) => Some (String c a, b)
        | None => None
        end
    end.

(** Modelled from the spec: the source of [CodeBlockParser] (section 4.1
    rule 7, "everything between marker and final arrow").  A text split at
    the last occurrence of [arrow]. *)
Fixpoint splitLast (arrow s : string) : option (string * string) :=
  match s with
  | EmptyString => None
  | String c s' =>
      match splitLast arrow s' with
      | Some (a, b) => Some (String c a, b)
      | None =>
          if JS.startsWith s arrow
          then Some (EmptyString, JS.sliceFrom s (String.length arrow))
          else None
      end
  end.

(** Modelled from the spec: the source of [CodeBlockParser] (section 4.1
    rules 3, 6 and 7).  The two trimmed, non-empty fields of a line
    "<marker> <a> <arrow> <b>". *)
Definition fields (split : string → option (string * string))
    (marker line : string) : option (string * string) :=
  if JS.startsWith line marker then
    match split (JS.sliceFrom line (String.length marker)) with
    | Some (a, b) =>
        if decide (JS.trim a = "" ∨ JS.trim b = "") then None
        else Some (JS.trim a, JS.trim b)
    | None => None
    end
  else None.

(** Modelled from the spec: the source of [CodeBlockParser] (section 4.1
    rules 1, 2, 4 and 5, "content is remainder, trimmed").  The remainder of
    a line after one of its prefix markers. *)
Definition afterMarker (markers : list string) (line : string)
  : option string :=
  (λ m, JS.trim (JS.sliceFrom line (String.length m)))
    <$> find (λ m, JS.startsWith line m) markers.

(** Modelled from the spec: the source of [CodeBlockParser] (section 4.1
    rule 4, "(<roll-spec>) <answer>").  The roll and the answer. *)
Definition leadingRoll (s : string) : option (string * string) :=
  match s with
  | String "("%char s' =>
      match splitFirst ")" s' with
      | Some (roll, answer) =>
          if decide (roll = "" ∨ JS.trim answer = "") then None
          else Some (roll, JS.trim answer)
      | None => None
      end
  | _ => None
  end.

(** Modelled from the spec: the source of [CodeBlockParser] (section 4.1
    rule 8, "(<category>: <content>) where category is a bare word"). *)
Definition metaNote (line : string) : option (string * string) :=
  match JS.chars line with
  | "("%char :: l =>
      let '(category, rest) := JS.span JS.isWord l in
      match category, rest, last rest with
      | _ :: _, ":"%char :: content, Some ")"%char =>
          Some (JS.ofChars category,
                JS.trim (JS.ofChars (take (length content - 1) content)))
      | _, _, _ => None
      end
  | _ => None
  end.

(** Modelled from the spec: the source of [CodeBlockParser] (section 4.1,
    "first match wins"). *)
Definition orElse {A} (a b : option A) : option A :=
  match a with Some _ => a | None => b end.

(** Modelled from the spec: the source of [CodeBlockParser] (the line
    classifier of section 4.1, in its recognition order; the first rule
    that matches wins and an unmatched line is a text line).  The dice
    glyph shorthand of rule 3, whose normalisation the spec leaves open,
    and the trailing parenthetical of rule 4 are not modelled: such lines
    fall through to the later rules. *)
Definition classify (line : string) : Element.payload :=
  default (Element.text line)
    (orElse (Element.action <$> afterMarker ["▶"; ">"] line)
    (orElse (Element.oracle_question <$> afterMarker ["?"] line)
    (orElse ((λ '(roll, outcome),
                Element.mechanics_roll roll outcome (determineSuccess outcome))
               <$> fields (splitFirst "=>") "d:" line)
    (orElse ((λ answer,
                match leadingRoll answer with
                | Some (roll, rest) => Element.oracle_result rest (Some roll)
                | None => Element.oracle_result answer None
                end) <$> afterMarker ["⤷"; "->"] line)
    (orElse (Element.consequence <$> afterMarker ["⇒"; "=>"] line)
    (orElse ((λ '(roll, result), Element.table_lookup roll result)
               <$> orElse (fields (splitFirst "=>") "tbl:" line)
                          (fields (splitFirst "→") "📖" line))
    (orElse ((λ '(system, result), Element.generator system result)
               <$> orElse (fields (splitLast "=>") "gen:" line)
                          (fields (splitLast "→") "📚" line))
            ((λ '(category, content), Element.meta_note category content)
               <$> metaNote line)))))))).

(** Modelled from the spec: the source of
    [CodeBlockParser.parseCodeBlock] (one element per line that is not
    blank, numbered from the block's first line). *)
Fixpoint parseLines (lineNumber : Z) (ls : list string)
  : list NotationElement :=
  match ls with
  | [] => []
  | line :: rest =>
      (if decide (JS.trim line = "") then []
       else [Element.mk lineNumber (classify (JS.trim line))])
      ++ parseLines (lineNumber + 1) rest
  end.

(** Modelled from the spec: the source of
    [CodeBlockParser.parseCodeBlock] (the lines of a block, classified one
    by one). *)
Definition parseCodeBlock (content : string) (startLine : Z)
  : list NotationElement :=
  parseLines startLine (JS.split content JS.newline).

(** Modelled from the spec: the source of [CodeBlockParser], as an
    instance of the interface the parser is embedded over. *)
Definition instance : CodeBlockParser := Build_CodeBlockParser parseCodeBlock.

End CodeBlockParserModel.

(** ** [ProgressParser] *)
Module ProgressParserModel.

(** Modelled from the spec: the source of
    [ProgressParser.calculateProgress], which is not among the sources
    (section 4.3: "integer percentage 0-100, rounded; define as 0% when
    total is 0").  The quotient is rounded to the nearest integer, a half
    going up as [Math.round] does, and kept within the stated range. *)
Definition calculateProgress (current total : Z) : Z :=
  if decide (total = 0) then 0
  else Z.max 0 (Z.min 100 ((200 * current + total) / (2 * total))).

(** Modelled from the spec: the source of [ProgressParser.isComplete]
    ("true iff current >= total and total > 0"). *)
Definition isComplete (current total : Z) : bool :=
  bool_decide (total ≤ current ∧ 0 < total).

(** Modelled from the spec: the source of [ProgressParser.mergeClocks]
    (section 4.5: the first occurrence of a key creates the record; later
    ones overwrite current and total and append their locations). *)
Definition mergeProgressStep (merged : gmap string Progress.t)
    (p : Progress.t) : gmap string Progress.t :=
  match merged !! Progress.id p with
  | Some existing =>
      <[Progress.id p :=
          Progress.mk (Progress.id existing) (Progress.name existing)
            (Progress.current p) (Progress.total p)
            (Progress.locations existing ++ Progress.locations p)]> merged
  | None => <[Progress.id p := p]> merged
  end.

(** Modelled from the spec: the source of [ProgressParser.mergeClocks],
    [mergeTracks] and [mergeEvents] ("current/total are overwritten to
    the latest mention's values; locations list appended"). *)
Definition mergeProgress (l : list Progress.t) : gmap string Progress.t :=
  foldl mergeProgressStep ∅ l.

(** Modelled from the spec: the source of [ProgressParser.mergeTimers]
    (section 4.5: later mentions overwrite the value and append their
    locations). *)
Definition mergeTimersStep (merged : gmap string Timer.t) (t : Timer.t)
  : gmap string Timer.t :=
  match merged !! Timer.id t with
  | Some existing =>
      <[Timer.id t :=
          Timer.mk (Timer.id existing) (Timer.name existing) (Timer.value t)
            (Timer.locations existing ++ Timer.locations t)]> merged
  | None => <[Timer.id t := t]> merged
  end.

(** Modelled from the spec: the source of [ProgressParser.mergeTimers]
    ("value reflects most recent mention"). *)
Definition mergeTimers (l : list Timer.t) : gmap string Timer.t :=
  foldl mergeTimersStep ∅ l.

(** Modelled from the spec: the source of [ProgressParser], as an
    instance of the interface the parser is embedded over. *)
Definition instance : ProgressParser :=
  Build_ProgressParser mergeProgress mergeProgress mergeTimers mergeProgress.

End ProgressParserModel.


Global Existing Instance TagExtractorModel.instance.
Global Existing Instance CodeBlockParserModel.instance.
Global Existing Instance ProgressParserModel.instance.

(** ** Literal patterns *)
Module Pattern.

(** The literal [p] at the head of [l]; gives what follows it. *)
Fixpoint literalAt (p l : list ascii) : option (list ascii) :=
  match p with
  | [] => Some l
  | c :: p' =>
      match l with
      | d :: l' => if decide (d = c) then literalAt p' l' else None
      | [] => None
      end
  end.

End Pattern.

(** ** [NotationParser]: the title and the front matter of a campaign

    [parseCampaignFile] takes the title of the campaign from the front
    matter or, failing that, from [extractTitle]. *)
Module CampaignTitle.
Import NotationParser.

(** [#\s+(.+)$] under the flag [m], at the head of [l]: the group.  The
    white space after the '#' may span line ends; the group is the run of
    characters up to the next line end.  When nothing but white space
    follows the '#' up to the end of the text, the pattern gives white
    space back: the group is then the last character of that white space
    that is not a line end, the first character of the run excepted. *)
Definition titleAt (l : list ascii) : option (list ascii) :=
  match l with
  | "#"%char :: r =>
      let '(ws, rest) := JS.span JS.isSpace r in
      match ws with
      | [] => None
      | _ :: ws' =>
          let '(body, _) :=
            JS.span (λ c, negb (isLineTerminator c)) rest in
          match body with
          | _ :: _ => Some body
          | [] =>
              (λ c, [c]) <$>
                last (filter (λ c, isLineTerminator c = false) ws')
          end
      end
  | _ => None
  end.

(** [content.match(/^#\s+(.+)$/m)]: the group of the leftmost match; under
    the flag [m] the pattern is tried at the start of the text and after
    every line end. *)
Fixpoint titleFrom (atLineStart : bool) (l : list ascii)
  : option (list ascii) :=
  match (if atLineStart then titleAt l else None) with
  | Some g => Some g
  | None =>
      match l with
      | [] => None
      | c :: l' => titleFrom (isLineTerminator c) l'
      end
  end.

(** [extractTitle] *)
Definition extractTitle (content : string) : string :=
  match titleFrom true (JS.chars content) with
  | Some g => JS.trim (JS.ofChars g)
  | None => "Untitled Campaign"
  end.

(** The closing of the front matter: a line feed and three dashes. *)
Definition closing : string := String JS.newline "---".

(** The lazy group of the pattern of [extractFrontMatter]: the text
    before the first occurrence of [closing] in [l], if there is one. *)
Fixpoint upToClosing (l : list ascii) : option (list ascii) :=
  match Pattern.literalAt (JS.chars closing) l with
  | Some _ => Some []
  | None =>
      match l with
      | [] => None
      | c :: l' => (λ g, c :: g) <$> upToClosing l'
      end
  end.

(** [content.match(/^---\n([\s\S]*?)\n---/)]: the group. *)
Definition frontMatterText (content : string) : option string :=
  match Pattern.literalAt (JS.chars (String "-" (String "-" (String "-"
                             (String JS.newline EmptyString)))))
          (JS.chars content) with
  | Some rest => JS.ofChars <$> upToClosing rest
  | None => None
  end.

(** [extractFrontMatter], over the YAML reader of the host application:
    [parseYaml] gives [None] when the reader raises an exception or
    returns nothing, and [empty] stands for the object without
    properties. *)
Definition extractFrontMatter {FrontMatter : Type} (empty : FrontMatter)
    (parseYaml : string → option FrontMatter) (content : string)
  : FrontMatter :=
  match frontMatterText content with
  | Some text => default empty (parseYaml text)
  | None => empty
  end.

End CampaignTitle.

(** ** JavaScript values

    [DashboardView] reads the cards of its list through property names
    ([element.name], [element.session], [element.tags], ...) whatever the
    kind of the card.  To follow these reads, an object is embedded as the
    list of its properties. *)
Module JSValue.

Local Unset Elimination Schemes.
Inductive t :=
| undefined
| null
| boolean (b : bool)
| num (n : Z)
| str (s : string)
| arr (items : list t)
| obj (fields : list (string * t)).
Local Set Elimination Schemes.

(** The property [key] among [fields]; [undefined] when there is none. *)
Fixpoint lookupField (fields : list (string * t)) (key : string) : t :=
  match fields with
  | [] => undefined
  | (k, v) :: rest => if decide (k = key) then v else lookupField rest key
  end.

(** [v.key], with the [length] of arrays and of strings.  (Reading a
    property of [undefined] or of [null] raises a TypeError; the functions
    embedded below read properties behind a guard only.) *)
Definition get (v : t) (key : string) : t :=
  match v with
  | obj fields => lookupField fields key
  | arr items =>
      if decide (key = "length") then num (Z.of_nat (length items))
      else undefined
  | str s =>
      if decide (key = "length") then num (Z.of_nat (String.length s))
      else undefined
  | _ => undefined
  end.

(** Whether a value counts as true in a condition. *)
Definition truthy (v : t) : bool :=
  match v with
  | undefined | null => false
  | boolean b => b
  | num n => bool_decide (n ≠ 0)
  | str s => bool_decide (s ≠ "")
  | arr _ | obj _ => true
  end.

(** [a || b] and [a && b] *)
Definition or (a b : t) : t := if truthy a then a else b.
Definition and (a b : t) : t := if truthy a then b else a.

(** The receiver of a string method: a string, or a TypeError ([None]). *)
Definition asString (v : t) : option string :=
  match v with
  | str s => Some s
  | _ => None
  end.

End JSValue.

(** ** [DashboardView]: the elements of the second screen

    The functions of [src/views/DashboardView.ts] that select, count, filter
    and order the cards of the elements screen.  The fields
    [selectedCampaign], [currentElementType] and [searchQuery] of the
    view, which these functions read, are passed as arguments.  [None]
    stands for an exception (a TypeError), or for a coercion between
    types that the embedding of values leaves out. *)
Module DashboardView.
Import NotationParser.

(** The type [ElementType]: the thirteen filter chips. *)
Module ElementType.
Inductive t :=
| All | PC | NPC | Location | Thread | Clock | Track | Timer | Event
| MetaNote | TableLookup | Generator | Reference.

(** The string a chip stands for. *)
Definition name (ty : t) : string :=
  match ty with
  | All => "All" | PC => "PC" | NPC => "NPC" | Location => "Location"
  | Thread => "Thread" | Clock => "Clock" | Track => "Track"
  | Timer => "Timer" | Event => "Event" | MetaNote => "MetaNote"
  | TableLookup => "TableLookup" | Generator => "Generator"
  | Reference => "Reference"
  end.

Global Instance eq_dec : EqDecision t.
Proof. solve_decision. Defined.
End ElementType.

(** The interface [MetaNoteWithContext]. *)
Module MetaNoteWithContext.
Record t := mk {
  note : NotationElement;
  location : Location;
  session : string;
  scene : string;
}.
End MetaNoteWithContext.

(** The interface [RandomEvent]; [eventType] holds 'TableLookup' or
    'Generator'. *)
Module RandomEvent.
Record t := mk {
  type : string;
  data : NotationElement;
  location : Location;
  eventType : ElementType.t;
  session : string;
  scene : string;
}.
End RandomEvent.

(** The union of the field [data] of [ElementCardData]: a player
    character, NPC or location; a thread; a clock, track or event; a
    timer; a meta note; a random event; a reference. *)
Inductive CardData :=
| entity (e : Tagged.t)
| thread (t : Thread.t)
| progress (p : Progress.t)
| timer (t : Timer.t)
| metaNote (n : MetaNoteWithContext.t)
| randomEvent (e : RandomEvent.t)
| reference (r : Reference.t).

(** The interface [ElementCardData]. *)
Module ElementCardData.
Record t := mk {
  elementType : ElementType.t;
  data : CardData;
}.
End ElementCardData.

(** Modelled from the spec: the discriminant [type] of a
    [NotationElement] ("every variant carries lineNumber and type
    discriminant"), with the strings that the test suite of
    [CodeBlockParser] expects. *)
Definition typeName (p : Element.payload) : string :=
  match p with
  | Element.action _ => "action"
  | Element.oracle_question _ => "oracle_question"
  | Element.mechanics_roll _ _ _ => "mechanics_roll"
  | Element.oracle_result _ _ => "oracle_result"
  | Element.consequence _ => "consequence"
  | Element.table_lookup _ _ => "table_lookup"
  | Element.generator _ _ => "generator"
  | Element.meta_note _ _ => "meta_note"
  | Element.text _ => "text"
  end.

(** [Array.from(map.values())]; the order of the entries of a [Map] is
    not represented. *)
Definition values {A} (m : gmap string A) : list A := (map_to_list m).*2.

(** [createLocation] *)
Definition createLocation (session : Session.t) (scene : Scene.t)
    (element : NotationElement) (campaign : Campaign.t) : Location :=
  mkLocation
    (match Session.linkedFile session with
     | Some linkedFile =>
         if decide (linkedFile = "") then Campaign.file campaign
         else linkedFile
     | None => Campaign.file campaign
     end)
    (Element.lineNumber element)
    ("Session " +:+ pretty (Session.number session))
    (Scene.number scene).

(** [collectElementsByTypes]: the three nested loops. *)
Definition collectElementsByTypes {R} (campaign : Campaign.t)
    (types : list string)
    (processor : NotationElement → Session.t → Scene.t → R) : list R :=
  session ← Campaign.sessions campaign;
  scene ← Session.scenes session;
  element ← Scene.elements scene;
  if decide (typeName (Element.type element) ∈ types)
  then [processor element session scene] else [].

(** [getMetaNotes] *)
Definition getMetaNotes (selectedCampaign : option Campaign.t)
  : list MetaNoteWithContext.t :=
  match selectedCampaign with
  | None => []
  | Some campaign =>
      collectElementsByTypes campaign ["meta_note"]
        (λ element session scene,
           MetaNoteWithContext.mk element
             (createLocation session scene element campaign)
             ("Session " +:+ pretty (Session.number session))
             (Scene.number scene))
  end.

(** [getRandomEvents] *)
Definition getRandomEvents (currentElementType : ElementType.t)
    (selectedCampaign : option Campaign.t) : list RandomEvent.t :=
  match selectedCampaign with
  | None => []
  | Some campaign =>
      session ← Campaign.sessions campaign;
      scene ← Session.scenes session;
      element ← Scene.elements scene;
      if decide (typeName (Element.type element) = "table_lookup" ∧
                 (currentElementType = ElementType.All ∨
                  currentElementType = ElementType.TableLookup))
      then [RandomEvent.mk "table" element
              (createLocation session scene element campaign)
              ElementType.TableLookup
              ("Session " +:+ pretty (Session.number session))
              (Scene.number scene)]
      else if decide (typeName (Element.type element) = "generator" ∧
                      (currentElementType = ElementType.All ∨
                       currentElementType = ElementType.Generator))
      then [RandomEvent.mk "generator" element
              (createLocation session scene element campaign)
              ElementType.Generator
              ("Session " +:+ pretty (Session.number session))
              (Scene.number scene)]
      else []
  end.

(** [getElementCounts]: the number shown on each chip. *)
Definition getElementCounts (selectedCampaign : option Campaign.t)
  : ElementType.t → Z :=
  match selectedCampaign with
  | None => λ _, 0
  | Some campaign =>
      let metaNoteResults :=
        collectElementsByTypes campaign ["meta_note"] (λ _ _ _, 1) in
      let tableLookupResults :=
        collectElementsByTypes campaign ["table_lookup"] (λ _ _ _, 1) in
      let generatorResults :=
        collectElementsByTypes campaign ["generator"] (λ _ _ _, 1) in
      let counts (ty : ElementType.t) : Z :=
        match ty with
        | ElementType.All => 0
        | ElementType.PC =>
            Z.of_nat (size (Campaign.playerCharacters campaign))
        | ElementType.NPC => Z.of_nat (size (Campaign.npcs campaign))
        | ElementType.Location =>
            Z.of_nat (size (Campaign.locations campaign))
        | ElementType.Thread => Z.of_nat (size (Campaign.threads campaign))
        | ElementType.Clock => Z.of_nat (size (Campaign.clocks campaign))
        | ElementType.Track => Z.of_nat (size (Campaign.tracks campaign))
        | ElementType.Timer => Z.of_nat (size (Campaign.timers campaign))
        | ElementType.Event => Z.of_nat (size (Campaign.events campaign))
        | ElementType.MetaNote => Z.of_nat (length metaNoteResults)
        | ElementType.TableLookup => Z.of_nat (length tableLookupResults)
        | ElementType.Generator => Z.of_nat (length generatorResults)
        | ElementType.Reference =>
            Z.of_nat (size (Campaign.references campaign))
        end in
      λ ty,
        match ty with
        | ElementType.All =>
            counts ElementType.PC + counts ElementType.NPC +
            counts ElementType.Location + counts ElementType.Thread +
            counts ElementType.Clock + counts ElementType.Track +
            counts ElementType.Timer + counts ElementType.Event +
            counts ElementType.MetaNote + counts ElementType.TableLookup +
            counts ElementType.Generator + counts ElementType.Reference
        | _ => counts ty
        end
  end.

(** [wrapElements] *)
Definition wrapElements (rawElements : list CardData) (type : ElementType.t)
  : list ElementCardData.t :=
  (λ e, ElementCardData.mk type e) <$> rawElements.

(** *** The cards as JavaScript objects *)

(** Modelled from the spec: the properties of a [Location] ("file path,
    line number, owning session label, owning scene id"). *)
Definition locationValue (l : Location) : JSValue.t :=
  JSValue.obj
    [("file", JSValue.str (file l)); ("lineNumber", JSValue.num (lineNumber l));
     ("session", JSValue.str (session l)); ("scene", JSValue.str (scene l))].

(** Modelled from the spec: the properties of a [NotationElement], under
    the names that the card renderers and the test suite of
    [CodeBlockParser] read. *)
Definition elementValue (e : NotationElement) : JSValue.t :=
  JSValue.obj
    (("lineNumber", JSValue.num (Element.lineNumber e)) ::
     ("type", JSValue.str (typeName (Element.type e))) ::
     match Element.type e with
     | Element.action content => [("content", JSValue.str content)]
     | Element.oracle_question question =>
         [("question", JSValue.str question)]
     | Element.mechanics_roll roll outcome success =>
         [("roll", JSValue.str roll); ("outcome", JSValue.str outcome);
          ("success",
           match success with
           | Some b => JSValue.boolean b
           | None => JSValue.null
           end)]
     | Element.oracle_result answer roll =>
         ("answer", JSValue.str answer) ::
         match roll with
         | Some r => [("roll", JSValue.str r)]
         | None => []
         end
     | Element.consequence description =>
         [("description", JSValue.str description)]
     | Element.table_lookup roll result =>
         [("roll", JSValue.str roll); ("result", JSValue.str result)]
     | Element.generator system result =>
         [("system", JSValue.str system); ("result", JSValue.str result)]
     | Element.meta_note category content =>
         [("category", JSValue.str category);
          ("content", JSValue.str content)]
     | Element.text content => [("content", JSValue.str content)]
     end).

(** Modelled from the spec: the properties of the entities of a campaign
    ("{id, name, tags, firstMention, mentions}", "{id, name, state,
    firstMention, mentions}", "{id, name, current, total, locations}",
    "{id, name, value, locations}", "{id, name, type, firstMention,
    mentions}"); those of a [MetaNoteWithContext] and of a [RandomEvent]
    are the properties of the object literals of [getMetaNotes] and
    [getRandomEvents]. *)
Definition dataValue (d : CardData) : JSValue.t :=
  match d with
  | entity e =>
      JSValue.obj
        [("id", JSValue.str (Tagged.id e));
         ("name", JSValue.str (Tagged.name e));
         ("tags", JSValue.arr (JSValue.str <$> Tagged.tags e));
         ("firstMention", locationValue (Tagged.firstMention e));
         ("mentions", JSValue.arr (locationValue <$> Tagged.mentions e))]
  | thread t =>
      JSValue.obj
        [("id", JSValue.str (Thread.id t));
         ("name", JSValue.str (Thread.name t));
         ("state", JSValue.str (Thread.state t));
         ("firstMention", locationValue (Thread.firstMention t));
         ("mentions", JSValue.arr (locationValue <$> Thread.mentions t))]
  | progress p =>
      JSValue.obj
        [("id", JSValue.str (Progress.id p));
         ("name", JSValue.str (Progress.name p));
         ("current", JSValue.num (Progress.current p));
         ("total", JSValue.num (Progress.total p));
         ("locations", JSValue.arr (locationValue <$> Progress.locations p))]
  | timer t =>
      JSValue.obj
        [("id", JSValue.str (Timer.id t));
         ("name", JSValue.str (Timer.name t));
         ("value", JSValue.num (Timer.value t));
         ("locations", JSValue.arr (locationValue <$> Timer.locations t))]
  | metaNote n =>
      JSValue.obj
        [("note", elementValue (MetaNoteWithContext.note n));
         ("location", locationValue (MetaNoteWithContext.location n));
         ("session", JSValue.str (MetaNoteWithContext.session n));
         ("scene", JSValue.str (MetaNoteWithContext.scene n))]
  | randomEvent e =>
      JSValue.obj
        [("type", JSValue.str (RandomEvent.type e));
         ("data", elementValue (RandomEvent.data e));
         ("location", locationValue (RandomEvent.location e));
         ("eventType", JSValue.str (ElementType.name (RandomEvent.eventType e)));
         ("session", JSValue.str (RandomEvent.session e));
         ("scene", JSValue.str (RandomEvent.scene e))]
  | reference r =>
      JSValue.obj
        [("id", JSValue.str (Reference.id r));
         ("name", JSValue.str (Reference.name r));
         ("type", JSValue.str (refTypeName (Reference.type r)));
         ("firstMention", locationValue (Reference.firstMention r));
         ("mentions", JSValue.arr (locationValue <$> Reference.mentions r))]
  end.

(** The object literal [{ elementType, data }]. *)
Definition cardValue (card : ElementCardData.t) : JSValue.t :=
  JSValue.obj
    [("elementType",
      JSValue.str (ElementType.name (ElementCardData.elementType card)));
     ("data", dataValue (ElementCardData.data card))].

(** *** Search and order *)

(** [tags.some(tag => tag.toLowerCase().includes(query))] *)
Fixpoint someTag (tags : list JSValue.t) (query : string) : option bool :=
  match tags with
  | [] => Some false
  | tag :: rest =>
      s ← JSValue.asString tag;
      if JS.includes (JS.toLowerCase s) query then Some true
      else someTag rest query
  end.

(** [elementMatchesSearch] *)
Definition elementMatchesSearch (element : JSValue.t) (query : string)
  : option bool :=
  let name :=
    JSValue.or
      (JSValue.or
         (JSValue.or (JSValue.get element "name")
            (JSValue.and (JSValue.get element "note")
               (JSValue.get (JSValue.get element "note") "content")))
         (JSValue.and (JSValue.get element "data")
            (JSValue.get (JSValue.get element "data") "result")))
      (JSValue.str "") in
  let type := JSValue.or (JSValue.get element "type") (JSValue.str "") in
  let tags := JSValue.or (JSValue.get element "tags") (JSValue.arr []) in
  n ← JSValue.asString name;
  if JS.includes (JS.toLowerCase n) query then Some true else
  t ← JSValue.asString type;
  if JS.includes (JS.toLowerCase t) query then Some true else
  match tags with
  | JSValue.arr items => someTag items query
  | _ => None
  end.

(** [/Session (\d+)/] at the head of [l]: [parseInt] of the group. *)
Definition sessionLabelAt (l : list ascii) : option Z :=
  match Pattern.literalAt (JS.chars "Session ") l with
  | Some rest =>
      let '(ds, _) := JS.span JS.isDigit rest in
      match ds with
      | [] => None
      | _ :: _ => Some (JS.parseDigits ds)
      end
  | None => None
  end.

(** [s.match(/Session (\d+)/)]: the leftmost match. *)
Fixpoint sessionLabel (l : list ascii) : option Z :=
  match sessionLabelAt l with
  | Some n => Some n
  | None =>
      match l with
      | [] => None
      | _ :: l' => sessionLabel l'
      end
  end.

(** The test [if (v) { const match = v.match(/Session (\d+)/); if (match)
    return -parseInt(match[1]); }]: the number returned, if any. *)
Definition lastSeen (v : JSValue.t) : option (option Z) :=
  if JSValue.truthy v then
    s ← JSValue.asString v; Some (Z.opp <$> sessionLabel (JS.chars s))
  else Some None.

(** The function [getTimestamp] of [sortByLastSeen]. *)
Definition getTimestamp (element : JSValue.t) : option Z :=
  bySession ← lastSeen (JSValue.get element "session");
  match bySession with
  | Some n => Some n
  | None =>
      byMention ←
        match JSValue.get element "mentions" with
        | JSValue.arr items =>
            match last items with
            | Some lastMention =>
                match lastMention with
                | JSValue.undefined | JSValue.null => None
                | _ => lastSeen (JSValue.get lastMention "session")
                end
            | None => Some None
            end
        | v => if JSValue.truthy v then None else Some None
        end;
      match byMention with
      | Some n => Some n
      | None =>
          match JSValue.get element "locations" with
          | JSValue.arr items =>
              Some (match items with
                    | [] => 0
                    | _ :: _ => - Z.of_nat (length items)
                    end)
          | v => if JSValue.truthy v then None else Some 0
          end
      end
  end.

(** [sortByLastSeen] *)
Definition sortByLastSeen (a b : JSValue.t) : option Z :=
  ta ← getTimestamp a; tb ← getTimestamp b; Some (ta - tb).

(** A stable sort by timestamp, by insertion: what [elements.sort((a, b)
    => this.sortByLastSeen(a, b))] yields, the comparator being the
    difference of two timestamps. *)
Fixpoint insertCard (x : Z * ElementCardData.t)
    (sorted : list (Z * ElementCardData.t)) : list (Z * ElementCardData.t) :=
  match sorted with
  | [] => [x]
  | y :: rest =>
      if decide (x.1 ≤ y.1) then x :: sorted else y :: insertCard x rest
  end.

(** The sorted array; the comparator is not called on an array of fewer
    than two cards. *)
Definition sortElements (elements : list ElementCardData.t)
  : option (list ElementCardData.t) :=
  match elements with
  | [] | [_] => Some elements
  | _ =>
      keyed ← mapM (λ e, (λ k, (k, e)) <$> getTimestamp (cardValue e))
                elements;
      Some ((foldr insertCard [] keyed).*2)
  end.

(** [elements.filter(e => this.elementMatchesSearch(e, query))] *)
Fixpoint filterElements (query : string) (elements : list ElementCardData.t)
  : option (list ElementCardData.t) :=
  match elements with
  | [] => Some []
  | e :: rest =>
      keep ← elementMatchesSearch (cardValue e) query;
      kept ← filterElements query rest;
      Some (if keep : bool then e :: kept else kept)
  end.

(** [getAllElements] *)
Definition getAllElements (currentElementType : ElementType.t)
    (selectedCampaign : option Campaign.t)
  : option (list ElementCardData.t) :=
  match selectedCampaign with
  | None => Some []
  | Some campaign =>
      sortElements
        (((λ e, ElementCardData.mk ElementType.PC (entity e)) <$>
            values (Campaign.playerCharacters campaign)) ++
         ((λ e, ElementCardData.mk ElementType.NPC (entity e)) <$>
            values (Campaign.npcs campaign)) ++
         ((λ e, ElementCardData.mk ElementType.Location (entity e)) <$>
            values (Campaign.locations campaign)) ++
         ((λ e, ElementCardData.mk ElementType.Thread (thread e)) <$>
            values (Campaign.threads campaign)) ++
         ((λ e, ElementCardData.mk ElementType.Clock (progress e)) <$>
            values (Campaign.clocks campaign)) ++
         ((λ e, ElementCardData.mk ElementType.Track (progress e)) <$>
            values (Campaign.tracks campaign)) ++
         ((λ e, ElementCardData.mk ElementType.Timer (timer e)) <$>
            values (Campaign.timers campaign)) ++
         ((λ e, ElementCardData.mk ElementType.Event (progress e)) <$>
            values (Campaign.events campaign)) ++
         ((λ e, ElementCardData.mk ElementType.Reference (reference e)) <$>
            values (Campaign.references campaign)) ++
         ((λ e, ElementCardData.mk ElementType.MetaNote (metaNote e)) <$>
            getMetaNotes selectedCampaign) ++
         ((λ e, ElementCardData.mk (RandomEvent.eventType e)
                  (randomEvent e)) <$>
            getRandomEvents currentElementType selectedCampaign))
  end.

(** The [switch] of [getFilteredElements]: the raw elements of a chip;
    [None] for the chip 'All', which returns at once. *)
Definition rawElementsOf (currentElementType : ElementType.t)
    (campaign : Campaign.t) : option (list CardData) :=
  match currentElementType with
  | ElementType.PC =>
      Some (entity <$> values (Campaign.playerCharacters campaign))
  | ElementType.NPC => Some (entity <$> values (Campaign.npcs campaign))
  | ElementType.Location =>
      Some (entity <$> values (Campaign.locations campaign))
  | ElementType.Thread => Some (thread <$> values (Campaign.threads campaign))
  | ElementType.Clock => Some (progress <$> values (Campaign.clocks campaign))
  | ElementType.Track => Some (progress <$> values (Campaign.tracks campaign))
  | ElementType.Timer => Some (timer <$> values (Campaign.timers campaign))
  | ElementType.Event => Some (progress <$> values (Campaign.events campaign))
  | ElementType.MetaNote => Some (metaNote <$> getMetaNotes (Some campaign))
  | ElementType.TableLookup | ElementType.Generator =>
      Some (randomEvent <$>
              getRandomEvents currentElementType (Some campaign))
  | ElementType.Reference =>
      Some (reference <$> values (Campaign.references campaign))
  | ElementType.All => None
  end.

(** [getFilteredElements] *)
Definition getFilteredElements (currentElementType : ElementType.t)
    (searchQuery : string) (selectedCampaign : option Campaign.t)
  : option (list ElementCardData.t) :=
  match selectedCampaign with
  | None => Some []
  | Some campaign =>
      match rawElementsOf currentElementType campaign with
      | None => getAllElements currentElementType selectedCampaign
      | Some rawElements =>
          let elements := wrapElements rawElements currentElementType in
          if decide (searchQuery ≠ "") then
            filterElements (JS.toLowerCase searchQuery) elements
          else sortElements elements
      end
  end.

End DashboardView.

(** ** Notions used to state the properties *)

(** A tag is plain when it neither asks for a removal nor carries a key. *)
Definition plainTag (t : string) : Prop :=
  JS.startsWith t "-" = false ∧ "="%char ∉ JS.chars t.

(** The canonical thread that an ordered, non-empty run of mentions of one
    key folds into: the first mention, with the state of the last one and
    the locations of all of them. *)
Definition threadOfMentions (first : Thread.t) (rest : list Thread.t)
  : Thread.t :=
  Thread.mk (Thread.id first) (Thread.name first)
    (Thread.state (List.last rest first))
    (Thread.firstMention first)
    (concat (Thread.mentions <$> first :: rest)).

(** The order that the comparator [(a, b) => a.number - b.number] sorts
    by. *)
Definition byNumber (a b : Session.t) : Prop :=
  Session.number a ≤ Session.number b.

(** The texts that [collectAllTags] hands to the extractor, in scan order,
    each with the [Location] built for its element: those of the elements
    that are not meta notes and whose text is not empty. *)
Definition scanned (filePath : string) (sessions : list Session.t)
  : list (Location * string) :=
  session ← sessions;
  scene ← Session.scenes session;
  element ← Scene.elements scene;
  match NotationParser.contentToScan element with
  | Some content =>
      if decide (content = "") then []
      else [(mkLocation filePath (Element.lineNumber element)
               ("Session " +:+ pretty (Session.number session))
               (Scene.number scene), content)]
  | None => []
  end.

(** What one scanned text adds to the lists of [collectAllTags]. *)
Definition collectScan `{!TagExtractor} (acc : NotationParser.AllTags.t)
    (scan : Location * string) : NotationParser.AllTags.t :=
  foldl (NotationParser.pushReference scan.1)
    (NotationParser.AllTags.mk
       (NotationParser.appendTags (NotationParser.AllTags.tags acc)
          (extractTags scan.2 scan.1))
       (NotationParser.AllTags.references acc))
    (extractReferences scan.2).

(** A scanned text in which the extractor finds nothing. *)
Definition silent `{!TagExtractor} (scan : Location * string) : Prop :=
  extractTags scan.2 scan.1 = Tags.empty ∧ extractReferences scan.2 = [].

(** A field of a notation line as it is written: not empty, without
    surrounding white space and on one line. *)
Definition field (s : string) : Prop :=
  s ≠ "" ∧ JS.trim s = s ∧ JS.newline ∉ JS.chars s.

(** Whether an outcome holds one of the given keywords, whatever the case
    of its letters. *)
Definition holdsKeyword (outcome : string) (keywords : list string) : Prop :=
  Exists (λ k, JS.includes (JS.toLowerCase outcome) k = true) keywords.

(** The text of a bracketed tag of the given kind and body. *)
Definition tagText (kind body : string) : string :=
  "[" +:+ kind +:+ ":" +:+ body +:+ "]".

(** The characters of a tag after its opening bracket. *)
Definition tagInner (kind body : string) : list ascii :=
  JS.chars kind ++ ":"%char :: JS.chars body ++ ["]"%char].

(** A text that is empty after trimming. *)
Definition blank (s : string) : Prop := JS.trim s = "".

(** A non-empty run of decimal digits. *)
Definition digits (s : string) : Prop :=
  s ≠ "" ∧ Forall (λ c, JS.isDigit c = true) (JS.chars s).

(** What stands between an empty name and the numeric suffix of a tag:
    nothing (the white space before it belongs to the name), or a '|'
    and white space. *)
Definition separator (sep : string) : Prop :=
  sep = "" ∨ ∃ ws, blank ws ∧ sep = "|" +:+ ws.

(** The bodies of the tags of a kind whose name part is empty after
    trimming, in the forms of section 4.2 of the specification: nothing
    but white space ([N:], [Clock: ]); white space and then a list of
    tags or a state ([N:|hostile], [Thread: |Open]); white space and then
    the numeric suffix of a progress kind ([Clock:|3/6], [E: | 1/4 ],
    [Track: 2/4]); and white space and then the value of a timer
    ([Timer:|5], [Timer: 5]). *)
Inductive nameless : string → string → Prop :=
  | nameless_blank kind ws :
      blank ws → nameless kind ws
  | nameless_tags kind ws more :
      kind ∈ ["N"; "L"; "PC"; "Thread"] → blank ws →
      nameless kind (ws +:+ "|" +:+ more)
  | nameless_progress kind ws sep current total ws' :
      kind ∈ ["Clock"; "Track"; "E"] → blank ws → separator sep →
      digits current → digits total → blank ws' →
      nameless kind (ws +:+ (sep +:+ current +:+ "/" +:+ total) +:+ ws')
  | nameless_timer ws sep value ws' :
      blank ws → separator sep → digits value → blank ws' →
      nameless "Timer" (ws +:+ (sep +:+ value) +:+ ws').

(** A text in which every opening bracket is followed, further on, by a
    closing one: no tag is left open at its end. *)
Fixpoint closedChars (l : list ascii) : Prop :=
  match l with
  | [] => True
  | c :: l' => (c = "["%char → "]"%char ∈ l') ∧ closedChars l'
  end.

(** The same for a text given as a string. *)
Definition closed (s : string) : Prop := closedChars (JS.chars s).

(** A line that opens or closes a code block in [parseSceneContent]. *)
Definition isFence (line : string) : Prop := JS.trim line = "```".

(** Whether the scan of [parseSceneContent] is inside a code block after
    the lines [ls], when it was ([inCodeBlock]) before them. *)
Fixpoint insideBlock (inCodeBlock : bool) (ls : list string) : bool :=
  match ls with
  | [] => inCodeBlock
  | line :: rest =>
      insideBlock
        (if decide (isFence line) then negb inCodeBlock else inCodeBlock) rest
  end.

(** The canonical record that an ordered, non-empty run of mentions of one
    key folds into: the first mention, with the tags of the later ones
    folded in and the locations of all of them. *)
Definition taggedOfMentions (first : Tagged.t) (rest : list Tagged.t)
  : Tagged.t :=
  Tagged.mk (Tagged.id first) (Tagged.name first)
    (foldl (λ ts m, foldl NotationParser.applyTag ts (Tagged.tags m))
       (Tagged.tags first) rest)
    (Tagged.firstMention first)
    (concat (Tagged.mentions <$> first :: rest)).

(** Sample mentions, vaults and documents. *)
Module Sample.
(** The location that the test suite of [TagExtractor] passes. *)
Definition mockLocation : Location :=
  mkLocation "test.md" 10 "Session 1" "S1".
(** A location on line [n] of scene S1 of session 1. *)
Definition at_line (n : Z) : Location :=
  mkLocation "campaign.md" n "Session 1" "S1".
(** The mention of an NPC tag met on line [n]. *)
Definition npcMention (name : string) (tags : list string) (n : Z) : NPC :=
  Tagged.mk ("npc:" +:+ JS.toLowerCase name) name tags (at_line n)
    [at_line n].
(** The mention of a thread tag met on line [n]. *)
Definition threadMention (name state : string) (n : Z) : Thread.t :=
  Thread.mk ("thread:" +:+ JS.toLowerCase name) name state (at_line n)
    [at_line n].

(** A vault that holds one note, found by the link [name] and stored
    under the path [name ++ ".md"]. *)
Definition vault (name content : string) : App :=
  mkApp
    (λ linkpath _,
       if decide (linkpath = name) then Some (name +:+ ".md") else None)
    (λ path,
       if decide (path = name +:+ ".md") then Some (TFile path) else None)
    (λ path, if decide (path = name +:+ ".md") then Some content else None).

(** The content of a session note. *)
Definition sessionNote : string :=
"*Date: 2024-01-15 | Duration: 2h*
### S1
The party enters the haunted forest.".

(** An inline "Session 2" heading followed by a link to "Session 1". *)
Definition inlineThenLink : string :=
"# Campaign
## Session 2
### S1
[[Session 1]]".

(** A link to "Session 2" followed by an inline "Session 1" heading. *)
Definition linkThenInline : string :=
"# Campaign
[[Session 2]]
## Session 1
### S1".

(** A campaign whose only tag is a back-reference. *)
Definition referenceOnly : string :=
"## Session 1
### S1
```
> Someone is watching
[#N:Shadow]
```".

(** A campaign that refers to one NPC with two spellings. *)
Definition twoSpellings : string :=
"## Session 1
### S1
```
[#N:Grim]
[#N:grim]
```".

(** The sample campaign that accompanies the test suite: front matter,
    two sessions and four scenes. *)
Definition fixture : string :=
"---
title: Synthetic Test Campaign
genre: Fantasy
ruleset: Ironsworn
---

# Test Campaign

## Session 1
*Date: 2024-01-15 | Duration: 2h*

### S1
```
> The party enters the haunted forest
[N:Grim|friendly][L:Dark Woods]

? Is there danger ahead?

d: 2d10 => Strong hit (8, 7)

? What do I see?

-> A glowing mist swirls between ancient trees

[Thread:Discover the source|Open]
[Clock:Forest Ritual 3/6]
[Track:Explore the Woods 2/4]
[Timer:Escape Timer 5]
[E:Moon Phase 1/8]

[PC:Elara|warrior|brave]

> The group decides to investigate the mist
[#N:Grim]

(note: Remember to track supply)

=> Find an ancient shrine at the center

tbl: 1d100 => 45: A crumbling stone altar

gen: Mythic Name Generator 2d6 => Shadowfen

(reflection: This encounter is going well)

> Touch the altar

d: 1d20 => Critical success! (20)

The altar pulses with energy!
```

### S2
```
[N:Shadow|hostile]
[L:Forgotten Shrine]

? Is the shadow hostile?

-> Yes, it attacks without warning

=> The shadow drains life from the party

[Clock:Forest Ritual|4/6]

(reminder: Check for allies)

? Can we escape?

d: 2d6 => Weak hit (3, 5)

> Run toward the clearing

```

## Session 2
*Date: 2024-01-16 | Duration: 1.5h*

### T1-S1
```
The party rests in the clearing
[#L:Dark Woods]
```

### S3
```
[Thread:Discover the source|Closed]
[Track:Explore the Woods|3/4]
[Timer:Escape Timer|3]

[PC:Thorne|mage|wise]

> Prepare a protective ward
```".

(** A one-scene campaign whose code block holds the given lines. *)
Definition oneScene (block : string) : string :=
  "## Session 1" +:+ String JS.newline "### S1" +:+
  String JS.newline "```" +:+ String JS.newline block +:+
  String JS.newline "```".

(** A scene whose second code block is never closed. *)
Definition unterminated : string :=
"```
> Enter the cave
```
Some prose.
```
> Light a torch
[N:Grim|friendly]".
End Sample.

(** The canonical reference that an ordered, non-empty run of mentions of
    one key folds into: the first mention, with the locations of all of
    them. *)
Definition referenceOfMentions (first : Reference.t) (rest : list Reference.t)
  : Reference.t :=
  Reference.mk (Reference.id first) (Reference.name first)
    (Reference.type first) (Reference.firstMention first)
    (concat (Reference.mentions <$> first :: rest)).

(** A line that [parseScenes] takes for a scene heading. *)
Definition isSceneHeader (line : string) : Prop :=
  is_Some (NotationParser.matchSceneHeader line).

(** A line that [parseSessions] takes for a session heading. *)
Definition isSessionHeader (line : string) : Prop :=
  is_Some (NotationParser.matchSessionHeader line).

(** What may follow the body of a scene or of a session: the end of the
    text, or the next heading. *)
Definition endsBody (isHeader : string → Prop) (rest : list string) : Prop :=
  match rest with
  | [] => True
  | line :: _ => isHeader line
  end.

(** The number of lines of a list, as a line offset. *)
Definition count (ls : list string) : Z := Z.of_nat (length ls).

(** Line ranges that follow one another without gap or overlap, from the
    line [from] to the line [to], none of them empty. *)
Fixpoint contiguous (from : Z) (ranges : list (Z * Z)) (to : Z) : Prop :=
  match ranges with
  | [] => from = to + 1
  | (a, b) :: rest => a = from ∧ a ≤ b ∧ contiguous (b + 1) rest to
  end.

(** The lines a scene spans. *)
Definition sceneRange (scene : Scene.t) : Z * Z :=
  (Scene.startLine scene, Scene.endLine scene).

(** A line that holds no wikilink. *)
Definition linkFree (line : string) : Prop :=
  NotationParser.wikilinks 0 (JS.chars line) = [].

(** A host application in which no session link can be followed: links
    are not resolved, or the vault holds no file, or no file can be
    read. *)
Definition unreachable (a : App) : Prop :=
  (∀ linkpath basePath, getFirstLinkpathDest a linkpath basePath = None) ∨
  (∀ path, getAbstractFileByPath a path = None) ∨
  (∀ path, read a path = None).

(** The inline session that [parseSessions] builds for a heading with the
    given number on line [startLine], followed by the lines [body] and
    then by [rest]. *)
Definition inlineSession `{!CodeBlockParser} (filePath : string)
    (number startLine : Z) (body rest : list string) : Session.t :=
  let metadata := NotationParser.parseSessionMetadata (hd "" (body ++ rest)) in
  Session.mk number (metadata !! "Date") (metadata !! "Duration")
    (metadata !! "Recap") (metadata !! "Goals")
    (NotationParser.parseScenes (NotationParser.unlines body) filePath
       startLine)
    startLine (startLine + count body) metadata None.

(** A session whose metadata holds no empty key, and an empty value only
    under "Recap" or "Goals" of a session read from a linked note. *)
Definition metadataFilled (session : Session.t) : Prop :=
  ∀ key value,
    Session.metadata session !! key = Some value →
    key ≠ "" ∧
    (value = "" →
     is_Some (Session.linkedFile session) ∧ (key = "Recap" ∨ key = "Goals")).

(** A text that holds none of the given characters. *)
Definition without (cs : list ascii) (s : string) : Prop :=
  Forall (λ c, c ∉ cs) (JS.chars s).

(** A host application with an empty vault. *)
Definition emptyVault : App := mkApp (λ _ _, None) (λ _, None) (λ _, None).

(** The reference record that [collectAllTags] builds for a
    back-reference found at a location. *)
Definition referenceAt (location : Location) (ref : RefTag.t) : Reference.t :=
  Reference.mk (RefTag.name ref) (RefTag.name ref) (RefTag.type ref)
    location [location].

(** The tag-less NPC that [collectAllTags] builds for a back-reference to
    an NPC; none for a back-reference to a location. *)
Definition npcAt (location : Location) (ref : RefTag.t) : option NPC :=
  match RefTag.type ref with
  | RefNpc =>
      Some (Tagged.mk ("npc:" +:+ JS.toLowerCase (RefTag.name ref))
              (RefTag.name ref) [] location [location])
  | RefLocation => None
  end.

(** The same for a back-reference to a location. *)
Definition locationAt (location : Location) (ref : RefTag.t)
  : option LocationTag :=
  match RefTag.type ref with
  | RefLocation =>
      Some (Tagged.mk ("location:" +:+ JS.toLowerCase (RefTag.name ref))
              (RefTag.name ref) [] location [location])
  | RefNpc => None
  end.

(** Whether an element is a meta note. *)
Definition isMetaNote (element : NotationElement) : bool :=
  match Element.type element with
  | Element.meta_note _ _ => true
  | _ => false
  end.

(** The sessions without their meta notes. *)
Definition withoutMetaNotes (sessions : list Session.t) : list Session.t :=
  (λ session,
     Session.mk (Session.number session) (Session.date session)
       (Session.duration session) (Session.recap session)
       (Session.goals session)
       ((λ scene,
           Scene.mk (Scene.id scene) (Scene.number scene)
             (Scene.context scene) (Scene.startLine scene)
             (Scene.endLine scene)
             (filter (λ e, isMetaNote e = false) (Scene.elements scene)))
          <$> Session.scenes session)
       (Session.startLine session) (Session.endLine session)
       (Session.metadata session) (Session.linkedFile session))
    <$> sessions.

(** The note of session 2, in which a back-reference is written. *)
Definition noteWithReference : string :=
"### S1
```
[#N:Shadow]
```".

(** A campaign that links to the note of session 2. *)
Definition linkedCampaign : string :=
"# Campaign
[[Session 2]]".

(** A line that cannot start a title: it does not begin with '#', or its
    '#' is followed by a character other than white space. *)
Definition noTitleLine (line : string) : Prop :=
  match JS.chars line with
  | "#"%char :: c :: _ => JS.isSpace c = false
  | "#"%char :: [] => False
  | _ => True
  end.

(** A text that ends a line: empty, or ending with a line feed. *)
Definition endsLine (s : string) : Prop :=
  s = "" ∨ last (JS.chars s) = Some JS.newline.

(** A text that starts a new line: empty, or starting with a line feed. *)
Definition startsLine (s : string) : Prop :=
  s = "" ∨ head (JS.chars s) = Some JS.newline.

(** * Properties of the embedding *)

(** ** Agreement of the modelled collaborators with the test suites

    The expectations of [tests/parser/TagExtractor.test.ts] and
    [tests/parser/CodeBlockParser.test.ts], evaluated on the models. *)
Section TestSuites.
Import TagExtractorModel CodeBlockParserModel.

Local Abbreviation mockLocation := Sample.mockLocation.

Example test_extractNPCs :
  (λ r, (Tagged.name r, Tagged.id r, Tagged.tags r))
    <$> extractNPCs "[N:Grim]" mockLocation = [("Grim", "npc:grim", [])] ∧
  Tagged.tags <$> extractNPCs "[N:Grim|friendly|helpful]" mockLocation =
    [["friendly"; "helpful"]] ∧
  Tagged.name <$> extractNPCs "[N:Grim] [N:Shadow|hostile]" mockLocation =
    ["Grim"; "Shadow"].
Proof. repeat split. Qed.

Example test_extractLocations :
  (λ r, (Tagged.name r, Tagged.id r))
    <$> extractLocations "[L:Dark Woods]" mockLocation =
    [("Dark Woods", "location:dark woods")] ∧
  Tagged.tags
    <$> extractLocations "[L:Forgotten Shrine|dangerous|magical]" mockLocation =
    [["dangerous"; "magical"]].
Proof. repeat split. Qed.

Example test_extractThreads :
  (λ r, (Thread.name r, Thread.state r, Thread.id r))
    <$> extractThreads "[Thread:Discover the source|Open]" mockLocation =
    [("Discover the source", "Open", "thread:discover the source")] ∧
  Thread.state
    <$> extractThreads "[Thread:Quest 1|Open] [Thread:Quest 2|Closed]"
          mockLocation = ["Open"; "Closed"].
Proof. repeat split. Qed.

Example test_extractProgress :
  (λ r, (Progress.name r, Progress.current r, Progress.total r, Progress.id r))
    <$> extractClocks "[Clock:Forest Ritual 3/6]" mockLocation =
    [("Forest Ritual", 3, 6, "clock:forest ritual")] ∧
  (λ r, (Progress.name r, Progress.current r, Progress.total r))
    <$> extractTracks "[Track:Explore the Woods 2/4]" mockLocation =
    [("Explore the Woods", 2, 4)] ∧
  (λ r, (Timer.name r, Timer.value r))
    <$> extractTimers "[Timer:Escape Timer 5]" mockLocation =
    [("Escape Timer", 5)] ∧
  (λ r, (Progress.name r, Progress.current r, Progress.total r))
    <$> extractEvents "[E:Moon Phase 1/8]" mockLocation =
    [("Moon Phase", 1, 8)] ∧
  (λ r, (Progress.current r, Progress.total r))
    <$> extractClocks "[Clock:Forest Ritual|4/6]" mockLocation = [(4, 6)].
Proof. repeat split. Qed.

Example test_extractPlayerCharacters :
  (λ r, (Tagged.name r, Tagged.id r, Tagged.tags r))
    <$> extractPlayerCharacters "[PC:Elara|warrior|brave]" mockLocation =
    [("Elara", "pc:elara", ["warrior"; "brave"])].
Proof. reflexivity. Qed.

Example test_extractTags :
  let result :=
    extractTags "[N:Grim|friendly]
[L:Dark Woods]
[Thread:Discover the source|Open]
[Clock:Forest Ritual 3/6]
[Track:Explore the Woods 2/4]
[Timer:Escape Timer 5]
[E:Moon Phase 1/8]
[PC:Elara|warrior|brave]" mockLocation in
  (length (Tags.npcs result), length (Tags.locations result),
   length (Tags.threads result), length (Tags.clocks result),
   length (Tags.tracks result), length (Tags.timers result),
   length (Tags.events result), length (Tags.playerCharacters result)) =
  (1, 1, 1, 1, 1, 1, 1, 1)%nat.
Proof. reflexivity. Qed.

Example test_extractReferences :
  extractReferences "[#N:Grim]" = [RefTag.mk RefNpc "Grim"] ∧
  extractReferences "[#L:Dark Woods]" = [RefTag.mk RefLocation "Dark Woods"] ∧
  length (extractReferences "[#N:Grim] [#L:Dark Woods] [#N:Shadow]") = 3%nat ∧
  extractReferences "Just regular text" = [] ∧
  extractReferences "[N:Grim]" = [].
Proof. repeat split. Qed.

Example test_extractTags_edge_cases :
  extractTags "" mockLocation = Tags.empty ∧
  extractTags "[N:] [L:] [Thread:]" mockLocation = Tags.empty ∧
  (λ r, (Tagged.name r, Tagged.tags r))
    <$> Tags.npcs (extractTags "[N:  Grim  |  friendly  ]" mockLocation) =
    [("Grim", ["friendly"])].
Proof. repeat split. Qed.

Example test_parseCodeBlock :
  parseCodeBlock "> The hero draws their sword" 10 =
    [Element.mk 10 (Element.action "The hero draws their sword")] ∧
  parseCodeBlock "? Is there danger ahead?" 5 =
    [Element.mk 5 (Element.oracle_question "Is there danger ahead?")] ∧
  parseCodeBlock "d: 2d10 => Strong hit" 0 =
    [Element.mk 0 (Element.mechanics_roll "2d10" "Strong hit" (Some true))] ∧
  parseCodeBlock "-> Yes, it attacks without warning" 3 =
    [Element.mk 3
       (Element.oracle_result "Yes, it attacks without warning" None)] ∧
  parseCodeBlock "-> (1d100: 45) A glowing mist swirls" 7 =
    [Element.mk 7
       (Element.oracle_result "A glowing mist swirls" (Some "1d100: 45"))] ∧
  parseCodeBlock "=> The shadow drains life from the party" 2 =
    [Element.mk 2
       (Element.consequence "The shadow drains life from the party")] ∧
  parseCodeBlock "tbl: 1d100 => 45: A crumbling stone altar" 4 =
    [Element.mk 4
       (Element.table_lookup "1d100" "45: A crumbling stone altar")] ∧
  parseCodeBlock "gen: Mythic Name Generator 2d6 => Shadowfen" 6 =
    [Element.mk 6
       (Element.generator "Mythic Name Generator 2d6" "Shadowfen")] ∧
  parseCodeBlock "(note: Remember to track supply)" 8 =
    [Element.mk 8 (Element.meta_note "note" "Remember to track supply")] ∧
  parseCodeBlock "The party continues their journey" 1 =
    [Element.mk 1 (Element.text "The party continues their journey")] ∧
  parseCodeBlock "(not a meta note)" 0 =
    [Element.mk 0 (Element.text "(not a meta note)")].
Proof. repeat split. Qed.

Example test_parseCodeBlock_lines :
  Element.lineNumber <$> parseCodeBlock "> Line 1
? Line 2
d: Line 3" 100 = [100; 101; 102] ∧
  length (parseCodeBlock "> First action

> Second action" 0) = 2%nat ∧
  parseCodeBlock "" 0 = [] ∧
  parseCodeBlock "   
  
  " 0 = [].
Proof. repeat split. Qed.

Example test_success_determination :
  determineSuccess "Success" = Some true ∧
  determineSuccess "Failed" = Some false ∧
  determineSuccess "Strong hit" = Some true ∧
  determineSuccess "Miss" = Some false ∧
  determineSuccess "5" = None.
Proof. repeat split. Qed.

(** The end-to-end scenario: the fixture campaign, parsed without a host
    application. *)
Example test_campaign_fixture :
  let campaign :=
    NotationParser.parseCampaignFile None Sample.fixture "test-campaign.md" in
  Session.number <$> NotationParser.Campaign.sessions campaign = [1; 2] ∧
  (λ s, Scene.id <$> Session.scenes s)
    <$> NotationParser.Campaign.sessions campaign =
    [["S1"; "S2"]; ["T1-S1"; "S3"]] ∧
  (λ r, (Tagged.tags r, length (Tagged.mentions r)))
    <$> NotationParser.Campaign.npcs campaign !! "npc:grim" =
    Some (["friendly"], 2%nat) ∧
  (λ r, (Progress.current r, Progress.total r))
    <$> NotationParser.Campaign.clocks campaign !! "clock:forest ritual" =
    Some (4, 6) ∧
  (λ r, (Thread.state r, length (Thread.mentions r)))
    <$> NotationParser.Campaign.threads campaign
          !! "thread:discover the source" = Some ("Closed", 2%nat) ∧
  Timer.value
    <$> NotationParser.Campaign.timers campaign !! "timer:escape timer" =
    Some 3.
Proof. vm_compute. repeat split. Qed.

(** The scenarios of section 8 of the specification, run through the
    whole pipeline. *)
Example test_scenarios :
  let parse block :=
    NotationParser.parseCampaignFile None (Sample.oneScene block)
      "campaign.md" in
  (λ r, (Tagged.tags r, length (Tagged.mentions r)))
    <$> NotationParser.Campaign.npcs (parse "[N:Grim|friendly|armed]")
          !! "npc:grim" = Some (["friendly"; "armed"], 1%nat) ∧
  (λ r, (Tagged.tags r, length (Tagged.mentions r)))
    <$> NotationParser.Campaign.npcs
          (parse "[N:Grim|friendly]
[N:Grim|friendly]") !! "npc:grim" = Some (["friendly"], 2%nat) ∧
  Tagged.tags
    <$> NotationParser.Campaign.npcs
          (parse "[N:Jonah|friendly]
[N:Jonah|-friendly|captured]") !! "npc:jonah" = Some ["captured"] ∧
  (λ r, (Thread.state r, length (Thread.mentions r)))
    <$> NotationParser.Campaign.threads
          (parse "[Thread:X|Open]
[Thread:X|Closed]") !! "thread:x" = Some ("Closed", 2%nat) ∧
  (λ r, (Progress.current r, Progress.total r))
    <$> NotationParser.Campaign.clocks
          (parse "[Clock:Ritual 3/6]
[Clock:Ritual|4/6]") !! "clock:ritual" = Some (4, 6) ∧
  (λ r, (Tagged.tags r, length (Tagged.mentions r)))
    <$> NotationParser.Campaign.npcs (parse "[#N:Shadow]")
          !! "npc:shadow" = Some ([], 1%nat).
Proof. vm_compute. repeat split. Qed.

End TestSuites.


(** ** Facts about the string primitives *)
Section JSFacts.

Lemma chars_ofChars l : JS.chars (JS.ofChars l) = l.
Proof. induction l as [|c l IH]; simpl; [done|by rewrite IH]. Qed.

Lemma ofChars_chars s : JS.ofChars (JS.chars s) = s.
Proof. induction s as [|c s IH]; simpl; [done|by rewrite IH]. Qed.

Lemma indexOf_None s c : JS.indexOf s c = None ↔ c ∉ JS.chars s.
Proof.
  induction s as [|d s IH]; simpl.
  - split; [intros _; apply not_elem_of_nil|done].
  - rewrite not_elem_of_cons. case_decide as Hd.
    + split; [done|]. intros [Hne _]. by subst.
    + destruct (JS.indexOf s c) eqn:E; simpl.
      * split; [done|]. intros [_ Hn]. by apply IH in Hn.
      * split; [|done]. intros _. split; [congruence|]. by apply IH.
Qed.

Lemma indexOf_Some_lt s c i :
  JS.indexOf s c = Some i → (i < String.length s)%nat.
Proof.
  revert i. induction s as [|d s IH]; simpl; intros i; [done|].
  case_decide.
  - intros [= <-]. lia.
  - destruct (JS.indexOf s c) as [j|]; simpl; [|done].
    intros [= <-]. specialize (IH j eq_refl). lia.
Qed.

Lemma length_sliceTo s n :
  (n ≤ String.length s)%nat → String.length (JS.sliceTo s n) = n.
Proof.
  revert n. induction s as [|d s IH]; intros [|n]; simpl; try done; try lia.
  intros Hn. rewrite IH; [done|lia].
Qed.

End JSFacts.

(** ** The merge engine *)
Section MergeFacts.
Import NotationParser.

Lemma getTagKey_plain t : "="%char ∉ JS.chars t → getTagKey t = t.
Proof.
  intros Hn. unfold getTagKey.
  by apply indexOf_None in Hn as ->.
Qed.

Lemma getTagKey_keyed t : "="%char ∈ JS.chars t → getTagKey t ≠ t.
Proof.
  intros Hin. unfold getTagKey.
  destruct (JS.indexOf t "="%char) as [i|] eqn:E.
  - intros Heq. apply indexOf_Some_lt in E as Hlt.
    apply (f_equal String.length) in Heq.
    rewrite length_sliceTo in Heq; lia.
  - apply indexOf_None in E. done.
Qed.

Lemma applyTag_remove ts t :
  JS.startsWith t "-" = true →
  applyTag ts t = filter (λ u, u ≠ JS.sliceFrom t 1) ts.
Proof. intros H. unfold applyTag. by rewrite H. Qed.

Lemma applyTag_keyed ts t :
  JS.startsWith t "-" = false → "="%char ∈ JS.chars t →
  applyTag ts t = filter (λ u, getTagKey u ≠ getTagKey t) ts ++ [t].
Proof.
  intros H Hin. unfold applyTag. rewrite H. cbv zeta.
  pose proof (getTagKey_keyed t Hin) as Hk.
  destruct (decide (getTagKey t ≠ t)); [|done].
  rewrite decide_False; [done|].
  rewrite list_elem_of_filter. by intros [Hne _].
Qed.

Lemma applyTag_plain ts t :
  JS.startsWith t "-" = false → "="%char ∉ JS.chars t →
  applyTag ts t = if decide (t ∈ ts) then ts else ts ++ [t].
Proof.
  intros H Hn. unfold applyTag. rewrite H. cbv zeta.
  rewrite (getTagKey_plain t Hn).
  by destruct (decide (t ≠ t)).
Qed.

Lemma applyTag_NoDup ts t : NoDup ts → NoDup (applyTag ts t).
Proof.
  intros Hnd. unfold applyTag.
  destruct (JS.startsWith t "-"); [by apply NoDup_filter|]. cbv zeta.
  set (kept := if decide (getTagKey t ≠ t) then _ else _).
  assert (NoDup kept) as Hk.
  { unfold kept. case_decide; [by apply NoDup_filter|done]. }
  case_decide as Hin; [done|].
  apply NoDup_app. split_and!; [done| |apply NoDup_singleton].
  intros x Hx ->%list_elem_of_singleton. done.
Qed.

Lemma foldl_applyTag_NoDup ts new :
  NoDup ts → NoDup (foldl applyTag ts new).
Proof.
  revert ts. induction new as [|t new IH]; intros ts Hnd; simpl; [done|].
  by apply IH, applyTag_NoDup.
Qed.

Lemma foldl_applyTag_present ts new :
  Forall (λ t, plainTag t ∧ t ∈ ts) new → foldl applyTag ts new = ts.
Proof.
  induction 1 as [|t new [[Hs Hk] Hin] _ IH]; simpl; [done|].
  rewrite applyTag_plain by done. by rewrite decide_True.
Qed.

Lemma mergeTagged_snoc l m :
  mergeTagged (l ++ [m]) = mergeTaggedStep (mergeTagged l) m.
Proof. unfold mergeTagged. by rewrite foldl_app. Qed.

Lemma mergeThreads_snoc l m :
  mergeThreads (l ++ [m]) = mergeThreadsStep (mergeThreads l) m.
Proof. unfold mergeThreads. by rewrite foldl_app. Qed.

Lemma mergeReferences_snoc l m :
  mergeReferences (l ++ [m]) = mergeReferencesStep (mergeReferences l) m.
Proof. unfold mergeReferences. by rewrite foldl_app. Qed.

Lemma mergeThreads_lookup threads k :
  mergeThreads threads !! k =
  match filter (λ t, Thread.id t = k) threads with
  | [] => None
  | first :: rest => Some (threadOfMentions first rest)
  end.
Proof.
  induction threads as [|m threads IH] using rev_ind; [done|].
  rewrite mergeThreads_snoc, filter_app. unfold mergeThreadsStep.
  rewrite filter_cons, filter_nil.
  destruct (decide (Thread.id m = k)) as [<-|Hne].
  - destruct (filter _ threads) as [|first rest] eqn:Ef; rewrite IH.
    + rewrite lookup_insert_eq. simpl. f_equal.
      unfold threadOfMentions. destruct m; simpl. by rewrite app_nil_r.
    + rewrite lookup_insert_eq. simpl. f_equal.
      unfold threadOfMentions. simpl. f_equal.
      * by rewrite List.last_last.
      * rewrite fmap_app, concat_app. simpl.
        by rewrite app_nil_r, app_assoc.
  - rewrite app_nil_r.
    destruct (mergeThreads threads !! Thread.id m);
      by rewrite lookup_insert_ne.
Qed.

(** The record of a key is the fold of the mentions of that key, in the
    order of the list; the mentions of other keys play no part. *)
Lemma mergeTagged_lookup l k :
  mergeTagged l !! k =
  match filter (λ m, Tagged.id m = k) l with
  | [] => None
  | first :: rest => Some (taggedOfMentions first rest)
  end.
Proof.
  induction l as [|m l IH] using rev_ind; [done|].
  rewrite mergeTagged_snoc, filter_app. unfold mergeTaggedStep.
  rewrite filter_cons, filter_nil.
  destruct (decide (Tagged.id m = k)) as [<-|Hne].
  - destruct (filter _ l) as [|first rest] eqn:Ef; rewrite IH.
    + rewrite lookup_insert_eq. simpl. f_equal.
      unfold taggedOfMentions. destruct m; simpl. by rewrite app_nil_r.
    + rewrite lookup_insert_eq. simpl. f_equal.
      unfold taggedOfMentions. simpl. f_equal.
      * by rewrite foldl_app.
      * rewrite fmap_app, concat_app. simpl.
        by rewrite app_nil_r, app_assoc.
  - rewrite app_nil_r.
    destruct (mergeTagged l !! Tagged.id m); by rewrite lookup_insert_ne.
Qed.

(** Two references of one kind share a key only when their names are
    written alike. *)
Lemma referenceKey_inj r1 r2 :
  Reference.type r1 = Reference.type r2 →
  referenceKey r1 = referenceKey r2 → Reference.id r1 = Reference.id r2.
Proof.
  unfold referenceKey, refTypeName. intros ->.
  destruct (Reference.type r2); cbv [String.append]; by intros [= ->].
Qed.

End MergeFacts.

(** ** The tag diff of NPCs, locations and player characters *)
Section TaggedMerge.
Import NotationParser.

(** C1 (as amended). For each of [mergeNPCs], [mergeLocations] and
    [mergePlayerCharacters]: when the key of a mention already has a
    canonical record, merging the mention folds its tags, in order, into
    the record's tag list with [applyTag], and appends the mention's
    locations to the record's mentions.  [applyTag] follows three rules,
    tried in this order: a tag starting with '-' removes every tag equal
    to it without the '-'; otherwise a tag containing '=' removes every
    tag with the same key (as [getTagKey] gives it) and is appended at
    the end; otherwise the tag is appended only if it is not there yet.
    The update never introduces a duplicate: a duplicate-free list stays
    duplicate-free. *)
Theorem merge_subsequent_mention
    (merge : list Tagged.t → gmap string Tagged.t)
    (prior : list Tagged.t) (m e : Tagged.t) :
  merge ∈ [mergeNPCs; mergeLocations; mergePlayerCharacters] →
  merge prior !! Tagged.id m = Some e →
  ∃ e',
    merge (prior ++ [m]) !! Tagged.id m = Some e' ∧
    Tagged.tags e' = foldl applyTag (Tagged.tags e) (Tagged.tags m) ∧
    Tagged.mentions e' = Tagged.mentions e ++ Tagged.mentions m ∧
    Tagged.firstMention e' = Tagged.firstMention e ∧
    (∀ ts t, JS.startsWith t "-" = true →
       applyTag ts t = filter (λ u, u ≠ JS.sliceFrom t 1) ts) ∧
    (∀ ts t, JS.startsWith t "-" = false → "="%char ∈ JS.chars t →
       applyTag ts t = filter (λ u, getTagKey u ≠ getTagKey t) ts ++ [t]) ∧
    (∀ ts t, JS.startsWith t "-" = false → "="%char ∉ JS.chars t →
       applyTag ts t = if decide (t ∈ ts) then ts else ts ++ [t]) ∧
    (NoDup (Tagged.tags e) → NoDup (Tagged.tags e')).
Proof.
  intros Hmerge Hprior.
  assert (merge = mergeTagged) as ->.
  { rewrite !elem_of_cons, elem_of_nil in Hmerge.
    by destruct Hmerge as [->|[->|[->|[]]]]. }
  rewrite mergeTagged_snoc. unfold mergeTaggedStep. rewrite Hprior.
  eexists. rewrite lookup_insert_eq. split; [done|]. simpl.
  split_and!; try done.
  - apply applyTag_remove.
  - apply applyTag_keyed.
  - apply applyTag_plain.
  - apply foldl_applyTag_NoDup.
Qed.

(** The tag removal of the specification: [N:Jonah|friendly] then
    [N:Jonah|-friendly|captured]. *)
Lemma merge_subsequent_mention_witness :
  ∃ e',
    mergeNPCs ([Sample.npcMention "Jonah" ["friendly"] 3] ++
               [Sample.npcMention "Jonah" ["-friendly"; "captured"] 7])
      !! "npc:jonah" = Some e' ∧
    Tagged.tags e' = ["captured"] ∧
    Tagged.mentions e' = [Sample.at_line 3; Sample.at_line 7].
Proof.
  destruct (merge_subsequent_mention mergeNPCs
              [Sample.npcMention "Jonah" ["friendly"] 3]
              (Sample.npcMention "Jonah" ["-friendly"; "captured"] 7)
              (Sample.npcMention "Jonah" ["friendly"] 3))
    as (e' & Hl & Ht & Hm & _).
  - apply list_elem_of_here.
  - vm_compute. reflexivity.
  - exists e'. split; [exact Hl|]. split; [exact Ht|exact Hm].
Defined.

(** C1 (as stated) fails: the tags of a first mention are copied as they
    are, so [N:X|a|a] followed by [N:X|b] leaves a canonical list with
    the tag "a" twice. *)
Lemma merge_keeps_duplicates_of_first_mention :
  ∃ e,
    mergeNPCs [Sample.npcMention "X" ["a"; "a"] 1;
               Sample.npcMention "X" ["b"] 2] !! "npc:x" = Some e ∧
    Tagged.tags e = ["a"; "a"; "b"] ∧
    ¬ NoDup (Tagged.tags e).
Proof.
  eexists. split; [vm_compute; reflexivity|]. split; [reflexivity|].
  simpl. rewrite NoDup_cons. intros [Hn _]. apply Hn, list_elem_of_here.
Qed.

(** C7. Merging the same mention twice, when its tags are plain (as in
    [N:Grim|friendly]), leaves the tag list as it is in the mention, with
    no tag added a second time, while the mentions list holds the
    mention's locations twice: two entries for a mention with one
    location. *)
Theorem merge_same_mention_twice (m : NPC) :
  Forall plainTag (Tagged.tags m) →
  length (Tagged.mentions m) = 1%nat →
  ∃ e,
    mergeNPCs [m; m] !! Tagged.id m = Some e ∧
    Tagged.tags e = Tagged.tags m ∧
    Tagged.mentions e = Tagged.mentions m ++ Tagged.mentions m ∧
    length (Tagged.mentions e) = 2%nat.
Proof.
  intros Hplain Hlen.
  unfold mergeNPCs, mergeTagged. simpl. unfold mergeTaggedStep at 2.
  rewrite lookup_empty. unfold mergeTaggedStep.
  rewrite lookup_insert_eq. eexists. rewrite lookup_insert_eq.
  split; [done|]. simpl. split_and!; [|done|].
  - apply foldl_applyTag_present.
    apply Forall_forall. intros t Ht. split; [|done].
    by eapply Forall_forall in Hplain.
  - rewrite length_app. lia.
Qed.

Lemma merge_same_mention_twice_witness :
  ∃ e,
    mergeNPCs [Sample.npcMention "Grim" ["friendly"] 4;
               Sample.npcMention "Grim" ["friendly"] 4]
      !! "npc:grim" = Some e ∧
    Tagged.tags e = ["friendly"] ∧
    length (Tagged.mentions e) = 2%nat.
Proof.
  destruct (merge_same_mention_twice
              (Sample.npcMention "Grim" ["friendly"] 4))
    as (e & Hl & Ht & _ & Hn).
  - apply Forall_cons_2; [|apply Forall_nil_2].
    split; [reflexivity|]. apply indexOf_None. reflexivity.
  - reflexivity.
  - exists e. split; [exact Hl|]. split; [exact Ht|exact Hn].
Defined.

End TaggedMerge.

(** ** Threads *)
Section ThreadMerge.
Import NotationParser.

Lemma length_concat_one (l : list Thread.t) :
  Forall (λ t, length (Thread.mentions t) = 1%nat) l →
  length (concat (Thread.mentions <$> l)) = length l.
Proof.
  induction 1 as [|t l Ht _ IH]; [done|].
  rewrite fmap_cons, concat_cons, length_app, IH, Ht. done.
Qed.

(** C4. When a thread key is mentioned (once or more), the canonical
    thread has the state of the last mention in document order, and its
    mentions list is the concatenation of the mentions' locations: one
    [Location] per mention when each mention carries one. *)
Theorem mergeThreads_last_write_wins
    (threads : list Thread.t) (k : string)
    (first : Thread.t) (rest : list Thread.t) :
  filter (λ t, Thread.id t = k) threads = first :: rest →
  ∃ e,
    mergeThreads threads !! k = Some e ∧
    Thread.state e = Thread.state (List.last rest first) ∧
    Thread.mentions e = concat (Thread.mentions <$> first :: rest) ∧
    Thread.firstMention e = Thread.firstMention first ∧
    (Forall (λ t, length (Thread.mentions t) = 1%nat) (first :: rest) →
     length (Thread.mentions e) = length (first :: rest)).
Proof.
  intros Hf. exists (threadOfMentions first rest).
  rewrite mergeThreads_lookup, Hf. split_and!; try done.
  apply length_concat_one.
Qed.

(** [Thread:X|Open] then [Thread:X|Closed]. *)
Lemma mergeThreads_last_write_wins_witness :
  ∃ e,
    mergeThreads [Sample.threadMention "X" "Open" 2;
                  Sample.threadMention "X" "Closed" 9]
      !! "thread:x" = Some e ∧
    Thread.state e = "Closed" ∧
    length (Thread.mentions e) = 2%nat.
Proof.
  destruct (mergeThreads_last_write_wins
              [Sample.threadMention "X" "Open" 2;
               Sample.threadMention "X" "Closed" 9]
              "thread:x"
              (Sample.threadMention "X" "Open" 2)
              [Sample.threadMention "X" "Closed" 9])
    as (e & Hl & Hs & _ & _ & Hn).
  - vm_compute. reflexivity.
  - exists e. split; [exact Hl|]. split; [exact Hs|].
    apply Hn. repeat constructor.
Defined.

End ThreadMerge.

(** ** The order of sessions *)
Section SessionOrder.
Import NotationParser.

Lemma insertSession_elem_of s x l :
  x ∈ insertSession s l ↔ x = s ∨ x ∈ l.
Proof.
  induction l as [|y l IH]; simpl.
  - rewrite list_elem_of_singleton, elem_of_nil. tauto.
  - case_decide; rewrite !elem_of_cons; [tauto|]. rewrite IH. tauto.
Qed.

Lemma insertSession_sorted s l :
  StronglySorted byNumber l → StronglySorted byNumber (insertSession s l).
Proof.
  induction 1 as [|y l Hl IH Hy]; simpl.
  - repeat constructor.
  - case_decide as Hle.
    + constructor; [by constructor|].
      constructor; [done|].
      eapply Forall_impl; [exact Hy|]. unfold byNumber. intros. lia.
    + constructor; [done|].
      apply Forall_forall. intros x [->|Hx]%insertSession_elem_of.
      * unfold byNumber. lia.
      * by eapply Forall_forall in Hy.
Qed.

Lemma sortSessions_sorted l : StronglySorted byNumber (sortSessions l).
Proof.
  induction l as [|s l IH]; simpl; [constructor|].
  by apply insertSession_sorted.
Qed.

Lemma insertSession_perm s l : insertSession s l ≡ₚ s :: l.
Proof.
  induction l as [|y l IH]; simpl; [done|].
  case_decide; [done|]. rewrite IH. apply Permutation_swap.
Qed.

(** Sorting neither drops nor invents a session. *)
Lemma sortSessions_perm l : sortSessions l ≡ₚ l.
Proof.
  induction l as [|s l IH]; simpl; [done|].
  by rewrite insertSession_perm, IH.
Qed.

(** Once an inline session is open, the session links play no part in
    the rest of the loop of [parseSessions]. *)
Lemma sessionsLoop_open_ignores_links `{!CodeBlockParser} app filePath
    links n ls sessions cur content start :
  sessionsLoop app filePath links n ls sessions (Some cur) content start =
  sessionsLoop app filePath [] n ls sessions (Some cur) content start.
Proof.
  revert n sessions cur content start.
  induction ls as [|line rest IH]; intros; simpl; [done|].
  destruct (matchSessionHeader line); apply IH.
Qed.

(** C2 (as amended). Whatever the document and the vault, the sessions
    of the parsed campaign are in ascending order of session number,
    however they were discovered; a link to "Session 2" that precedes an
    inline "Session 1" heading yields the sequence [1, 2]. *)
Theorem parseSessions_sorted `{!CodeBlockParser}
    (app : option App) (content filePath : string) :
  StronglySorted Z.le
    (Session.number <$> parseSessions app content filePath) ∧
  Session.number <$>
    parseSessions (Some (Sample.vault "Session 2" Sample.sessionNote))
      Sample.linkThenInline "campaign.md" = [1; 2].
Proof.
  split.
  - unfold parseSessions.
    apply (StronglySorted_fmap Session.number byNumber); [done|].
    apply sortSessions_sorted.
  - vm_compute. reflexivity.
Qed.

(** C2 (as stated) fails on its example: a link to "Session 1" that
    follows an inline "Session 2" heading lies inside that session and
    is not followed, so the sequence is [2]. *)
Lemma inline_session_then_link_yields_one_session :
  Session.number <$>
    parseSessions (Some (Sample.vault "Session 1" Sample.sessionNote))
      Sample.inlineThenLink "campaign.md" = [2] ∧
  Session.number <$>
    parseSessions (Some (Sample.vault "Session 1" Sample.sessionNote))
      Sample.inlineThenLink "campaign.md" ≠ [1; 2].
Proof. split; vm_compute; [reflexivity|discriminate]. Qed.

End SessionOrder.

(** ** Code blocks that are never closed *)
Section UnterminatedFence.
Import NotationParser.
Context `{!CodeBlockParser}.

Lemma split_not_nil s c : JS.split s c ≠ [].
Proof. destruct s as [|d s]; simpl; [done|]. case_decide; [done|].
  by destruct (JS.split s c). Qed.

Lemma split_no_sep s c : Forall (λ w, c ∉ JS.chars w) (JS.split s c).
Proof.
  induction s as [|d s IH]; simpl.
  - constructor; [apply not_elem_of_nil|constructor].
  - case_decide as Hd.
    + constructor; [apply not_elem_of_nil|done].
    + destruct (JS.split s c) as [|w ws]; simpl.
      * constructor; [|constructor]. simpl. rewrite not_elem_of_cons.
        split; [congruence|apply not_elem_of_nil].
      * apply Forall_cons in IH as [Hw Hws]. constructor; [|done].
        simpl. rewrite not_elem_of_cons. split; [congruence|done].
Qed.

Lemma split_word w c : c ∉ JS.chars w → JS.split w c = [w].
Proof.
  induction w as [|d w IH]; simpl; [done|].
  rewrite not_elem_of_cons. intros [Hd Hw].
  rewrite decide_False by done. by rewrite IH.
Qed.

Lemma split_word_sep w c s :
  c ∉ JS.chars w → JS.split (w +:+ String c s) c = w :: JS.split s c.
Proof.
  induction w as [|d w IH]; simpl.
  - intros _. by rewrite decide_True.
  - rewrite not_elem_of_cons. intros [Hd Hw].
    rewrite decide_False by done. by rewrite IH.
Qed.

Lemma lines_unlines ls :
  ls ≠ [] → Forall (λ w, JS.newline ∉ JS.chars w) ls →
  lines (unlines ls) = ls.
Proof.
  intros Hne Hall. unfold lines, unlines.
  induction Hall as [|w ws Hw Hws IH]; [done|].
  destruct ws as [|w' ws]; simpl.
  - by apply split_word.
  - change (JS.split (w +:+ String JS.newline
                        (JS.join (w' :: ws) (String JS.newline "")))
              JS.newline = w :: w' :: ws).
    rewrite split_word_sep by done. f_equal. by apply IH.
Qed.

(** Inside a block that no later line closes, nothing is emitted. *)
Lemma sceneContentLoop_unclosed base i post elements content start :
  Forall (λ l, ¬ isFence l) post →
  sceneContentLoop base i post elements true content start = elements.
Proof.
  intros Hpost. revert i content.
  induction Hpost as [|l post Hl _ IH]; intros i content; simpl; [done|].
  unfold isFence in Hl. rewrite decide_False by done. apply IH.
Qed.

Lemma sceneContentLoop_cut base i pre fence post elements b content start :
  isFence fence → Forall (λ l, ¬ isFence l) post →
  insideBlock b pre = false →
  sceneContentLoop base i (pre ++ fence :: post) elements b content start =
  sceneContentLoop base i pre elements b content start.
Proof.
  intros Hf Hpost. revert i elements b content start.
  induction pre as [|l pre IH]; intros i elements b content start Hin;
    simpl in *.
  - subst b. unfold isFence in Hf. rewrite decide_True by done.
    by apply sceneContentLoop_unclosed.
  - unfold isFence in Hin.
    destruct (decide (JS.trim l = "```")); destruct b; simpl in Hin;
      by apply IH.
Qed.

(** C10. When the lines of a scene's content are [pre], then a fence
    line that opens a block ([pre] leaves the scan outside any block),
    then lines [post] none of which is a fence, [parseSceneContent]
    returns what it returns for the content cut before that fence: the
    lines of the unterminated block contribute no element.  The function
    is total, so no error is raised. *)
Theorem parseSceneContent_unterminated_block
    (content filePath : string) (baseLineNumber : Z)
    (pre : list string) (fence : string) (post : list string) :
  lines content = pre ++ fence :: post →
  isFence fence →
  insideBlock false pre = false →
  Forall (λ l, ¬ isFence l) post →
  parseSceneContent content filePath baseLineNumber =
  parseSceneContent (unlines pre) filePath baseLineNumber.
Proof.
  intros Hlines Hf Hpre Hpost. unfold parseSceneContent.
  rewrite Hlines, sceneContentLoop_cut by done.
  destruct pre as [|l pre]; [done|].
  rewrite lines_unlines; [done|done|].
  pose proof (split_no_sep content JS.newline) as Hall.
  fold (lines content) in Hall. rewrite Hlines in Hall.
  by apply Forall_app in Hall as [Hall _].
Qed.

End UnterminatedFence.

(** The scene of [Sample.unterminated]: only the first block is parsed. *)
Lemma parseSceneContent_unterminated_block_witness :
  NotationParser.parseSceneContent Sample.unterminated "campaign.md" 5 =
  NotationParser.parseSceneContent
    (NotationParser.unlines ["```"; "> Enter the cave"; "```"; "Some prose."])
    "campaign.md" 5.
Proof.
  apply (parseSceneContent_unterminated_block Sample.unterminated
           "campaign.md" 5
           ["```"; "> Enter the cave"; "```"; "Some prose."] "```"
           ["> Light a torch"; "[N:Grim|friendly]"]).
  - reflexivity.
  - reflexivity.
  - vm_compute. reflexivity.
  - repeat constructor; unfold isFence; vm_compute; discriminate.
Defined.

(** ** What back-references contribute *)
Section References.
Import NotationParser.
Context `{!TagExtractor} `{!CodeBlockParser} `{!ProgressParser}.

Lemma appendTags_empty t : appendTags t Tags.empty = t.
Proof. destruct t. unfold appendTags. simpl. by rewrite !app_nil_r. Qed.

Lemma collectScan_silent acc scan : silent scan → collectScan acc scan = acc.
Proof.
  intros [Ht Hr]. unfold collectScan. rewrite Ht, Hr. simpl.
  rewrite appendTags_empty. by destruct acc.
Qed.

Lemma foldl_collectScan_silent acc scans :
  Forall silent scans → foldl collectScan acc scans = acc.
Proof.
  induction 1 as [|scan scans Hs _ IH]; simpl; [done|].
  by rewrite collectScan_silent.
Qed.

Lemma collectElements_scanned filePath session scene acc elements :
  foldl (collectElement filePath session scene) acc elements =
  foldl collectScan acc
    (scanned filePath
       [Session.mk (Session.number session) None None None None
          [Scene.mk "" (Scene.number scene) None 0 0 elements] 0 0 ∅ None]).
Proof.
  unfold scanned. simpl. rewrite !app_nil_r. revert acc.
  induction elements as [|element elements IH]; intros acc; [done|].
  simpl. rewrite foldl_app, IH. f_equal.
  unfold collectElement.
  destruct (contentToScan element) as [content|]; [|done].
  by case_decide.
Qed.

Lemma collectAllTags_scanned sessions filePath :
  collectAllTags sessions filePath =
  foldl collectScan AllTags.empty (scanned filePath sessions).
Proof.
  unfold collectAllTags. generalize AllTags.empty.
  induction sessions as [|session sessions IH]; intros acc; [done|].
  unfold scanned in *. simpl. rewrite foldl_app, IH. f_equal.
  clear IH. revert acc.
  induction (Session.scenes session) as [|scene scenes IH]; intros acc;
    [done|].
  simpl. rewrite foldl_app, IH. f_equal.
  rewrite collectElements_scanned. unfold scanned. simpl.
  by rewrite !app_nil_r.
Qed.

Lemma mergeTagged_singleton x : mergeTagged [x] !! Tagged.id x = Some x.
Proof.
  unfold mergeTagged. simpl. unfold mergeTaggedStep.
  rewrite lookup_empty. apply lookup_insert_eq.
Qed.

Lemma mergeReferences_singleton r :
  mergeReferences [r] !! referenceKey r = Some r.
Proof.
  unfold mergeReferences. simpl. unfold mergeReferencesStep.
  rewrite lookup_empty. apply lookup_insert_eq.
Qed.

(** C5. When the extractor finds, in all the scanned text of a
    document, a single back-reference and nothing else, the parsed
    campaign holds, besides the reference record, a canonical NPC (for
    [#N:...]) or location (for [#L:...]) under the lower-cased key, with
    no tag and exactly one mention. *)
Theorem reference_only_entity
    (app : option App) (content filePath : string)
    (before after : list (Location * string))
    (location : Location) (text : string) (type : RefType) (name : string) :
  scanned filePath (parseSessions app content filePath) =
    before ++ (location, text) :: after →
  Forall silent (before ++ after) →
  extractTags text location = Tags.empty →
  extractReferences text = [RefTag.mk type name] →
  let campaign := parseCampaignFile app content filePath in
  Campaign.references campaign
    !! (refTypeName type +:+ ":" +:+ name) =
    Some (Reference.mk name name type location [location]) ∧
  match type with
  | RefNpc =>
      Campaign.npcs campaign !! ("npc:" +:+ JS.toLowerCase name) =
      Some (Tagged.mk ("npc:" +:+ JS.toLowerCase name) name []
              location [location])
  | RefLocation =>
      Campaign.locations campaign !! ("location:" +:+ JS.toLowerCase name) =
      Some (Tagged.mk ("location:" +:+ JS.toLowerCase name) name []
              location [location])
  end.
Proof.
  intros Hscan [Hb Ha]%Forall_app Htags Hrefs campaign.
  unfold campaign, parseCampaignFile. simpl.
  rewrite collectAllTags_scanned, Hscan, foldl_app. simpl.
  rewrite (foldl_collectScan_silent _ before) by done.
  rewrite foldl_collectScan_silent by done.
  unfold collectScan. simpl. rewrite Htags, Hrefs. simpl.
  destruct type; (split; [apply (mergeReferences_singleton
                                   (Reference.mk name name _ _ _))|]).
  - apply (mergeTagged_singleton (Tagged.mk _ name [] _ _)).
  - apply (mergeTagged_singleton (Tagged.mk _ name [] _ _)).
Qed.

End References.

(** The campaign of [Sample.referenceOnly], whose only tag is
    [#N:Shadow]. *)
Lemma reference_only_entity_witness :
  let campaign :=
    NotationParser.parseCampaignFile None Sample.referenceOnly "campaign.md" in
  let location := mkLocation "campaign.md" 2 "Session 1" "S1" in
  NotationParser.Campaign.references campaign !! "npc:Shadow" =
    Some (Reference.mk "Shadow" "Shadow" RefNpc location [location]) ∧
  NotationParser.Campaign.npcs campaign !! "npc:shadow" =
    Some (Tagged.mk "npc:shadow" "Shadow" [] location [location]).
Proof.
  apply (reference_only_entity None Sample.referenceOnly "campaign.md"
           [(mkLocation "campaign.md" 1 "Session 1" "S1",
             "Someone is watching")] []
           (mkLocation "campaign.md" 2 "Session 1" "S1")
           "[#N:Shadow]" RefNpc "Shadow").
  - vm_compute. reflexivity.
  - repeat constructor.
  - reflexivity.
  - reflexivity.
Defined.

(** C3. The keys of references keep the case of the name: the campaign of
    [Sample.twoSpellings] gets two reference records, under "npc:Grim" and
    "npc:grim", although the NPC entries made in the same loop are merged
    into the single record "npc:grim" with both mentions. *)
Theorem reference_keys_keep_case :
  let campaign :=
    NotationParser.parseCampaignFile None Sample.twoSpellings "campaign.md" in
  Reference.mentions <$>
    (NotationParser.Campaign.references campaign !! "npc:Grim") =
    Some [mkLocation "campaign.md" 1 "Session 1" "S1"] ∧
  Reference.mentions <$>
    (NotationParser.Campaign.references campaign !! "npc:grim") =
    Some [mkLocation "campaign.md" 2 "Session 1" "S1"] ∧
  size (NotationParser.Campaign.references campaign) = 2%nat ∧
  size (NotationParser.Campaign.npcs campaign) = 1%nat ∧
  Tagged.mentions <$>
    (NotationParser.Campaign.npcs campaign !! "npc:grim") =
    Some [mkLocation "campaign.md" 1 "Session 1" "S1";
          mkLocation "campaign.md" 2 "Session 1" "S1"].
Proof. vm_compute. repeat split; reflexivity. Qed.

(** ** The progress helper *)
Section Progress.
Import ProgressParserModel.

(** C9. [calculateProgress] is defined on every pair of integers, its
    value lies between 0 and 100, and it is 0 whenever the total is 0 (in
    particular at (0, 0)): no division by zero takes place.  For a filled
    part of a positive total the value is the percentage rounded to the
    nearest integer. *)
Theorem calculateProgress_total (current total : Z) :
  0 ≤ calculateProgress current total ≤ 100 ∧
  calculateProgress current 0 = 0 ∧
  calculateProgress 0 0 = 0 ∧
  (0 < total → 0 ≤ current ≤ total →
   2 * Z.abs (calculateProgress current total * total - 100 * current)
     ≤ total).
Proof.
  split_and!;
    [unfold calculateProgress; case_decide; lia ..
    |unfold calculateProgress; by rewrite decide_True
    |reflexivity|].
  intros Ht Hc. unfold calculateProgress. rewrite decide_False by lia.
  pose proof (Z.div_mod (200 * current + total) (2 * total)) as Hdm.
  pose proof (Z.mod_pos_bound (200 * current + total) (2 * total)) as Hm.
  set (q := (200 * current + total) / (2 * total)) in *.
  assert (0 ≤ q ≤ 100) as Hq by (unfold q; nia).
  rewrite Z.min_r, Z.max_r by lia. nia.
Qed.

(** One third of the way: 33 percent. *)
Lemma calculateProgress_total_witness :
  calculateProgress 1 3 = 33 ∧
  2 * Z.abs (calculateProgress 1 3 * 3 - 100 * 1) ≤ 3.
Proof.
  split; [reflexivity|].
  destruct (calculateProgress_total 1 3) as (_ & _ & _ & Hround).
  apply Hround; lia.
Defined.

End Progress.

(** ** The success of a mechanics roll *)
Section MechanicsRoll.
Import CodeBlockParserModel.

Lemma append_cons c s t : String c s +:+ t = String c (s +:+ t).
Proof. reflexivity. Qed.

Lemma append_nil_l t : "" +:+ t = t.
Proof. reflexivity. Qed.

Lemma append_assoc s t u : (s +:+ t) +:+ u = s +:+ t +:+ u.
Proof.
  induction s as [|c s IH]; [done|]. by rewrite !append_cons, IH.
Qed.

Lemma chars_append s t : JS.chars (s +:+ t) = JS.chars s ++ JS.chars t.
Proof.
  induction s as [|c s IH]; [done|]. rewrite append_cons. simpl.
  by rewrite IH.
Qed.

Lemma ofChars_app l k : JS.ofChars (l ++ k) = JS.ofChars l +:+ JS.ofChars k.
Proof.
  induction l as [|c l IH]; [done|]. simpl. by rewrite IH.
Qed.

Lemma length_ofChars l : String.length (JS.ofChars l) = length l.
Proof. induction l as [|c l IH]; simpl; [done|by rewrite IH]. Qed.

Lemma length_chars s : length (JS.chars s) = String.length s.
Proof. induction s as [|c s IH]; simpl; [done|by rewrite IH]. Qed.

Lemma trimStart_length s :
  (String.length (JS.trimStart s) ≤ String.length s)%nat.
Proof.
  induction s as [|c s IH]; simpl; [done|].
  destruct (JS.isSpace c); simpl; lia.
Qed.

Lemma trimStart_shorter s :
  JS.trimStart s ≠ s →
  (String.length (JS.trimStart s) < String.length s)%nat.
Proof.
  destruct s as [|c s]; simpl; [done|].
  destruct (JS.isSpace c); [|done].
  intros _. pose proof (trimStart_length s). lia.
Qed.

Lemma trimEnd_length s :
  (String.length (JS.trimEnd s) ≤ String.length s)%nat.
Proof.
  unfold JS.trimEnd.
  rewrite length_ofChars, length_reverse, length_chars.
  etrans; [apply trimStart_length|].
  by rewrite length_ofChars, length_reverse, length_chars.
Qed.

Lemma trimStart_append s t :
  JS.trimStart s ≠ "" → JS.trimStart (s +:+ t) = JS.trimStart s +:+ t.
Proof.
  induction s as [|c s IH]; [done|]. rewrite append_cons.
  cbn [JS.trimStart]. destruct (JS.isSpace c); [done|]. by intros _.
Qed.

Lemma trimEnd_append s t :
  JS.trimEnd t ≠ "" → JS.trimEnd (s +:+ t) = s +:+ JS.trimEnd t.
Proof.
  unfold JS.trimEnd. intros Hne.
  rewrite chars_append, reverse_app, ofChars_app.
  rewrite trimStart_append.
  - rewrite chars_append, reverse_app, chars_ofChars, reverse_involutive.
    by rewrite ofChars_app, ofChars_chars.
  - intros Hempty. apply Hne. by rewrite Hempty.
Qed.

Lemma trimEnd_space s : JS.trimEnd (s +:+ " ") = JS.trimEnd s.
Proof.
  unfold JS.trimEnd. rewrite chars_append. simpl JS.chars at 2.
  by rewrite reverse_app.
Qed.

Lemma field_trim s :
  field s → JS.trimStart s = s ∧ JS.trimEnd s = s.
Proof.
  intros (Hne & Htrim & _). unfold JS.trim in Htrim.
  destruct (decide (JS.trimStart s = s)) as [Hs|Hs].
  - by rewrite Hs in Htrim.
  - apply trimStart_shorter in Hs.
    pose proof (trimEnd_length (JS.trimStart s)) as Hle.
    rewrite Htrim in Hle. lia.
Qed.

Lemma trim_padded s : field s → JS.trim (" " +:+ s +:+ " ") = s.
Proof.
  intros Hf. destruct (field_trim s Hf) as [Hs He].
  destruct Hf as (Hne & _). unfold JS.trim.
  change (" " +:+ s +:+ " ") with (String " " (s +:+ " ")).
  simpl JS.trimStart. rewrite trimStart_append by (by rewrite Hs).
  by rewrite Hs, trimEnd_space.
Qed.

Lemma trim_led s : field s → JS.trim (" " +:+ s) = s.
Proof.
  intros Hf. destruct (field_trim s Hf) as [Hs He]. unfold JS.trim.
  change (" " +:+ s) with (String " " s). simpl JS.trimStart.
  by rewrite Hs.
Qed.

Lemma startsWith_empty s : JS.startsWith s "" = true.
Proof. by destruct s. Qed.

Lemma sliceFrom_0 s : JS.sliceFrom s 0 = s.
Proof. by destruct s. Qed.

Lemma splitFirst_skip a rest x y :
  JS.includes a "=>" = false → JS.startsWith rest ">" = false →
  splitFirst "=>" rest = Some (x, y) →
  splitFirst "=>" (a +:+ rest) = Some (a +:+ x, y).
Proof.
  intros Hinc Hrest Hsplit. induction a as [|c a IH]; [done|].
  cbn [JS.includes] in Hinc. apply orb_false_elim in Hinc as [Hhere Hlater].
  rewrite (append_cons c a rest), (append_cons c a x).
  assert (JS.startsWith (String c (a +:+ rest)) "=>" = false) as Hstart.
  { cbn [JS.startsWith] in *.
    destruct (decide ("="%char = c)); [|done].
    destruct a as [|d a]; [done|]. rewrite (append_cons d a rest).
    cbn [JS.startsWith] in *.
    destruct (decide (">"%char = d)); [|done].
    by destruct a. }
  cbn [splitFirst]. rewrite Hstart. by rewrite (IH Hlater).
Qed.

Lemma splitFirst_arrow a b :
  JS.includes a "=>" = false →
  splitFirst "=>" (a +:+ " => " +:+ b) = Some (a +:+ " ", " " +:+ b).
Proof. intros Hinc. by apply splitFirst_skip. Qed.

(** The line "d: <roll> => <outcome>" as [classify] sees it. *)
Lemma classify_mechanics_roll roll outcome :
  field roll → field outcome → JS.includes roll "=>" = false →
  classify ("d: " +:+ roll +:+ " => " +:+ outcome) =
  Element.mechanics_roll roll outcome (determineSuccess outcome).
Proof.
  intros Hr Ho Hinc.
  assert (fields (splitFirst "=>") "d:"
            ("d: " +:+ roll +:+ " => " +:+ outcome) = Some (roll, outcome))
    as Hfields.
  { unfold fields.
    change ("d: " +:+ roll +:+ " => " +:+ outcome)
      with (String "d" (String ":" (" " +:+ roll +:+ " => " +:+ outcome))).
    cbn [JS.startsWith String.length JS.sliceFrom].
    rewrite !decide_True by done.
    rewrite startsWith_empty, sliceFrom_0.
    rewrite <- append_assoc, splitFirst_arrow.
    - rewrite append_assoc, trim_padded, trim_led by done.
      destruct Hr as [Hr _], Ho as [Ho _].
      rewrite decide_False; [done|]. by intros [?|?].
    - change (" " +:+ roll) with (String " " roll). simpl.
      by rewrite Hinc. }
  unfold classify. rewrite Hfields.
  change ("d: " +:+ roll +:+ " => " +:+ outcome)
    with (String "d" (String ":" (" " +:+ roll +:+ " => " +:+ outcome))).
  reflexivity.
Qed.

Lemma line_is_trimmed roll outcome :
  field outcome →
  JS.trim ("d: " +:+ roll +:+ " => " +:+ outcome) =
  "d: " +:+ roll +:+ " => " +:+ outcome.
Proof.
  intros Ho. destruct (field_trim outcome Ho) as [_ He].
  destruct Ho as [Hne _]. unfold JS.trim.
  change ("d: " +:+ roll +:+ " => " +:+ outcome)
    with (String "d" (String ":" (" " +:+ roll +:+ " => " +:+ outcome))).
  cbn [JS.trimStart]. simpl JS.isSpace. cbv iota.
  change (String "d" (String ":" (" " +:+ roll +:+ " => " +:+ outcome)))
    with ("d: " +:+ roll +:+ " => " +:+ outcome).
  rewrite <- !append_assoc, trimEnd_append by (by rewrite He).
  by rewrite He.
Qed.

Lemma determineSuccess_spec outcome :
  (holdsKeyword outcome ["success"; "strong hit"] →
   determineSuccess outcome = Some true) ∧
  (¬ holdsKeyword outcome ["success"; "strong hit"] →
   holdsKeyword outcome ["fail"; "miss"] →
   determineSuccess outcome = Some false) ∧
  (¬ holdsKeyword outcome ["success"; "strong hit"] →
   ¬ holdsKeyword outcome ["fail"; "miss"] →
   determineSuccess outcome = None).
Proof.
  unfold holdsKeyword, determineSuccess.
  rewrite !Exists_cons, !Exists_nil.
  destruct (JS.includes _ "success"), (JS.includes _ "strong hit"),
    (JS.includes _ "fail"), (JS.includes _ "miss"); simpl;
    intuition congruence.
Qed.

(** C6. A line "d: <roll> => <outcome>" is parsed into one mechanics
    roll whose success depends on the outcome only: true when the outcome
    holds "success" or "strong hit"; otherwise false when it holds "fail"
    or "miss"; otherwise unknown ([None], which is not false).  The
    keywords are looked for whatever the case of the letters. *)
Theorem mechanics_roll_success (roll outcome : string) (startLine : Z) :
  field roll → field outcome → JS.includes roll "=>" = false →
  parseCodeBlock ("d: " +:+ roll +:+ " => " +:+ outcome) startLine =
    [Element.mk startLine
       (Element.mechanics_roll roll outcome (determineSuccess outcome))] ∧
  (holdsKeyword outcome ["success"; "strong hit"] →
   determineSuccess outcome = Some true) ∧
  (¬ holdsKeyword outcome ["success"; "strong hit"] →
   holdsKeyword outcome ["fail"; "miss"] →
   determineSuccess outcome = Some false) ∧
  (¬ holdsKeyword outcome ["success"; "strong hit"] →
   ¬ holdsKeyword outcome ["fail"; "miss"] →
   determineSuccess outcome = None ∧
   determineSuccess outcome ≠ Some false).
Proof.
  intros Hr Ho Hinc.
  destruct (determineSuccess_spec outcome) as (Ht & Hf & Hn).
  split_and!; [|done|done|intros H1 H2; by rewrite (Hn H1 H2)].
  unfold parseCodeBlock. rewrite split_word.
  - simpl. rewrite line_is_trimmed by done.
    rewrite decide_False.
    + by rewrite classify_mechanics_roll.
    + done.
  - rewrite !chars_append. destruct Hr as (_ & _ & Hr), Ho as (_ & _ & Ho).
    rewrite !not_elem_of_app. split_and!; try done;
      by apply indexOf_None.
Qed.

(** The unknown outcome of the test suite: "d: 2d10 => 5". *)
Lemma mechanics_roll_success_witness :
  parseCodeBlock "d: 2d10 => 5" 0 =
    [Element.mk 0 (Element.mechanics_roll "2d10" "5" None)].
Proof.
  destruct (mechanics_roll_success "2d10" "5" 0) as [Hparse _].
  - split_and!; [done|reflexivity|by apply indexOf_None].
  - split_and!; [done|reflexivity|by apply indexOf_None].
  - reflexivity.
  - exact Hparse.
Defined.

End MechanicsRoll.

(** ** Tags without a name *)
Section EmptyName.
Import TagExtractorModel.

Lemma chars_inj s t : JS.chars s = JS.chars t → s = t.
Proof.
  intros H. by rewrite <- (ofChars_chars s), <- (ofChars_chars t), H.
Qed.

Lemma trimStart_blank s :
  Forall (λ c, JS.isSpace c = true) (JS.chars (JS.trimStart s)) →
  Forall (λ c, JS.isSpace c = true) (JS.chars s).
Proof.
  induction s as [|c s IH]; simpl; [done|].
  destruct (JS.isSpace c) eqn:Hc; [|done].
  intros H. constructor; [done|by apply IH].
Qed.

Lemma trimStart_empty s :
  JS.trimStart s = "" → Forall (λ c, JS.isSpace c = true) (JS.chars s).
Proof. intros H. apply trimStart_blank. rewrite H. constructor. Qed.

Lemma trim_empty s :
  JS.trim s = "" → Forall (λ c, JS.isSpace c = true) (JS.chars s).
Proof.
  unfold JS.trim, JS.trimEnd. intros H. apply trimStart_blank.
  apply (f_equal JS.chars) in H. rewrite chars_ofChars in H. simpl in H.
  apply (f_equal reverse) in H. rewrite reverse_involutive in H.
  change (reverse []) with (@nil ascii) in H.
  apply (f_equal JS.ofChars) in H. rewrite ofChars_chars in H.
  apply trimStart_empty in H. rewrite chars_ofChars in H.
  apply Forall_forall. intros c Hc.
  eapply Forall_forall in H; [done|]. by apply elem_of_reverse.
Qed.

Lemma blank_without c s :
  JS.isSpace c = false →
  Forall (λ c, JS.isSpace c = true) (JS.chars s) → c ∉ JS.chars s.
Proof.
  intros Hc Hall Hin. eapply Forall_forall in Hall; [|done]. congruence.
Qed.

Lemma span_stop {A} (p : A → bool) pre x l :
  Forall (λ y, p y = true) pre → p x = false →
  JS.span p (pre ++ x :: l) = (pre, x :: l).
Proof.
  intros Hpre Hx. induction Hpre as [|y pre Hy _ IH]; simpl.
  - by rewrite Hx.
  - by rewrite Hy, IH.
Qed.

Lemma literalPrefix_colon k' k tl :
  ":"%char ∉ k' → ":"%char ∉ k →
  literalPrefix (k' ++ [":"%char]) (k ++ ":"%char :: tl) =
  if decide (k' = k) then Some tl else None.
Proof.
  revert k. induction k' as [|c' k' IH]; intros k Hk' Hk.
  - destruct k as [|c k]; cbn [app literalPrefix].
    + by destruct (decide (":"%char = ":"%char)).
    + apply not_elem_of_cons in Hk as [Hc _].
      destruct (decide (c = ":"%char)); [congruence|].
      by destruct (decide ([] = c :: k)).
  - apply not_elem_of_cons in Hk' as [Hc' Hk'].
    destruct k as [|c k]; cbn [app literalPrefix].
    + destruct (decide (":"%char = c')); [congruence|].
      by destruct (decide (c' :: k' = [])).
    + apply not_elem_of_cons in Hk as [Hc Hk].
      destruct (decide (c = c')) as [->|Hne].
      * rewrite IH by done.
        destruct (decide (k' = k)), (decide (c' :: k' = c' :: k));
          congruence.
      * destruct (decide (c' :: k' = c :: k)); congruence.
Qed.

Lemma tagBodies_skip kind pre l :
  "["%char ∉ pre → tagBodies kind 0 (pre ++ l) = tagBodies kind 0 l.
Proof.
  induction pre as [|c pre IH]; [done|].
  intros [Hc Hpre]%not_elem_of_cons. simpl.
  destruct c as [[] [] [] [] [] [] [] []]; try done; by apply IH.
Qed.

Lemma tagBodies_covered kind pre l :
  tagBodies kind (length pre) (pre ++ l) = tagBodies kind 0 l.
Proof. induction pre as [|c pre IH]; [by destruct l|]. simpl. apply IH. Qed.

Lemma refBodies_skip pre l :
  "["%char ∉ pre → refBodies 0 (pre ++ l) = refBodies 0 l.
Proof.
  induction pre as [|c pre IH]; [done|].
  intros [Hc Hpre]%not_elem_of_cons. simpl.
  destruct c as [[] [] [] [] [] [] [] []]; try done; by apply IH.
Qed.

(** What the keywords have in common. *)
Lemma keywords_plain kind :
  kind ∈ keywords →
  (":"%char ∉ JS.chars kind) ∧ ("["%char ∉ JS.chars kind) ∧
  kind ≠ "#N" ∧ kind ≠ "#L".
Proof.
  unfold keywords. rewrite !elem_of_cons, elem_of_nil.
  intros H. repeat (destruct H as [->|H]; [
    split_and!; [by apply indexOf_None|by apply indexOf_None|done|done]|]).
  done.
Qed.

Lemma span_all {A} (p : A → bool) l :
  Forall (λ y, p y = true) l → JS.span p l = (l, []).
Proof.
  induction 1 as [|y l Hy _ IH]; simpl; [done|]. by rewrite Hy, IH.
Qed.

Lemma span_app_stop {A} (p : A → bool) l m :
  Exists (λ y, p y = false) l →
  ∃ a b, JS.span p l = (a, b) ∧ b ≠ [] ∧ JS.span p (l ++ m) = (a, b ++ m).
Proof.
  induction 1 as [y l Hy|y l _ IH]; simpl.
  - rewrite Hy. by eexists [], _.
  - destruct (p y); [|by eexists [], _].
    destruct IH as (a & b & -> & Hb & ->). by eexists _, _.
Qed.

Lemma span_parts {A} (p : A → bool) l a b :
  JS.span p l = (a, b) → l = a ++ b.
Proof.
  revert a b. induction l as [|x l IH]; intros a b; simpl.
  - by intros [= <- <-].
  - destruct (p x); [|by intros [= <- <-]].
    destruct (JS.span p l) as [a' b']. intros [= <- <-].
    simpl. f_equal. by apply IH.
Qed.

Lemma literalPrefix_parts p l r :
  literalPrefix p l = Some r → l = p ++ r.
Proof.
  revert l. induction p as [|c p IH]; intros l; simpl.
  - by intros [= ->].
  - destruct l as [|d l]; [done|]. case_decide; [|done].
    subst d. intros Hr. f_equal. by apply IH.
Qed.

Lemma literalPrefix_app p l m :
  "]"%char ∉ p → "]"%char ∈ l →
  literalPrefix p (l ++ m) = (λ r, r ++ m) <$> literalPrefix p l.
Proof.
  revert l. induction p as [|c p IH]; intros l Hp Hl; simpl; [done|].
  apply not_elem_of_cons in Hp as [Hc Hp].
  destruct l as [|d l]; [by apply elem_of_nil in Hl|]. simpl.
  case_decide as Hd; [|done]. subst d.
  apply elem_of_cons in Hl as [Hl|Hl]; [congruence|]. by apply IH.
Qed.

Lemma tagAt_open kind c l : c ≠ "["%char → tagAt kind (c :: l) = None.
Proof.
  intros Hc. unfold tagAt.
  destruct c as [[] [] [] [] [] [] [] []]; done.
Qed.

(** A tag that is closed within a text reads the same whatever follows
    the text. *)
Lemma tagAt_app kind l m :
  "]"%char ∉ JS.chars kind → "]"%char ∈ l →
  tagAt kind ("["%char :: l ++ m) = tagAt kind ("["%char :: l).
Proof.
  intros Hk Hl. unfold tagAt.
  assert ("]"%char ∉ JS.chars kind ++ [":"%char]) as Hp.
  { rewrite not_elem_of_app, list_elem_of_singleton. done. }
  rewrite literalPrefix_app by done.
  destruct (literalPrefix _ l) as [r|] eqn:Er; [|done]. simpl.
  apply literalPrefix_parts in Er. subst l.
  apply elem_of_app in Hl as [Hl|Hl]; [done|].
  destruct (span_app_stop (NotationParser.notChar "]") r m)
    as (a & b & -> & Hb & ->).
  - apply Exists_exists. exists "]"%char. split; [done|reflexivity].
  - destruct b; [done|]. done.
Qed.

Lemma tagAt_length kind l body :
  tagAt kind ("["%char :: l) = Some body →
  (String.length kind + length body + 2 ≤ length l)%nat.
Proof.
  unfold tagAt.
  destruct (literalPrefix _ l) as [r|] eqn:Er; [|done].
  destruct (JS.span _ r) as [a b] eqn:Es.
  destruct b as [|x b]; [done|]. intros [= ->].
  apply literalPrefix_parts in Er. apply span_parts in Es. subst l r.
  rewrite !length_app, length_chars. simpl. lia.
Qed.

(** The tags of a text that leaves no tag open, followed by another
    text, are those of the one and then those of the other. *)
Lemma tagBodies_app kind pre l skip :
  "]"%char ∉ JS.chars kind → closedChars pre → (skip ≤ length pre)%nat →
  tagBodies kind skip (pre ++ l) =
  tagBodies kind skip pre ++ tagBodies kind 0 l.
Proof.
  intros Hk. revert skip.
  induction pre as [|c pre IH]; intros skip Hpre Hskip.
  { simpl in Hskip. by replace skip with 0%nat by lia. }
  destruct Hpre as [Hc Hpre]. cbn [app tagBodies].
  destruct skip as [|k]; [|apply IH; [done|simpl in Hskip; lia]].
  destruct (decide (c = "["%char)) as [->|Hne].
  - rewrite tagAt_app by auto.
    destruct (tagAt kind _) as [body|] eqn:Eat; [|by apply IH; [|lia]].
    apply tagAt_length in Eat. cbn [app]. f_equal. by apply IH.
  - rewrite !tagAt_open by done. apply IH; [done|lia].
Qed.

Lemma refBodies_app pre l skip :
  closedChars pre → (skip ≤ length pre)%nat →
  refBodies skip (pre ++ l) = refBodies skip pre ++ refBodies 0 l.
Proof.
  revert skip.
  induction pre as [|c pre IH]; intros skip Hpre Hskip.
  { simpl in Hskip. by replace skip with 0%nat by lia. }
  destruct Hpre as [Hc Hpre]. cbn [app refBodies].
  destruct skip as [|k]; [|apply IH; [done|simpl in Hskip; lia]].
  destruct (decide (c = "["%char)) as [->|Hne].
  - rewrite !(tagAt_app _ pre l) by (auto; by apply indexOf_None).
    destruct (tagAt "#N" _) as [body|] eqn:EN.
    { apply tagAt_length in EN. simpl in EN. cbn [app]. f_equal.
      apply IH; [done|lia]. }
    destruct (tagAt "#L" _) as [body|] eqn:EL; [|by apply IH; [|lia]].
    apply tagAt_length in EL. simpl in EL. cbn [app]. f_equal.
    apply IH; [done|lia].
  - rewrite !tagAt_open by done. apply IH; [done|lia].
Qed.

Section Tag.
Variables (kind body rest : string).
Hypothesis Hkind : kind ∈ keywords.
Hypothesis Hopen : "["%char ∉ JS.chars body.
Hypothesis Hclose : "]"%char ∉ JS.chars body.

Local Abbreviation text := (JS.chars (tagText kind body +:+ rest)).
Local Abbreviation inner := (tagInner kind body).

Lemma text_chars : text = "["%char :: inner ++ JS.chars rest.
Proof.
  unfold tagInner, tagText. rewrite !chars_append. simpl.
  by rewrite <- !app_assoc.
Qed.

Lemma inner_no_bracket : "["%char ∉ inner.
Proof.
  destruct (keywords_plain kind Hkind) as (_ & Hk & _).
  unfold inner. rewrite not_elem_of_app, not_elem_of_cons, not_elem_of_app.
  split_and!; [done|done|done|].
  by rewrite list_elem_of_singleton.
Qed.

Lemma tagAt_text kind' :
  ":"%char ∉ JS.chars kind' →
  tagAt kind' text =
  if decide (kind' = kind) then Some (JS.chars body) else None.
Proof.
  intros Hk'. destruct (keywords_plain kind Hkind) as (Hk & _).
  rewrite text_chars. unfold inner, tagAt.
  rewrite <- app_assoc. cbn [app].
  rewrite literalPrefix_colon by done.
  destruct (decide (JS.chars kind' = JS.chars kind)) as [Heq|Hne].
  - apply chars_inj in Heq. rewrite decide_True by done.
    rewrite <- app_assoc. cbn [app]. rewrite span_stop; [done| |done].
    apply Forall_forall. intros c Hc. unfold NotationParser.notChar.
    apply bool_decide_eq_true. by intros ->.
  - rewrite decide_False; [done|]. by intros ->.
Qed.

Lemma tagBodies_text kind' :
  ":"%char ∉ JS.chars kind' →
  tagBodies kind' 0 text =
  (if decide (kind' = kind) then [body] else []) ++
  tagBodies kind' 0 (JS.chars rest).
Proof.
  intros Hk'. pose proof (tagAt_text kind' Hk') as Hat.
  rewrite text_chars in *. cbn [tagBodies]. rewrite Hat.
  case_decide as Heq.
  - subst kind'. rewrite ofChars_chars. cbn [app]. f_equal.
    replace (String.length kind + length (JS.chars body) + 2)%nat
      with (length inner).
    + apply tagBodies_covered.
    + unfold inner. rewrite length_app. cbn [length].
      rewrite length_app, length_chars. simpl. lia.
  - apply tagBodies_skip, inner_no_bracket.
Qed.

Lemma refBodies_text : refBodies 0 text = refBodies 0 (JS.chars rest).
Proof.
  destruct (keywords_plain kind Hkind) as (_ & _ & HN & HL).
  pose proof (tagAt_text "#N") as HatN.
  pose proof (tagAt_text "#L") as HatL.
  rewrite decide_False in HatN by done.
  rewrite decide_False in HatL by done.
  rewrite text_chars in *. cbn [refBodies].
  rewrite HatN, HatL by (by apply indexOf_None).
  apply refBodies_skip, inner_no_bracket.
Qed.

(** The mentions that an extractor of one kind reads around the tag. *)
Lemma omap_text {A} (f : string → option A) kind' before :
  ":"%char ∉ JS.chars kind' → "]"%char ∉ JS.chars kind' →
  closed before →
  (kind' = kind → f body = None) →
  omap f (tagBodies kind' 0
            (JS.chars (before +:+ tagText kind body +:+ rest))) =
  omap f (tagBodies kind' 0 (JS.chars before)) ++
  omap f (tagBodies kind' 0 (JS.chars rest)).
Proof.
  intros Hk' Hk'' Hbefore Hf. rewrite chars_append.
  rewrite tagBodies_app by (done || lia).
  rewrite tagBodies_text by done. rewrite !omap_app. f_equal.
  case_decide as Heq; [|done]. simpl. by rewrite Hf.
Qed.

End Tag.

Lemma append_nil_r s : s +:+ "" = s.
Proof. induction s as [|c s IH]; [done|]. by rewrite append_cons, IH. Qed.

(** *** Bodies without a name *)

Lemma blank_spaces ws :
  blank ws → Forall (λ c, JS.isSpace c = true) (JS.chars ws).
Proof. apply trim_empty. Qed.

Lemma spaces_trimStart ws s :
  Forall (λ c, JS.isSpace c = true) (JS.chars ws) →
  JS.trimStart (ws +:+ s) = JS.trimStart s.
Proof.
  intros Hws. induction ws as [|c ws IH]; [done|]. rewrite append_cons.
  apply Forall_cons in Hws as [Hc Hws]. simpl. rewrite Hc. by apply IH.
Qed.

Lemma blank_trimEnd s ws : blank ws → JS.trimEnd (s +:+ ws) = JS.trimEnd s.
Proof.
  intros Hws%blank_spaces. unfold JS.trimEnd.
  rewrite chars_append, reverse_app, ofChars_app.
  rewrite spaces_trimStart; [done|].
  rewrite chars_ofChars. by apply Forall_reverse.
Qed.

(** A text without white space at its ends, between white space. *)
Lemma trim_core ws s ws' :
  blank ws → blank ws' →
  s ≠ "" → JS.trimStart s = s → JS.trimEnd s = s →
  JS.trim (ws +:+ s +:+ ws') = s.
Proof.
  intros Hws Hws' Hne Hs He. unfold JS.trim.
  rewrite spaces_trimStart by (by apply blank_spaces).
  rewrite trimStart_append by (by rewrite Hs).
  by rewrite Hs, blank_trimEnd.
Qed.

Lemma space_not_digit c : JS.isSpace c = true → JS.isDigit c = false.
Proof. by destruct c as [[] [] [] [] [] [] [] []]. Qed.

Lemma digit_not_space c : JS.isDigit c = true → JS.isSpace c = false.
Proof. by destruct c as [[] [] [] [] [] [] [] []]. Qed.

Lemma digits_solid d s :
  digits d → JS.trimStart (d +:+ s) = d +:+ s ∧ JS.trimEnd (s +:+ d) = s +:+ d.
Proof.
  intros [Hne Hd].
  assert (∀ t, JS.trimStart (d +:+ t) = d +:+ t) as Hstart.
  { intros t. destruct d as [|c d]; [done|]. rewrite append_cons.
    apply Forall_cons in Hd as [Hc _]. simpl.
    by rewrite (digit_not_space c Hc). }
  split; [apply Hstart|].
  unfold JS.trimEnd. rewrite chars_append, reverse_app, ofChars_app.
  assert (JS.trimStart (JS.ofChars (reverse (JS.chars d)) +:+
                        JS.ofChars (reverse (JS.chars s))) =
          JS.ofChars (reverse (JS.chars d)) +:+
          JS.ofChars (reverse (JS.chars s))) as ->.
  { destruct (reverse (JS.chars d)) as [|c r] eqn:Er.
    - apply (f_equal reverse) in Er. rewrite reverse_involutive in Er.
      destruct d; [done|discriminate].
    - assert (JS.isDigit c = true) as Hc.
      { eapply Forall_forall in Hd; [exact Hd|].
        apply elem_of_reverse. rewrite Er. apply list_elem_of_here. }
      simpl. by rewrite (digit_not_space c Hc). }
  rewrite <-ofChars_app, <-reverse_app, <-chars_append.
  by rewrite chars_ofChars, reverse_involutive, ofChars_chars.
Qed.

(** A numeric suffix with its separator has no white space at its
    ends. *)
Lemma suffix_solid sep s d :
  separator sep → digits d →
  (sep = "" → JS.trimStart (s +:+ d) = s +:+ d) →
  sep +:+ s +:+ d ≠ "" ∧
  JS.trimStart (sep +:+ s +:+ d) = sep +:+ s +:+ d ∧
  JS.trimEnd (sep +:+ s +:+ d) = sep +:+ s +:+ d.
Proof.
  intros Hsep Hd Hs. split_and!.
  - destruct Hsep as [->|(w & _ & ->)]; [|done].
    destruct Hd as [Hne _]. destruct s; [done|discriminate].
  - destruct Hsep as [->|(w & _ & ->)]; [by apply Hs|done].
  - rewrite <-!append_assoc. by apply digits_solid.
Qed.

(** The numeric suffix after a '|': the name before it is empty. *)
Lemma splitNumber_sep ws d :
  blank ws → digits d →
  splitNumber ("|"%char :: JS.chars ws ++ JS.chars d) =
  Some ([], JS.parseDigits (JS.chars d)).
Proof.
  intros Hws%blank_spaces [Hne Hd]. unfold splitNumber.
  rewrite reverse_cons, reverse_app, <-app_assoc.
  assert (Forall (λ c, JS.isDigit c = true) (reverse (JS.chars d))) as Hrd.
  { by apply Forall_reverse. }
  assert (Forall (λ c, JS.isSpace c = true) (reverse (JS.chars ws)))
    as Hrws.
  { by apply Forall_reverse. }
  assert (reverse (JS.chars d) ≠ []) as Hrne.
  { intros Er. apply (f_equal reverse) in Er.
    rewrite reverse_involutive in Er. destruct d; [done|discriminate]. }
  destruct (reverse (JS.chars ws)) as [|w W] eqn:Ew; cbn [app].
  - rewrite span_stop by done.
    destruct (reverse (JS.chars d)) as [|c r] eqn:Er; [done|].
    simpl. by rewrite <-Er, reverse_involutive.
  - apply Forall_cons in Hrws as [Hw HW].
    rewrite span_stop; [|done|by apply space_not_digit].
    destruct (reverse (JS.chars d)) as [|c r] eqn:Er; [done|].
    rewrite Hw. cbn [orb].
    change (w :: W ++ ["|"%char]) with ((w :: W) ++ ["|"%char]).
    rewrite (span_stop JS.isSpace (w :: W) "|"%char []);
      [|by constructor|done].
    simpl. by rewrite <-Er, reverse_involutive.
Qed.

(** A numeric suffix alone: there is no name to read. *)
Lemma splitNumber_bare d :
  digits d → splitNumber (JS.chars d) = None.
Proof.
  intros [Hne Hd]. unfold splitNumber. rewrite span_all.
  - by destruct (reverse (JS.chars d)).
  - by apply Forall_reverse.
Qed.

(** Whatever the separator, no name is read before the number, or an
    empty one. *)
Lemma splitNumber_nameless sep d :
  separator sep → digits d →
  splitNumber (JS.chars (sep +:+ d)) = None ∨
  ∃ n, splitNumber (JS.chars (sep +:+ d)) = Some ([], n).
Proof.
  intros [->|(w & Hw & ->)] Hd.
  - left. by apply splitNumber_bare.
  - right. eexists. rewrite append_assoc, chars_append.
    change (JS.chars "|" ++ JS.chars (w +:+ d))
      with ("|"%char :: JS.chars (w +:+ d)).
    rewrite chars_append. by apply splitNumber_sep.
Qed.

Lemma kinds_apart kind :
  kind ∈ ["N"; "L"; "PC"; "Thread"] →
  (kind ∉ ["Clock"; "Track"; "E"]) ∧ kind ≠ "Timer".
Proof.
  rewrite !elem_of_cons, !elem_of_nil.
  intros [->|[->|[->|[->|[]]]]]; (split; [|done]);
    intros [?|[?|[?|[]]]]; discriminate.
Qed.

Lemma progress_not_timer kind :
  kind ∈ ["Clock"; "Track"; "E"] → kind ≠ "Timer".
Proof.
  rewrite !elem_of_cons, !elem_of_nil. by intros [->|[->|[->|[]]]].
Qed.

Lemma namePart_nameless kind body :
  kind ∈ ["N"; "L"; "PC"; "Thread"] → nameless kind body →
  blank (namePart body).
Proof.
  intros Hkind Hbody. unfold namePart.
  assert (∀ ws, blank ws → "|"%char ∉ JS.chars ws) as Hbar.
  { intros ws Hws. apply blank_without; [done|by apply blank_spaces]. }
  destruct (kinds_apart kind Hkind) as [Hprogress Htimer].
  destruct Hbody as [kind ws Hws|kind ws more _ Hws|
                     kind ws sep current total ws' Hk|
                     ws sep value ws'].
  - by rewrite split_word by auto.
  - change (ws +:+ "|" +:+ more) with (ws +:+ String "|" more).
    by rewrite split_word_sep by auto.
  - done.
  - done.
Qed.

Lemma taggedOf_nameless kind prefix location body :
  kind ∈ ["N"; "L"; "PC"] → nameless kind body →
  taggedOf prefix location body = None.
Proof.
  intros Hkind Hbody. unfold taggedOf.
  rewrite (namePart_nameless kind body); [by rewrite decide_True| |done].
  revert Hkind. rewrite !elem_of_cons. tauto.
Qed.

Lemma threadOf_nameless location body :
  nameless "Thread" body → threadOf location body = None.
Proof.
  intros Hbody. unfold threadOf.
  rewrite (namePart_nameless "Thread" body); [| |done].
  - destruct (tail _); [done|]. by rewrite decide_True by (by left).
  - rewrite !elem_of_cons. tauto.
Qed.

(** The numeric suffix of a progress tag, read from its end. *)
Lemma span_total name total :
  digits total →
  ∃ d ds,
    reverse (JS.chars total) = d :: ds ∧
    JS.span JS.isDigit (reverse (name ++ "/"%char :: JS.chars total)) =
    (d :: ds, "/"%char :: reverse name).
Proof.
  intros [Hne Ht].
  destruct (reverse (JS.chars total)) as [|d ds] eqn:Er.
  { apply (f_equal reverse) in Er. rewrite reverse_involutive in Er.
    destruct total; [done|discriminate]. }
  exists d, ds. split; [done|].
  rewrite reverse_app, reverse_cons, <-app_assoc, Er. cbn [app].
  change (d :: ds ++ "/"%char :: reverse name)
    with ((d :: ds) ++ "/"%char :: reverse name).
  rewrite span_stop; [done| |done].
  rewrite <-Er. by apply Forall_reverse.
Qed.

Lemma progressOf_nameless kind prefix location body :
  kind ∈ ["Clock"; "Track"; "E"] → nameless kind body →
  progressOf prefix location body = None.
Proof.
  intros Hkind Hbody. unfold progressOf, splitProgress.
  pose proof (progress_not_timer kind Hkind) as Htimer.
  destruct Hbody as [kind ws Hws|kind ws more Hk _|
                     kind ws sep current total ws' _ Hws Hsep Hc Ht Hws'|
                     ws sep value ws'].
  - by rewrite Hws.
  - by destruct (kinds_apart kind Hk).
  - destruct (suffix_solid sep (current +:+ "/") total Hsep Ht)
      as (Hne & Hs & He).
    { intros _. rewrite append_assoc. apply (digits_solid current _ Hc). }
    rewrite append_assoc in Hne, Hs, He.
    rewrite trim_core by done.
    assert (JS.chars (sep +:+ current +:+ "/" +:+ total) =
            JS.chars (sep +:+ current) ++ "/"%char :: JS.chars total) as ->.
    { by rewrite <-append_assoc, !chars_append. }
    destruct (span_total (JS.chars (sep +:+ current)) total Ht)
      as (d & ds & Er & ->).
    rewrite reverse_involutive.
    by destruct (splitNumber_nameless sep current Hsep Hc)
      as [-> | [n ->]].
  - done.
Qed.

Lemma timerOf_nameless location body :
  nameless "Timer" body → timerOf location body = None.
Proof.
  intros Hbody. unfold timerOf.
  remember "Timer" as kind eqn:Ek.
  destruct Hbody as [kind ws Hws|kind ws more Hk _|
                     kind ws sep current total ws' Hk|
                     ws sep value ws' Hws Hsep Hv Hws'].
  - by rewrite Hws.
  - subst kind. by destruct (kinds_apart "Timer" Hk).
  - subst kind. by destruct (progress_not_timer "Timer" Hk).
  - destruct (suffix_solid sep "" value Hsep Hv) as (Hne & Hs & He).
    { intros _. rewrite <-(append_nil_r value) at 1 2.
      apply (digits_solid value "" Hv). }
    rewrite !append_nil_l in Hne, Hs, He.
    rewrite trim_core by done.
    by destruct (splitNumber_nameless sep value Hsep Hv)
      as [-> | [n ->]].
Qed.

(** C8. A bracketed tag of any kind whose name part is empty after
    trimming yields no mention of any kind, wherever it stands: the
    mentions and the back-references of a text that holds it are those
    of the text before it followed by those of the text after it, each
    extracted as if it stood alone, and the tag alone yields nothing.
    The body of the tag is what stands between the colon and the closing
    bracket (it holds no bracket), and the text before the tag leaves no
    tag open.  The extractor is total, so nothing is raised. *)
Theorem empty_name_tag_skipped
    (kind body before rest : string) (location : Location) :
  kind ∈ keywords →
  nameless kind body →
  without ["["; "]"]%char body →
  closed before →
  extractTags (before +:+ tagText kind body +:+ rest) location =
    NotationParser.appendTags (extractTags before location)
      (extractTags rest location) ∧
  extractReferences (before +:+ tagText kind body +:+ rest) =
    extractReferences before ++ extractReferences rest ∧
  extractTags (tagText kind body) location = Tags.empty ∧
  extractReferences (tagText kind body) = [].
Proof.
  intros Hkind Hbody Hfree Hbefore.
  assert ("["%char ∉ JS.chars body) as Hopen.
  { intros Hin. eapply Forall_forall in Hfree; [|exact Hin].
    apply Hfree. apply list_elem_of_here. }
  assert ("]"%char ∉ JS.chars body) as Hclose.
  { intros Hin. eapply Forall_forall in Hfree; [|exact Hin].
    apply Hfree. apply list_elem_of_further, list_elem_of_here. }
  assert (∀ before rest, closed before →
            extractTags (before +:+ tagText kind body +:+ rest) location =
            NotationParser.appendTags (extractTags before location)
              (extractTags rest location)) as Htags.
  { intros before' rest' Hbefore'.
    unfold extractTags, NotationParser.appendTags, extractNPCs,
      extractLocations, extractThreads, extractClocks, extractTracks,
      extractTimers, extractEvents, extractPlayerCharacters.
    cbn [Tags.npcs Tags.locations Tags.threads Tags.clocks Tags.tracks
         Tags.timers Tags.events Tags.playerCharacters].
    f_equal; apply omap_text; try done; try (by apply indexOf_None);
      intros <-.
    - apply (taggedOf_nameless "N"); [|done]. apply list_elem_of_here.
    - apply (taggedOf_nameless "L"); [|done].
      apply list_elem_of_further, list_elem_of_here.
    - by apply threadOf_nameless.
    - apply (progressOf_nameless "Clock"); [|done]. apply list_elem_of_here.
    - apply (progressOf_nameless "Track"); [|done].
      apply list_elem_of_further, list_elem_of_here.
    - by apply timerOf_nameless.
    - apply (progressOf_nameless "E"); [|done].
      do 2 apply list_elem_of_further. apply list_elem_of_here.
    - apply (taggedOf_nameless "PC"); [|done].
      do 2 apply list_elem_of_further. apply list_elem_of_here. }
  assert (∀ before rest, closed before →
            extractReferences (before +:+ tagText kind body +:+ rest) =
            extractReferences before ++ extractReferences rest) as Hrefs.
  { intros before' rest' Hbefore'. unfold extractReferences.
    rewrite chars_append, refBodies_app by (done || lia).
    rewrite refBodies_text by done. by rewrite omap_app. }
  split_and!.
  - by apply Htags.
  - by apply Hrefs.
  - rewrite <-(append_nil_r (tagText kind body)).
    rewrite <-(append_nil_l (tagText kind body +:+ "")).
    by rewrite Htags.
  - rewrite <-(append_nil_r (tagText kind body)).
    rewrite <-(append_nil_l (tagText kind body +:+ "")).
    by rewrite Hrefs.
Qed.

End EmptyName.

(** The malformed tags of the test suite, one after the other; and tags
    without a name of the progress kinds and of a timer, among
    well-formed tags. *)
Lemma empty_name_tag_skipped_witness :
  TagExtractorModel.extractTags "[N:] [L:] [Thread:]" (Sample.at_line 10) =
    Tags.empty ∧
  TagExtractorModel.extractTags "[N:Grim] [Clock:|3/6][L:Cave]"
    (Sample.at_line 10) =
    TagExtractorModel.extractTags "[N:Grim] [L:Cave]" (Sample.at_line 10) ∧
  TagExtractorModel.extractTags "[Clock:Doom 1/4] [Timer: 5] [E:|1/4]"
    (Sample.at_line 10) =
    TagExtractorModel.extractTags "[Clock:Doom 1/4]" (Sample.at_line 10).
Proof.
  split_and!.
  - destruct (empty_name_tag_skipped "N" "" "" " [L:] [Thread:]"
                (Sample.at_line 10)) as [H1 _].
    + apply list_elem_of_here.
    + by apply nameless_blank.
    + constructor.
    + exact I.
    + etrans; [exact H1|]. reflexivity.
  - destruct (empty_name_tag_skipped "Clock" "|3/6" "[N:Grim] " "[L:Cave]"
                (Sample.at_line 10)) as [H1 _].
    + by apply (bool_decide_unpack _).
    + apply (nameless_progress "Clock" "" "|" "3" "6" "");
        [apply list_elem_of_here|reflexivity|by right; exists ""| |
         |reflexivity];
        (split; [done|by repeat constructor]).
    + unfold without. repeat constructor; by apply (bool_decide_unpack _).
    + unfold closed. simpl. split_and!; try done;
        intros _; by apply (bool_decide_unpack _).
    + etrans; [exact H1|]. reflexivity.
  - destruct (empty_name_tag_skipped "Timer" " 5" "[Clock:Doom 1/4] "
                " [E:|1/4]" (Sample.at_line 10)) as [H1 _].
    + by apply (bool_decide_unpack _).
    + apply (nameless_timer " " "" "5" "");
        [reflexivity|by left|split; [done|by repeat constructor]
        |reflexivity].
    + unfold without. repeat constructor; by apply (bool_decide_unpack _).
    + unfold closed. simpl. split_and!; try done;
        intros _; by apply (bool_decide_unpack _).
    + etrans; [exact H1|]. reflexivity.
Defined.

(** ** Further properties of the merge engine *)
Section MergeEngine.
Import NotationParser.

Lemma sliceTo_without s c i :
  JS.indexOf s c = Some i → c ∉ JS.chars (JS.sliceTo s i).
Proof.
  revert i. induction s as [|d s IH]; simpl; intros i; [done|].
  case_decide as Hd.
  - intros [= <-]. apply not_elem_of_nil.
  - destruct (JS.indexOf s c) as [j|]; simpl; [|done].
    intros [= <-]. simpl. rewrite not_elem_of_cons. split; [congruence|].
    by apply IH.
Qed.

Lemma filter_filter_same {A} (P : A → Prop) `{!∀ x, Decision (P x)}
    (l : list A) :
  filter P (filter P l) = filter P l.
Proof.
  induction l as [|x l IH]; [done|].
  rewrite filter_cons. case_decide; [|done].
  rewrite filter_cons, decide_True by done. by rewrite IH.
Qed.

Lemma filter_none {A} (P : A → Prop) `{!∀ x, Decision (P x)}
    (l : list A) :
  Forall (λ x, ¬ P x) l → filter P l = [].
Proof.
  induction 1 as [|x l Hx _ IH]; [done|].
  by rewrite filter_cons, decide_False.
Qed.

Lemma filter_all {A} (P : A → Prop) `{!∀ x, Decision (P x)}
    (l : list A) :
  Forall P l → filter P l = l.
Proof.
  induction 1 as [|x l Hx _ IH]; [done|].
  rewrite filter_cons, decide_True by done. by rewrite IH.
Qed.

(** X1. The key of a tag holds no '=': taking the key of a key changes
    nothing. *)
Theorem getTagKey_idempotent (tag : string) :
  ("="%char ∉ JS.chars (getTagKey tag)) ∧
  getTagKey (getTagKey tag) = getTagKey tag.
Proof.
  assert ("="%char ∉ JS.chars (getTagKey tag)) as Hn.
  { unfold getTagKey. destruct (JS.indexOf tag "="%char) as [i|] eqn:E.
    - by apply sliceTo_without.
    - by apply indexOf_None. }
  split; [done|]. by apply getTagKey_plain.
Qed.

(** X2. Applying the same tag of a mention a second time changes nothing,
    whatever the tag (removal, keyed or plain) and whatever the list. *)
Theorem applyTag_idempotent (existingTags : list string) (tag : string) :
  applyTag (applyTag existingTags tag) tag = applyTag existingTags tag.
Proof.
  unfold applyTag. destruct (JS.startsWith tag "-").
  { apply filter_filter_same. }
  cbv zeta. destruct (decide (getTagKey tag ≠ tag)) as [Hk|Hk].
  - assert (tag ∉ filter (λ t, getTagKey t ≠ getTagKey tag) existingTags)
      as Hout by (rewrite list_elem_of_filter; by intros [Hne _]).
    destruct (decide (tag ∈ filter _ existingTags)) as [?|_]; [done|].
    rewrite filter_app, filter_filter_same.
    rewrite (filter_cons _ tag), filter_nil.
    destruct (decide (getTagKey tag ≠ getTagKey tag)) as [?|_]; [done|].
    rewrite app_nil_r. by rewrite decide_False.
  - destruct (decide (tag ∈ existingTags)) as [Hin|Hin].
    + by rewrite decide_True.
    + rewrite decide_True; [done|].
      apply elem_of_app. right. by apply list_elem_of_singleton.
Qed.

(** X3. A removal takes out every occurrence of the tag it names, and leaves
    the list as it is when the tag is not there. *)
Theorem applyTag_removal (existingTags : list string) (name : string) :
  (name ∉ applyTag existingTags ("-" +:+ name)) ∧
  (name ∉ existingTags →
   applyTag existingTags ("-" +:+ name) = existingTags).
Proof.
  assert (applyTag existingTags ("-" +:+ name) =
          filter (λ t, t ≠ name) existingTags) as ->.
  { unfold applyTag. cbv [String.append]. simpl.
    by rewrite startsWith_empty, sliceFrom_0. }
  split.
  - rewrite list_elem_of_filter. by intros [Hne _].
  - intros Hn. apply filter_all, Forall_forall. by intros x Hx ->.
Qed.

Lemma applyTag_removal_witness :
  ("old" ∉ applyTag ["old"; "brave"; "old"] "-old") ∧
  applyTag ["brave"] "-old" = ["brave"].
Proof.
  destruct (applyTag_removal ["old"; "brave"; "old"] "old") as [H1 _].
  destruct (applyTag_removal ["brave"] "old") as [_ H2].
  split; [exact H1|]. apply H2. by vm_compute.
Defined.

(** X4. After a keyed tag ("key=value") is applied, it is the only tag of its
    key in the list, and the tags of the other keys are those that were
    there, in their order. *)
Theorem applyTag_keyed_unique (existingTags : list string) (tag : string) :
  JS.startsWith tag "-" = false → "="%char ∈ JS.chars tag →
  filter (λ t, getTagKey t = getTagKey tag) (applyTag existingTags tag) =
    [tag] ∧
  filter (λ t, getTagKey t ≠ getTagKey tag) (applyTag existingTags tag) =
    filter (λ t, getTagKey t ≠ getTagKey tag) existingTags.
Proof.
  intros Hs Hk. rewrite applyTag_keyed by done. rewrite !filter_app.
  rewrite filter_filter_same.
  rewrite !(filter_cons _ tag), !filter_nil.
  rewrite decide_True by done. rewrite decide_False by (by intros Hne).
  rewrite app_nil_r. split; [|done].
  rewrite filter_none; [done|].
  apply Forall_forall. intros x [Hne _]%list_elem_of_filter. done.
Qed.

Lemma applyTag_keyed_unique_witness :
  filter (λ t, getTagKey t = getTagKey "hp=5")
    (applyTag ["hp=3"; "brave"; "hp"; "hp=4"] "hp=5") = ["hp=5"] ∧
  applyTag ["hp=3"; "brave"; "hp"; "hp=4"] "hp=5" = ["brave"; "hp=5"].
Proof.
  destruct (applyTag_keyed_unique ["hp=3"; "brave"; "hp"; "hp=4"] "hp=5")
    as [H1 _]; [reflexivity|by apply (bool_decide_unpack _)|].
  split; [exact H1|reflexivity].
Defined.

End MergeEngine.

(** ** The canonical records *)
Section MergedRecords.
Import NotationParser.

(** X5. The record that [mergeNPCs], [mergeLocations] and
    [mergePlayerCharacters] store under a key is made from the mentions of
    that key alone, in the order of the list: the first mention gives the
    id, the name and [firstMention], the tags of the later mentions are
    applied in order to the tags of the first, and the locations of all of
    them are kept in order.  The mentions of other keys play no part. *)
Theorem merged_record_of_mentions
    (mentions : list Tagged.t) (key : string)
    (first : Tagged.t) (rest : list Tagged.t) :
  filter (λ m, Tagged.id m = key) mentions = first :: rest →
  mergeNPCs mentions !! key = Some (taggedOfMentions first rest) ∧
  mergeLocations mentions !! key = Some (taggedOfMentions first rest) ∧
  mergePlayerCharacters mentions !! key =
    Some (taggedOfMentions first rest).
Proof.
  intros Hf. unfold mergeNPCs, mergeLocations, mergePlayerCharacters.
  by rewrite mergeTagged_lookup, Hf.
Qed.

Lemma merged_record_of_mentions_witness :
  mergeNPCs
    [Sample.npcMention "Grim" ["friendly"] 1;
     Sample.npcMention "Shadow" ["hostile"] 2;
     Sample.npcMention "GRIM" ["-friendly"; "wounded"] 3] !! "npc:grim" =
  Some (Tagged.mk "npc:grim" "Grim" ["wounded"] (Sample.at_line 1)
          [Sample.at_line 1; Sample.at_line 3]).
Proof.
  destruct (merged_record_of_mentions
    [Sample.npcMention "Grim" ["friendly"] 1;
     Sample.npcMention "Shadow" ["hostile"] 2;
     Sample.npcMention "GRIM" ["-friendly"; "wounded"] 3] "npc:grim"
    (Sample.npcMention "Grim" ["friendly"] 1)
    [Sample.npcMention "GRIM" ["-friendly"; "wounded"] 3]) as [H1 _];
    [reflexivity|].
  exact H1.
Defined.

Lemma list_to_set_remove_dups (l : list string) :
  list_to_set (C := gset string) (remove_dups l) = list_to_set l.
Proof.
  apply set_eq. intros x.
  by rewrite !elem_of_list_to_set, elem_of_remove_dups.
Qed.

(** X6. The merged map holds exactly the ids that occur among the mentions:
    one record per distinct id, and none for an id that no mention
    carries. *)
Theorem merged_keys (mentions : list Tagged.t) :
  dom (mergeNPCs mentions) = list_to_set (Tagged.id <$> mentions) ∧
  size (mergeNPCs mentions) =
    length (remove_dups (Tagged.id <$> mentions)).
Proof.
  assert (dom (mergeNPCs mentions) = list_to_set (Tagged.id <$> mentions))
    as Hdom.
  { apply set_eq. intros k. unfold mergeNPCs.
    rewrite elem_of_dom, mergeTagged_lookup, elem_of_list_to_set.
    rewrite list_elem_of_fmap.
    destruct (filter _ mentions) as [|first rest] eqn:Ef.
    - split; [by intros [? ?]|]. intros (m & -> & Hm).
      assert (m ∈ filter (λ m0, Tagged.id m0 = Tagged.id m) mentions) as Hin
        by (by apply list_elem_of_filter).
      rewrite Ef in Hin. by apply elem_of_nil in Hin.
    - split; [|by eexists]. intros _.
      assert (first ∈ filter (λ m, Tagged.id m = k) mentions) as Hin
        by (rewrite Ef; apply list_elem_of_here).
      apply list_elem_of_filter in Hin as [Hid Hin]. by exists first. }
  split; [done|].
  rewrite <-size_dom, Hdom, <-list_to_set_remove_dups.
  apply size_list_to_set, NoDup_remove_dups.
Qed.

(** X7. The record of a reference key is made from the back-references of
    that key alone: the first gives the id, the name, the kind and
    [firstMention], and the locations of all of them are kept in order;
    a key that no back-reference has is absent. *)
Theorem mergeReferences_lookup (references : list Reference.t) (key : string) :
  mergeReferences references !! key =
  match filter (λ r, referenceKey r = key) references with
  | [] => None
  | first :: rest => Some (referenceOfMentions first rest)
  end.
Proof.
  induction references as [|m l IH] using rev_ind; [done|].
  rewrite mergeReferences_snoc, filter_app. unfold mergeReferencesStep.
  rewrite filter_cons, filter_nil. cbv zeta.
  destruct (decide (referenceKey m = key)) as [<-|Hne].
  - destruct (filter _ l) as [|first rest] eqn:Ef; rewrite IH.
    + rewrite lookup_insert_eq. simpl. f_equal.
      unfold referenceOfMentions. destruct m; simpl. by rewrite app_nil_r.
    + rewrite lookup_insert_eq. simpl. f_equal.
      unfold referenceOfMentions. simpl. f_equal.
      rewrite fmap_app, concat_app. simpl.
      by rewrite app_nil_r, app_assoc.
  - rewrite app_nil_r.
    destruct (mergeReferences l !! referenceKey m);
      by rewrite lookup_insert_ne.
Qed.

End MergedRecords.

(** ** The code blocks of a scene *)
Section SceneContent.
Import NotationParser.
Context `{!CodeBlockParser}.

(** The elements found so far are kept in front of those found later. *)
Lemma sceneContentLoop_elements base i ls elements b content start :
  sceneContentLoop base i ls elements b content start =
  elements ++ sceneContentLoop base i ls [] b content start.
Proof.
  revert i elements b content start.
  induction ls as [|line rest IH]; intros i elements b content start; simpl.
  - by rewrite app_nil_r.
  - case_decide; destruct b; try apply IH.
    rewrite IH, (IH _ (parseCodeBlock _ _)). by rewrite app_assoc.
Qed.

(** Outside a block, the start line of the last block plays no part. *)
Lemma sceneContentLoop_start base i ls elements content start start' :
  sceneContentLoop base i ls elements false content start =
  sceneContentLoop base i ls elements false content start'.
Proof.
  revert i elements content start start'.
  induction ls as [|line rest IH]; intros i elements content start start';
    simpl; [done|].
  case_decide; [done|apply IH].
Qed.

(** Only the sum of the base line and of the index matters. *)
Lemma sceneContentLoop_shift k base i ls elements b content start :
  sceneContentLoop base (i + k) ls elements b content (start + k) =
  sceneContentLoop (base + k) i ls elements b content start.
Proof.
  revert i elements b content start.
  induction ls as [|line rest IH]; intros i elements b content start; simpl;
    [done|].
  replace (i + k + 1) with (i + 1 + k) by lia.
  case_decide; destruct b; try apply IH.
  replace (base + (start + k)) with (base + k + start) by lia. apply IH.
Qed.

(** Lines outside any block are skipped. *)
Lemma sceneContentLoop_prose base i pre rest elements content start :
  Forall (λ l, ¬ isFence l) pre →
  sceneContentLoop base i (pre ++ rest) elements false content start =
  sceneContentLoop base (i + count pre) rest elements false content start.
Proof.
  intros Hpre. revert i.
  induction Hpre as [|l pre Hl _ IH]; intros i; simpl.
  - f_equal. unfold count. simpl. lia.
  - unfold isFence in Hl. rewrite decide_False by done. rewrite IH.
    f_equal. unfold count. simpl. lia.
Qed.

(** Lines inside a block are gathered. *)
Lemma sceneContentLoop_body base i body rest elements content start :
  Forall (λ l, ¬ isFence l) body →
  sceneContentLoop base i (body ++ rest) elements true content start =
  sceneContentLoop base (i + count body) rest elements true
    (content ++ body) start.
Proof.
  intros Hbody. revert i content.
  induction Hbody as [|l body Hl _ IH]; intros i content; simpl.
  - rewrite app_nil_r. f_equal. unfold count. simpl. lia.
  - unfold isFence in Hl. rewrite decide_False by done. rewrite IH.
    rewrite <-app_assoc. simpl. f_equal. unfold count. simpl. lia.
Qed.

(** A run of lines that leaves the scan outside any block can be parsed
    on its own. *)
Lemma sceneContentLoop_balanced base i pre elements b content start :
  insideBlock b pre = false → (b = false → content = []) →
  ∃ elements' start',
    (∀ rest,
       sceneContentLoop base i (pre ++ rest) elements b content start =
       sceneContentLoop base (i + count pre) rest elements' false []
         start').
Proof.
  revert i elements b content start.
  induction pre as [|l pre IH]; intros i elements b content start Hin Hc;
    simpl in *.
  - subst b. rewrite Hc by done. exists elements, start. intros rest'.
    f_equal. unfold count. simpl. lia.
  - unfold isFence in Hin.
    destruct (decide (JS.trim l = "```")); destruct b; simpl in Hin.
    + destruct (IH (i + 1) (elements ++ parseCodeBlock (unlines content)
                                (base + start)) false [] start Hin)
        as (e' & s' & H'); [done|].
      exists e', s'. intros rest'. rewrite H'. f_equal.
      unfold count. simpl. lia.
    + destruct (IH (i + 1) elements true content (i + 1) Hin)
        as (e' & s' & H'); [done|].
      exists e', s'. intros rest'. rewrite H'. f_equal.
      unfold count. simpl. lia.
    + destruct (IH (i + 1) elements true (content ++ [l]) start Hin)
        as (e' & s' & H'); [done|].
      exists e', s'. intros rest'. rewrite H'. f_equal.
      unfold count. simpl. lia.
    + destruct (IH (i + 1) elements false content start Hin)
        as (e' & s' & H'); [done|].
      exists e', s'. intros rest'. rewrite H'. f_equal.
      unfold count. simpl. lia.
Qed.

Lemma sceneContentLoop_app base pre rest :
  insideBlock false pre = false →
  sceneContentLoop base 0 (pre ++ rest) [] false [] 0 =
  sceneContentLoop base 0 pre [] false [] 0 ++
  sceneContentLoop (base + count pre) 0 rest [] false [] 0.
Proof.
  intros Hin.
  destruct (sceneContentLoop_balanced base 0 pre [] false [] 0 Hin)
    as (e' & s' & H'); [done|].
  rewrite H'. specialize (H' []). rewrite app_nil_r in H'. rewrite H'.
  simpl. rewrite sceneContentLoop_elements. f_equal.
  rewrite (sceneContentLoop_start _ _ _ _ _ s' (0 + count pre)).
  apply (sceneContentLoop_shift (count pre) base 0).
Qed.

(** The lines of a joined list of lines, for the scan of a scene. *)
Lemma parseSceneContent_unlines ls filePath base :
  Forall (λ w, JS.newline ∉ JS.chars w) ls →
  parseSceneContent (unlines ls) filePath base =
  sceneContentLoop base 0 ls [] false [] 0.
Proof.
  intros Hls. unfold parseSceneContent.
  destruct ls as [|l ls]; [done|]. by rewrite lines_unlines.
Qed.

(** X8. Text that holds no fence line yields no element: what is written
    outside code blocks is not notation. *)
Theorem parseSceneContent_prose
    (content filePath : string) (baseLineNumber : Z) :
  Forall (λ l, ¬ isFence l) (lines content) →
  parseSceneContent content filePath baseLineNumber = [].
Proof.
  intros Hall. unfold parseSceneContent.
  rewrite <-(app_nil_r (lines content)).
  by rewrite sceneContentLoop_prose.
Qed.

(** A closed block in the loop of [parseSceneContent]. *)
Lemma sceneContentLoop_block base pre opening body closing post :
  insideBlock false pre = false →
  isFence opening → Forall (λ l, ¬ isFence l) body → isFence closing →
  sceneContentLoop base 0 (pre ++ opening :: body ++ closing :: post)
    [] false [] 0 =
  sceneContentLoop base 0 pre [] false [] 0 ++
  parseCodeBlock (unlines body) (base + count pre + 1) ++
  sceneContentLoop (base + count pre + count body + 2) 0 post [] false [] 0.
Proof.
  intros Hpre Ho Hbody Hc.
  rewrite sceneContentLoop_app by done. f_equal.
  unfold isFence in Ho, Hc. simpl. rewrite decide_True by done.
  rewrite sceneContentLoop_body by done. simpl.
  rewrite decide_True by done.
  rewrite sceneContentLoop_elements. simpl. f_equal.
  rewrite (sceneContentLoop_start _ _ _ _ _ _ (0 + (count body + 2))).
  replace (0 + 1 + count body + 1) with (0 + (count body + 2)) by lia.
  rewrite sceneContentLoop_shift. f_equal. lia.
Qed.

(** X9. A closed code block is handed to [parseCodeBlock] as the text of its
    inner lines, with the start line [baseLineNumber + i + 1] where [i] is
    the index of its opening fence; the elements of the text before it
    come first and those of the text after it follow, each parsed as if
    it stood alone (with the base line moved for the latter). *)
Theorem parseSceneContent_block
    (content filePath : string) (baseLineNumber : Z)
    (pre : list string) (opening : string) (body : list string)
    (closing : string) (post : list string) :
  lines content = pre ++ opening :: body ++ closing :: post →
  insideBlock false pre = false →
  isFence opening → Forall (λ l, ¬ isFence l) body → isFence closing →
  parseSceneContent content filePath baseLineNumber =
  parseSceneContent (unlines pre) filePath baseLineNumber ++
  parseCodeBlock (unlines body) (baseLineNumber + count pre + 1) ++
  parseSceneContent (unlines post) filePath
    (baseLineNumber + count pre + count body + 2).
Proof.
  intros Hlines Hpre Ho Hbody Hc.
  pose proof (split_no_sep content JS.newline) as Hall.
  fold (lines content) in Hall. rewrite Hlines in Hall.
  apply Forall_app in Hall as [Hall1 Hall2].
  apply Forall_cons in Hall2 as [_ Hall2].
  apply Forall_app in Hall2 as [_ Hall2].
  apply Forall_cons in Hall2 as [_ Hall2].
  rewrite !parseSceneContent_unlines by done.
  unfold parseSceneContent. rewrite Hlines.
  by apply sceneContentLoop_block.
Qed.

End SceneContent.

(** Two blocks with prose around them, in a scene whose heading is on
    line 10: the blocks start on the lines 12 and 16 of that count. *)
Lemma parseSceneContent_block_witness :
  NotationParser.parseSceneContent
    (NotationParser.unlines
       ["Prose."; "```"; "> Enter the cave"; "```"; "More prose."; "```";
        "? Is it dark?"; "```"])
    "campaign.md" 10 =
  [Element.mk 12 (Element.action "Enter the cave");
   Element.mk 16 (Element.oracle_question "Is it dark?")].
Proof.
  rewrite (parseSceneContent_block _ "campaign.md" 10
             ["Prose."] "```" ["> Enter the cave"] "```"
             ["More prose."; "```"; "? Is it dark?"; "```"]).
  - reflexivity.
  - reflexivity.
  - reflexivity.
  - reflexivity.
  - repeat constructor; unfold isFence; vm_compute; discriminate.
  - reflexivity.
Defined.

Lemma parseSceneContent_prose_witness :
  NotationParser.parseSceneContent
    (NotationParser.unlines ["> Enter the cave"; "[N:Grim|friendly]"])
    "campaign.md" 10 = [].
Proof.
  apply parseSceneContent_prose.
  replace (NotationParser.lines _)
    with ["> Enter the cave"; "[N:Grim|friendly]"] by reflexivity.
  repeat constructor; unfold isFence; vm_compute; discriminate.
Defined.

(** ** The scenes of a session *)
Section Scenes.
Import NotationParser.
Context `{!CodeBlockParser}.

Lemma scenesLoop_scenes filePath base i ls scenes cur content start :
  scenesLoop filePath base i ls scenes cur content start =
  scenes ++ scenesLoop filePath base i ls [] cur content start.
Proof.
  revert i scenes cur content start.
  induction ls as [|line rest IH]; intros i scenes cur content start; simpl.
  - done.
  - destruct (matchSceneHeader line) as [[number ctx]|].
    + rewrite IH, (IH _ (savedScene _ _ _ _ _ _)). by rewrite app_assoc.
    + destruct cur; apply IH.
Qed.

(** Before the first heading, the content and the start line of the
    current scene play no part. *)
Lemma scenesLoop_None filePath base i ls scenes content start :
  scenesLoop filePath base i ls scenes None content start =
  scenesLoop filePath base i ls scenes None [] 0.
Proof.
  revert i scenes.
  induction ls as [|line rest IH]; intros i scenes; simpl; [done|].
  destruct (matchSceneHeader line) as [[number ctx]|]; [done|apply IH].
Qed.

(** Only the sum of the base line and of the index matters. *)
Lemma scenesLoop_shift filePath k base i ls scenes cur content start :
  scenesLoop filePath base (i + k) ls scenes cur content (start + k) =
  scenesLoop filePath (base + k) i ls scenes cur content start.
Proof.
  revert i scenes cur content start.
  induction ls as [|line rest IH]; intros i scenes cur content start; simpl.
  - unfold savedScene.
    replace (base + (start + k)) with (base + k + start) by lia.
    by replace (base + (i + k) - 1) with (base + k + i - 1) by lia.
  - replace (i + k + 1) with (i + 1 + k) by lia.
    destruct (matchSceneHeader line) as [[number ctx]|].
    + unfold savedScene.
      replace (base + (start + k)) with (base + k + start) by lia.
      replace (base + (i + k) - 1) with (base + k + i - 1) by lia.
      replace (base + (i + k)) with (base + k + i) by lia.
      apply IH.
    + destruct cur; apply IH.
Qed.

(** At the end of the text or at a heading, the current scene is saved
    and the scan starts afresh. *)
Lemma scenesLoop_ends filePath base i rest scenes cur content start :
  endsBody isSceneHeader rest →
  scenesLoop filePath base i rest scenes cur content start =
  (scenes ++ savedScene filePath base cur content start (base + i - 1)) ++
  scenesLoop filePath base i rest [] None [] 0.
Proof.
  destruct rest as [|line rest]; simpl.
  - intros _. by rewrite app_nil_r.
  - intros [[number ctx] Hh]. rewrite Hh. simpl.
    by rewrite scenesLoop_scenes.
Qed.

Lemma scenesLoop_split filePath base i pre rest scenes cur content start :
  endsBody isSceneHeader rest →
  scenesLoop filePath base i (pre ++ rest) scenes cur content start =
  scenesLoop filePath base i pre scenes cur content start ++
  scenesLoop filePath base (i + count pre) rest [] None [] 0.
Proof.
  intros Hrest. revert i scenes cur content start.
  induction pre as [|line pre IH]; intros i scenes cur content start.
  - simpl. rewrite scenesLoop_ends by done. do 2 f_equal.
    unfold count. simpl. lia.
  - simpl. replace (i + count (line :: pre)) with (i + 1 + count pre)
      by (unfold count; simpl length; lia).
    destruct (matchSceneHeader line) as [[number ctx]|]; [apply IH|].
    destruct cur; apply IH.
Qed.

(** The lines of a scene's body are gathered. *)
Lemma scenesLoop_body filePath base i body rest scenes c content start :
  Forall (λ l, ¬ isSceneHeader l) body →
  scenesLoop filePath base i (body ++ rest) scenes (Some c) content start =
  scenesLoop filePath base (i + count body) rest scenes (Some c)
    (content ++ body) start.
Proof.
  intros Hbody. revert i content.
  induction Hbody as [|l body Hl _ IH]; intros i content; simpl.
  - rewrite app_nil_r. f_equal. unfold count. simpl. lia.
  - unfold isSceneHeader in Hl.
    destruct (matchSceneHeader l) as [p|]; [by destruct Hl|].
    rewrite IH, <-app_assoc. simpl. f_equal.
    unfold count. simpl length. lia.
Qed.

Lemma parseScenes_unlines ls filePath base :
  Forall (λ w, JS.newline ∉ JS.chars w) ls →
  parseScenes (unlines ls) filePath base =
  scenesLoop filePath base 0 ls [] None [] 0.
Proof.
  intros Hls. unfold parseScenes.
  destruct ls as [|l ls]; [done|]. by rewrite lines_unlines.
Qed.

(** A scene in the loop of [parseScenes]. *)
Lemma scenesLoop_scene filePath base pre heading body rest number ctx :
  matchSceneHeader heading = Some (number, ctx) →
  Forall (λ l, ¬ isSceneHeader l) body →
  endsBody isSceneHeader rest →
  scenesLoop filePath base 0 (pre ++ heading :: body ++ rest) [] None [] 0 =
  scenesLoop filePath base 0 pre [] None [] 0 ++
  Scene.mk number number
    (if decide (JS.trim ctx = "") then None else Some (JS.trim ctx))
    (base + count pre) (base + count pre + count body)
    (parseSceneContent (unlines body) filePath (base + count pre))
  :: scenesLoop filePath (base + count pre + count body + 1) 0 rest
       [] None [] 0.
Proof.
  intros Hh Hbody Hrest.
  rewrite scenesLoop_split by (simpl; by eexists). f_equal.
  simpl. rewrite Hh. simpl.
  rewrite scenesLoop_body by done. simpl.
  rewrite scenesLoop_ends by done. simpl. unfold closeScene. simpl.
  rewrite !Z.add_0_l. f_equal.
  - f_equal. lia.
  - etrans;
      [symmetry;
       apply (scenesLoop_None _ _ _ _ _ []
                (0 + (count pre + count body + 1)))|].
    replace (count pre + 1 + count body)
      with (0 + (count pre + count body + 1)) by lia.
    rewrite scenesLoop_shift. f_equal. lia.
Qed.

(** X10. A scene heading, the lines that follow it up to the next scene heading
    or to the end of the text, and what comes before and after: the
    scene has the identifier of its heading (as [id] and as [number]), the
    trimmed context or none, the line of its heading as [startLine], the
    last line of its body as [endLine] (both counted from
    [baseLineNumber]), and the elements of its body, parsed with the line
    of the heading as base line.  The scenes of the text before the
    heading come first and those of the text after the body follow, each
    parsed as if it stood alone. *)
Theorem parseScenes_scene
    (content filePath : string) (baseLineNumber : Z)
    (pre : list string) (heading : string) (body rest : list string)
    (number ctx : string) :
  lines content = pre ++ heading :: body ++ rest →
  matchSceneHeader heading = Some (number, ctx) →
  Forall (λ l, ¬ isSceneHeader l) body →
  endsBody isSceneHeader rest →
  parseScenes content filePath baseLineNumber =
  parseScenes (unlines pre) filePath baseLineNumber ++
  Scene.mk number number
    (if decide (JS.trim ctx = "") then None else Some (JS.trim ctx))
    (baseLineNumber + count pre)
    (baseLineNumber + count pre + count body)
    (parseSceneContent (unlines body) filePath (baseLineNumber + count pre))
  :: parseScenes (unlines rest) filePath
       (baseLineNumber + count pre + count body + 1).
Proof.
  intros Hlines Hh Hbody Hrest.
  pose proof (split_no_sep content JS.newline) as Hall.
  fold (lines content) in Hall. rewrite Hlines in Hall.
  apply Forall_app in Hall as [Hall1 Hall2].
  apply Forall_cons in Hall2 as [_ Hall2].
  apply Forall_app in Hall2 as [_ Hall2].
  rewrite !parseScenes_unlines by done.
  unfold parseScenes. rewrite Hlines.
  by apply scenesLoop_scene.
Qed.

(** The lines spanned by what the loop of [parseScenes] returns. *)
Lemma scenesLoop_contiguous filePath base i ls cur content start :
  match cur with
  | Some c =>
      Scene.startLine c ≤ base + i - 1 →
      contiguous (Scene.startLine c)
        (sceneRange <$> scenesLoop filePath base i ls [] cur content start)
        (base + i + count ls - 1)
  | None =>
      match scenesLoop filePath base i ls [] cur content start with
      | [] => True
      | first :: others =>
          base + i ≤ Scene.startLine first ∧
          contiguous (Scene.startLine first) (sceneRange <$> first :: others)
            (base + i + count ls - 1)
      end
  end.
Proof.
  revert i cur content start.
  induction ls as [|line rest IH]; intros i cur content start.
  - destruct cur as [c|]; simpl; [|done].
    intros Hc. unfold count. simpl. lia.
  - simpl. replace (base + i + count (line :: rest) - 1)
      with (base + (i + 1) + count rest - 1)
      by (unfold count; simpl length; lia).
    destruct (matchSceneHeader line) as [[number ctx]|].
    + rewrite scenesLoop_scenes.
      specialize (IH (i + 1)
        (Some (Scene.mk number number
                 (if decide (JS.trim ctx = "") then None
                  else Some (JS.trim ctx))
                 (base + i) (base + i) [])) [] i).
      simpl in IH. specialize (IH ltac:(lia)).
      destruct cur as [c|]; simpl.
      * intros Hc. split_and!; [done|lia|].
        by replace (base + i - 1 + 1) with (base + i) by lia.
      * destruct (scenesLoop _ _ _ rest _ _ _ _) as [|first others];
          [done|].
        simpl in IH. destruct IH as (Hs & Hle & IH).
        unfold sceneRange at 1. simpl. split_and!; [lia|done|done|done].
    + destruct cur as [c|].
      * intros Hc. specialize (IH (i + 1) (Some c) (content ++ [line]) start).
        simpl in IH. apply IH. lia.
      * specialize (IH (i + 1) None content start). simpl in IH.
        destruct (scenesLoop _ _ _ rest _ _ _ _) as [|first others]; [done|].
        destruct IH as [Hle IH]. split; [lia|done].
Qed.

(** X11. The scenes of a text span consecutive runs of lines: the first starts
    at its heading, each of the others starts on the line after the end of
    the one before, none ends before it starts, and the last ends on the
    last line of the text.  The lines before the first heading belong to
    no scene. *)
Theorem parseScenes_contiguous
    (content filePath : string) (baseLineNumber : Z)
    (first : Scene.t) (others : list Scene.t) :
  parseScenes content filePath baseLineNumber = first :: others →
  baseLineNumber ≤ Scene.startLine first ∧
  contiguous (Scene.startLine first) (sceneRange <$> first :: others)
    (baseLineNumber + count (lines content) - 1).
Proof.
  intros Hp. unfold parseScenes in Hp.
  pose proof (scenesLoop_contiguous filePath baseLineNumber 0
                (lines content) None [] 0) as H'.
  simpl in H'. rewrite Hp in H'. destruct H' as [Hle H'].
  split; [lia|].
  by replace (baseLineNumber + count (lines content) - 1)
    with (baseLineNumber + 0 + count (lines content) - 1) by lia.
Qed.

End Scenes.

(** A session whose heading is on line 3 of the document (so that its
    content is parsed with base line 3): a line of notes, the scene S1
    with one block, and the scene S2. *)
Lemma parseScenes_scene_witness :
  NotationParser.parseScenes
    (NotationParser.unlines
       ["notes"; "### S1 *In the forest*"; "```"; "> go"; "```"; "### S2";
        "text"])
    "campaign.md" 3 =
  [Scene.mk "S1" "S1" (Some "In the forest") 4 7
     [Element.mk 5 (Element.action "go")];
   Scene.mk "S2" "S2" None 8 9 []].
Proof.
  rewrite (parseScenes_scene _ "campaign.md" 3 ["notes"]
             "### S1 *In the forest*" ["```"; "> go"; "```"]
             ["### S2"; "text"] "S1" "In the forest").
  - reflexivity.
  - reflexivity.
  - reflexivity.
  - repeat constructor; unfold isSceneHeader; vm_compute;
      by intros [? ?].
  - vm_compute. by eexists.
Defined.

Lemma parseScenes_contiguous_witness :
  contiguous 4
    (sceneRange <$>
     NotationParser.parseScenes
       (NotationParser.unlines
          ["notes"; "### S1 *In the forest*"; "```"; "> go"; "```";
           "### S2"; "text"])
       "campaign.md" 3)
    9.
Proof.
  apply (parseScenes_contiguous
           (NotationParser.unlines
              ["notes"; "### S1 *In the forest*"; "```"; "> go"; "```";
               "### S2"; "text"])
           "campaign.md" 3
           (Scene.mk "S1" "S1" (Some "In the forest") 4 7
              [Element.mk 5 (Element.action "go")])
           [Scene.mk "S2" "S2" None 8 9 []]).
  reflexivity.
Defined.

(** ** The sessions of a document *)
Section Sessions.
Import NotationParser.
Context `{!CodeBlockParser}.

Lemma sessionsLoop_sessions app filePath links i ls sessions cur content
    start :
  sessionsLoop app filePath links i ls sessions cur content start =
  sessions ++ sessionsLoop app filePath links i ls [] cur content start.
Proof.
  revert i sessions cur content start.
  induction ls as [|line rest IH]; intros i sessions cur content start; simpl.
  - done.
  - destruct (matchSessionHeader line) as [number|].
    + rewrite IH, (IH _ (savedSession _ _ _ _ _)). by rewrite app_assoc.
    + destruct cur; [apply IH|].
      destruct (find _ links); [|apply IH].
      rewrite IH, (IH _ (linkedSession _ _)). by rewrite app_assoc.
Qed.

(** Whatever comes first, the loop reaches the lines that follow. *)
Lemma sessionsLoop_reaches app filePath links i pre rest sessions cur content
    start :
  ∃ sessions' cur' content' start',
    sessionsLoop app filePath links i (pre ++ rest) sessions cur content
      start =
    sessionsLoop app filePath links (i + count pre) rest sessions' cur'
      content' start'.
Proof.
  revert i sessions cur content start.
  induction pre as [|line pre IH]; intros i sessions cur content start.
  - exists sessions, cur, content, start. simpl. f_equal.
    unfold count. simpl. lia.
  - simpl. replace (i + count (line :: pre)) with (i + 1 + count pre)
      by (unfold count; simpl length; lia).
    destruct (matchSessionHeader line) as [number|]; [apply IH|].
    destruct cur; [apply IH|]. destruct (find _ links); apply IH.
Qed.

(** The lines of a session's body are gathered. *)
Lemma sessionsLoop_body app filePath links i body rest sessions c content
    start :
  Forall (λ l, ¬ isSessionHeader l) body →
  sessionsLoop app filePath links i (body ++ rest) sessions (Some c) content
    start =
  sessionsLoop app filePath links (i + count body) rest sessions (Some c)
    (content ++ body) start.
Proof.
  intros Hbody. revert i content.
  induction Hbody as [|l body Hl _ IH]; intros i content; simpl.
  - rewrite app_nil_r. f_equal. unfold count. simpl. lia.
  - unfold isSessionHeader in Hl.
    destruct (matchSessionHeader l) as [p|]; [by destruct Hl|].
    rewrite IH, <-app_assoc. simpl. f_equal.
    unfold count. simpl length. lia.
Qed.

(** At the end of the text or at a heading, the open session is saved. *)
Lemma sessionsLoop_ends app filePath links i rest sessions c content start :
  endsBody isSessionHeader rest →
  closeSession filePath c content start (i - 1) ∈
    sessionsLoop app filePath links i rest sessions (Some c) content start.
Proof.
  destruct rest as [|line rest]; simpl.
  - intros _. apply elem_of_app. right. apply list_elem_of_here.
  - intros [number Hh]. rewrite Hh. rewrite sessionsLoop_sessions.
    apply elem_of_app. left. apply elem_of_app. right.
    apply list_elem_of_here.
Qed.

(** An inline session in the loop of [parseSessions]. *)
Lemma sessionsLoop_inline app filePath links pre heading body rest number :
  matchSessionHeader heading = Some number →
  Forall (λ l, ¬ isSessionHeader l) body →
  endsBody isSessionHeader rest →
  inlineSession filePath number (count pre) body rest ∈
    sessionsLoop app filePath links 0 (pre ++ heading :: body ++ rest)
      [] None [] 0.
Proof.
  intros Hh Hbody Hrest.
  destruct (sessionsLoop_reaches app filePath links 0 pre
              (heading :: body ++ rest) [] None [] 0)
    as (sessions' & cur' & content' & start' & ->).
  simpl. rewrite Hh. rewrite sessionsLoop_body by done.
  match goal with
  | |- _ ∈ sessionsLoop _ _ _ ?i _ _ (Some ?c) ?ct ?st =>
      pose proof (sessionsLoop_ends app filePath links i rest
                    (sessions' ++
                     savedSession filePath cur' content' start'
                       (0 + count pre - 1)) c ct st Hrest) as Hin
  end.
  revert Hin. unfold closeSession, inlineSession. simpl.
  rewrite Z.add_0_l.
  by replace (count pre + 1 + count body - 1)
    with (count pre + count body) by lia.
Qed.

(** X12. Every session heading of a document yields its inline session,
    whatever precedes it and whatever the host application: the number
    is that of the heading, the dates and the other metadata are read on
    the line that follows the heading, [startLine] is the line of the
    heading, [endLine] the last line before the next session heading (or
    the last line of the document), and the scenes are those of the lines
    in between, parsed with the line of the heading as base line. *)
Theorem parseSessions_inline
    (app : option App) (content filePath : string)
    (pre : list string) (heading : string) (body rest : list string)
    (number : Z) :
  lines content = pre ++ heading :: body ++ rest →
  matchSessionHeader heading = Some number →
  Forall (λ l, ¬ isSessionHeader l) body →
  endsBody isSessionHeader rest →
  inlineSession filePath number (count pre) body rest ∈
    parseSessions app content filePath.
Proof.
  intros Hlines Hh Hbody Hrest. unfold parseSessions.
  rewrite sortSessions_perm, Hlines.
  by apply sessionsLoop_inline.
Qed.

(** Once an inline session is open, neither the session links nor the
    host application play a part in the rest of the loop. *)
Lemma sessionsLoop_open app filePath links i ls sessions c content start :
  sessionsLoop app filePath links i ls sessions (Some c) content start =
  sessionsLoop None filePath [] i ls sessions (Some c) content start.
Proof.
  revert i sessions c content start.
  induction ls as [|line rest IH]; intros; simpl; [done|].
  destruct (matchSessionHeader line); apply IH.
Qed.

(** The links that lie outside the lines scanned before a heading, and
    those that yield no session, can be forgotten. *)
Lemma sessionsLoop_dead_links app filePath links i pre rest sessions cur
    content start :
  Forall (λ l, (SessionLink.lineNumber l < i ∨
                i + count pre ≤ SessionLink.lineNumber l) ∨
               linkedSession app l = []) links →
  endsBody isSessionHeader rest →
  sessionsLoop app filePath links i (pre ++ rest) sessions cur content
    start =
  sessionsLoop None filePath [] i (pre ++ rest) sessions cur content start.
Proof.
  intros Hlinks Hrest. revert i sessions cur content start Hlinks.
  induction pre as [|line pre IH]; intros i sessions cur content start Hlinks.
  - destruct rest as [|line rest]; simpl; [done|].
    destruct Hrest as [number Hh]. rewrite Hh. apply sessionsLoop_open.
  - simpl.
    destruct (matchSessionHeader line) as [number|];
      [apply sessionsLoop_open|].
    destruct cur as [c|];
      [apply (sessionsLoop_open app filePath links (i + 1) (pre ++ rest))|].
    assert (Forall (λ l, (SessionLink.lineNumber l < i + 1 ∨
                          i + 1 + count pre ≤ SessionLink.lineNumber l) ∨
                         linkedSession app l = []) links) as Hlinks'.
    { eapply Forall_impl; [exact Hlinks|]. unfold count. simpl length.
      intros l [?|?]; [left; lia|by right]. }
    destruct (find _ links) as [l|] eqn:Ef; [|by apply IH].
    apply find_some in Ef as [Hin Hl].
    apply bool_decide_eq_true in Hl.
    apply list_elem_of_In in Hin.
    eapply Forall_forall in Hlinks; [|exact Hin].
    destruct Hlinks as [Hout| ->].
    + unfold count in Hout. simpl length in Hout. lia.
    + rewrite app_nil_r. by apply IH.
Qed.

Lemma linkedSession_None l : linkedSession None l = [].
Proof.
  unfold linkedSession, parseSessionFile.
  destruct (SessionLink.linkedFilePath l); [|done]. by case_decide.
Qed.

Lemma sessionLinksFrom_lines app i basePath ls :
  Forall (λ l, i ≤ SessionLink.lineNumber l < i + count ls)
    (sessionLinksFrom app i basePath ls).
Proof.
  revert i. induction ls as [|line rest IH]; intros i; simpl; [done|].
  apply Forall_app. split.
  - apply Forall_forall. intros l (body & _ & Hl)%list_elem_of_omap.
    unfold sessionLink in Hl.
    destruct (JS.indexOf _ _); simpl in Hl;
      repeat (match type of Hl with
              | match ?x with _ => _ end = _ => destruct x
              end; simpl in Hl; try done);
      injection Hl as <-; simpl; unfold count; simpl length; lia.
  - eapply Forall_impl; [apply IH|]. intros l. unfold count.
    simpl length. lia.
Qed.

Lemma sessionLinksFrom_linkFree app i basePath pre rest :
  Forall linkFree pre →
  sessionLinksFrom app i basePath (pre ++ rest) =
  sessionLinksFrom app (i + count pre) basePath rest.
Proof.
  intros Hpre. revert i.
  induction Hpre as [|l pre Hl _ IH]; intros i; simpl.
  - f_equal. unfold count. simpl. lia.
  - unfold linkFree in Hl. rewrite Hl. simpl. rewrite IH. f_equal.
    unfold count. simpl length. lia.
Qed.

(** X13. Session links are looked for before the first session heading only:
    when no line before the first heading holds a wikilink, the sessions
    are those found without a host application, whatever the links
    further down and whatever the vault holds. *)
Theorem parseSessions_links_below_heading
    (app : option App) (content filePath : string)
    (pre rest : list string) :
  lines content = pre ++ rest →
  Forall linkFree pre →
  endsBody isSessionHeader rest →
  parseSessions app content filePath = parseSessions None content filePath.
Proof.
  intros Hlines Hpre Hrest. unfold parseSessions, extractSessionLinks.
  rewrite Hlines. f_equal.
  assert (∀ a, Forall (λ l, (SessionLink.lineNumber l < 0 ∨
                             0 + count pre ≤ SessionLink.lineNumber l) ∨
                            linkedSession a l = [])
                 (sessionLinksFrom a 0 filePath (pre ++ rest))) as Hl.
  { intros a. rewrite sessionLinksFrom_linkFree by done.
    eapply Forall_impl; [apply sessionLinksFrom_lines|].
    intros l Hl. simpl in Hl. left. lia. }
  etrans; [apply (sessionsLoop_dead_links app); auto|].
  symmetry. apply (sessionsLoop_dead_links None); auto.
Qed.

Lemma linkedSession_unreachable a basePath i ls :
  unreachable a →
  Forall (λ l, linkedSession (Some a) l = [])
    (sessionLinksFrom (Some a) i basePath ls).
Proof.
  intros Ha. revert i. induction ls as [|line rest IH]; intros i; simpl;
    [done|].
  apply Forall_app. split; [|apply IH].
  apply Forall_forall. intros l (body & _ & Hl)%list_elem_of_omap.
  unfold linkedSession, parseSessionFile.
  destruct Ha as [Ha|[Ha|Ha]].
  - unfold sessionLink in Hl.
    destruct (JS.indexOf _ _); simpl in Hl;
      repeat (match type of Hl with
              | match ?x with _ => _ end = _ => destruct x
              end; simpl in Hl; try done);
      injection Hl as <-; simpl; by rewrite Ha.
  - destruct (SessionLink.linkedFilePath l); [|done].
    case_decide; [done|]. by rewrite Ha.
  - destruct (SessionLink.linkedFilePath l); [|done].
    case_decide; [done|].
    destruct (getAbstractFileByPath a s) as [[path|path]|]; [|done|done].
    by rewrite Ha.
Qed.

(** X14. A session link that cannot be followed (the link is not resolved, or
    the vault has no such file, or the read is rejected) is skipped: the
    document is parsed as if there was no host application, and its
    inline sessions are kept. *)
Theorem parseSessions_unreachable
    (a : App) (content filePath : string) :
  unreachable a →
  parseSessions (Some a) content filePath =
  parseSessions None content filePath.
Proof.
  intros Ha. unfold parseSessions, extractSessionLinks. f_equal.
  rewrite <-(app_nil_r (lines content)).
  etrans; [apply (sessionsLoop_dead_links (Some a)); [|done]|].
  - eapply Forall_impl; [by apply linkedSession_unreachable|].
    intros l Hl. by right.
  - symmetry. apply (sessionsLoop_dead_links None); [|done].
    apply Forall_forall. intros l _. right. apply linkedSession_None.
Qed.

(** Without a host application the loop yields one session per heading. *)
Lemma sessionsLoop_numbers filePath links i ls sessions cur content start :
  Session.number <$>
    sessionsLoop None filePath links i ls sessions cur content start =
  (Session.number <$> sessions) ++
  option_list (Session.number <$> cur) ++ omap matchSessionHeader ls.
Proof.
  revert i sessions cur content start.
  induction ls as [|line rest IH]; intros i sessions cur content start; simpl.
  - rewrite fmap_app. f_equal. destruct cur; simpl; [done|done].
  - destruct (matchSessionHeader line) as [number|]; simpl.
    + rewrite IH. rewrite fmap_app, <-app_assoc. f_equal.
      destruct cur; done.
    + destruct cur as [c|]; [apply IH|].
      destruct (find _ links); [|apply IH].
      by rewrite linkedSession_None, app_nil_r, IH.
Qed.

(** X15. Without a host application, the sessions of a document are its
    session headings: their numbers are the numbers of the headings
    (each as often as it is written), in ascending order. *)
Theorem parseSessions_headings (content filePath : string) :
  Session.number <$> parseSessions None content filePath ≡ₚ
    omap matchSessionHeader (lines content) ∧
  StronglySorted Z.le
    (Session.number <$> parseSessions None content filePath).
Proof.
  split.
  - unfold parseSessions. rewrite sortSessions_perm.
    by rewrite sessionsLoop_numbers.
  - unfold parseSessions.
    apply (StronglySorted_fmap Session.number byNumber); [done|].
    apply sortSessions_sorted.
Qed.

End Sessions.

(** The session heading of [Sample.inlineThenLink] and the two lines that
    follow it. *)
Lemma parseSessions_inline_witness :
  inlineSession "campaign.md" 2 1 ["### S1"; "[[Session 1]]"] [] ∈
    NotationParser.parseSessions
      (Some (Sample.vault "Session 1" Sample.sessionNote))
      Sample.inlineThenLink "campaign.md".
Proof.
  apply (parseSessions_inline _ Sample.inlineThenLink "campaign.md"
           ["# Campaign"] "## Session 2" ["### S1"; "[[Session 1]]"] [] 2).
  - reflexivity.
  - reflexivity.
  - repeat constructor; unfold isSessionHeader; vm_compute; by intros [? ?].
  - exact I.
Defined.

(** In [Sample.inlineThenLink] the link to the note of session 1 lies
    below the heading of session 2: the note is not read. *)
Lemma parseSessions_links_below_heading_witness :
  NotationParser.parseSessions
    (Some (Sample.vault "Session 1" Sample.sessionNote))
    Sample.inlineThenLink "campaign.md" =
  NotationParser.parseSessions None Sample.inlineThenLink "campaign.md".
Proof.
  apply (parseSessions_links_below_heading _ Sample.inlineThenLink
           "campaign.md" ["# Campaign"]
           ["## Session 2"; "### S1"; "[[Session 1]]"]).
  - reflexivity.
  - repeat constructor.
  - vm_compute. by eexists.
Defined.

(** In [Sample.linkThenInline] the link comes first, but the vault is
    empty. *)
Lemma parseSessions_unreachable_witness :
  NotationParser.parseSessions (Some emptyVault) Sample.linkThenInline
    "campaign.md" =
  NotationParser.parseSessions None Sample.linkThenInline "campaign.md".
Proof.
  apply parseSessions_unreachable. left. reflexivity.
Defined.

(** ** Session numbers and session metadata *)
Section SessionFields.
Import NotationParser.
Context `{!CodeBlockParser}.

Lemma parseDigits_nonneg ds :
  Forall (λ d, JS.isDigit d = true) ds → 0 ≤ JS.parseDigits ds.
Proof.
  unfold JS.parseDigits. intros Hds.
  assert (∀ acc, 0 ≤ acc →
            0 ≤ foldl (λ acc d, 10 * acc + (Z.of_nat (nat_of_ascii d) - 48))
                  acc ds) as Hgen; [|by apply Hgen].
  induction Hds as [|d ds Hd _ IH]; intros acc Hacc; simpl; [done|].
  apply IH. unfold JS.isDigit in Hd.
  apply andb_true_iff in Hd as [Hd _]. apply Nat.leb_le in Hd. lia.
Qed.

Lemma span_Forall {A} (p : A → bool) l a b :
  JS.span p l = (a, b) → Forall (λ x, p x = true) a.
Proof.
  revert a b. induction l as [|x l IH]; intros a b; simpl.
  - by intros [= <- <-].
  - destruct (p x) eqn:Hx; [|by intros [= <- <-]].
    destruct (JS.span p l) as [a' b']. intros [= <- <-].
    constructor; [done|]. by eapply IH.
Qed.

Lemma sessionWord_nonneg l n : sessionWord l = Some n → 0 ≤ n.
Proof.
  unfold sessionWord. destruct (ciPrefix _ l) as [rest|]; [|done].
  destruct (JS.span JS.isSpace _) as [ws rest2].
  destruct (JS.span JS.isDigit rest2) as [ds rest3] eqn:Ed.
  destruct ws; [done|]. destruct ds as [|d ds]; [done|].
  intros [= <-]. apply parseDigits_nonneg. by eapply span_Forall.
Qed.

Lemma matchSessionHeader_nonneg line n :
  matchSessionHeader line = Some n → 0 ≤ n.
Proof.
  unfold matchSessionHeader.
  destruct (JS.chars line) as [|c1 [|c2 l]]; try done.
  { by destruct c1 as [[] [] [] [] [] [] [] []]. }
  destruct c1 as [[] [] [] [] [] [] [] []]; try done.
  destruct c2 as [[] [] [] [] [] [] [] []]; try done.
  destruct (JS.span JS.isSpace l) as [[|w ws] rest]; [done|].
  apply sessionWord_nonneg.
Qed.

Lemma sessionPatternFrom_nonneg atStart l n :
  sessionPatternFrom atStart l = Some n → 0 ≤ n.
Proof.
  revert atStart. induction l as [|c l IH]; intros atStart; simpl.
  - destruct atStart; [|done].
    destruct (sessionWord []) eqn:E; [|done].
    intros [= <-]. by eapply sessionWord_nonneg.
  - destruct (if atStart then sessionWord (c :: l) else None) eqn:E.
    { intros [= <-]. destruct atStart; [|done].
      by eapply sessionWord_nonneg. }
    destruct (if decide (c = "/"%char) then sessionWord l else None) eqn:E2.
    { intros [= <-]. case_decide; [|done]. by eapply sessionWord_nonneg. }
    apply IH.
Qed.

Lemma sessionLinksFrom_nonneg app i basePath ls :
  Forall (λ l, 0 ≤ SessionLink.sessionNumber l)
    (sessionLinksFrom app i basePath ls).
Proof.
  revert i. induction ls as [|line rest IH]; intros i; simpl; [done|].
  apply Forall_app. split; [|apply IH].
  apply Forall_forall. intros l (body & _ & Hl)%list_elem_of_omap.
  unfold sessionLink, sessionPattern in Hl.
  destruct (JS.indexOf _ _); simpl in Hl;
    (match type of Hl with
     | match ?x with _ => _ end = _ => destruct x as [sn|] eqn:E; [|done]
     end);
    injection Hl as <-; simpl.
  - destruct (sessionPatternFrom true _) eqn:E1 in E.
    + injection E as <-. by eapply sessionPatternFrom_nonneg.
    + case_decide; [done|]. by eapply sessionPatternFrom_nonneg.
  - destruct (sessionPatternFrom true _) eqn:E1 in E; [|done].
    injection E as <-. by eapply sessionPatternFrom_nonneg.
Qed.

Lemma linkedSession_number app l :
  Forall (λ s, Session.number s = SessionLink.sessionNumber l)
    (linkedSession app l).
Proof.
  unfold linkedSession, parseSessionFile.
  repeat case_match; try done; simplify_eq; by repeat constructor.
Qed.

Lemma sessionsLoop_nonneg app filePath links i ls sessions cur content
    start :
  Forall (λ l, 0 ≤ SessionLink.sessionNumber l) links →
  Forall (λ s, 0 ≤ Session.number s) sessions →
  (∀ c, cur = Some c → 0 ≤ Session.number c) →
  Forall (λ s, 0 ≤ Session.number s)
    (sessionsLoop app filePath links i ls sessions cur content start).
Proof.
  intros Hlinks. revert i sessions cur content start.
  induction ls as [|line rest IH]; intros i sessions cur content start
    Hs Hc; simpl.
  - apply Forall_app. split; [done|].
    destruct cur as [c|]; [|done]. repeat constructor. simpl. by apply Hc.
  - destruct (matchSessionHeader line) as [number|] eqn:Eh.
    + apply IH.
      * apply Forall_app. split; [done|].
        destruct cur as [c|]; [|done]. repeat constructor. simpl.
        by apply Hc.
      * intros c [= <-]. simpl. by eapply matchSessionHeader_nonneg.
    + destruct cur as [c|]; [by apply IH|].
      destruct (find _ links) as [l|] eqn:Ef; [|by apply IH].
      apply IH; [|done]. apply Forall_app. split; [done|].
      apply find_some in Ef as [Hin%list_elem_of_In _].
      eapply Forall_forall in Hlinks; [|exact Hin].
      eapply Forall_impl; [apply linkedSession_number|].
      simpl. intros s ->. done.
Qed.

(** X16. No session has a negative number, whether it comes from a heading or
    from a link: the numbers are read from runs of decimal digits. *)
Theorem parseSessions_numbers
    (app : option App) (content filePath : string) :
  Forall (λ s, 0 ≤ Session.number s) (parseSessions app content filePath).
Proof.
  unfold parseSessions. rewrite sortSessions_perm.
  apply sessionsLoop_nonneg; [apply sessionLinksFrom_nonneg|done|done].
Qed.

Lemma setPair_entries metadata pair :
  (∀ k v, metadata !! k = Some v → k ≠ "" ∧ v ≠ "") →
  ∀ k v, setPair metadata pair !! k = Some v → k ≠ "" ∧ v ≠ "".
Proof.
  intros Hm k v. unfold setPair.
  destruct (JS.trim <$> JS.split pair ":"%char) as [|key [|value rest]];
    try apply Hm.
  case_decide as Hkv; [|apply Hm].
  destruct (decide (k = key)) as [->|Hne].
  - rewrite lookup_insert_eq. by intros [= <-].
  - rewrite lookup_insert_ne by done. apply Hm.
Qed.

(** What [parseSessionMetadata] stores: no empty key, no empty value;
    nothing at all for a line without a star. *)
Lemma parseSessionMetadata_entries (line key value : string) :
  (parseSessionMetadata line !! key = Some value →
   key ≠ "" ∧ value ≠ "") ∧
  ("*"%char ∉ JS.chars line → parseSessionMetadata line = ∅).
Proof.
  unfold parseSessionMetadata. split.
  - destruct (firstStarred (JS.chars line)) as [inner|]; [|done].
    revert key value.
    assert (∀ l m,
              (∀ k v, m !! k = Some v → k ≠ "" ∧ v ≠ "") →
              ∀ k v, foldl setPair m l !! k = Some v → k ≠ "" ∧ v ≠ "")
      as Hfold.
    { induction l as [|pair l IH]; intros m Hm; simpl; [done|].
      apply IH. by apply setPair_entries. }
    apply Hfold. intros k v. by rewrite lookup_empty.
  - intros Hn. induction (JS.chars line) as [|c l IH]; simpl; [done|].
    apply not_elem_of_cons in Hn as [Hc Hn].
    rewrite decide_False by done. by apply IH.
Qed.

(** The fields "Recap" and "Goals" of a linked note are stored whatever
    their text. *)
Lemma labelled_entries label key metadata line :
  key = "Recap" ∨ key = "Goals" →
  (∀ k v, metadata !! k = Some v →
          k ≠ "" ∧ (v = "" → k = "Recap" ∨ k = "Goals")) →
  ∀ k v, labelled label key metadata line !! k = Some v →
         k ≠ "" ∧ (v = "" → k = "Recap" ∨ k = "Goals").
Proof.
  intros Hkey Hm k v. unfold labelled.
  destruct (matchLabelled label line) as [g|]; [|apply Hm].
  destruct (decide (k = key)) as [->|Hne].
  - intros _. split; [by destruct Hkey as [-> | ->]|done].
  - rewrite lookup_insert_ne by done. apply Hm.
Qed.

Lemma linkedMetadata_entries ls metadata :
  (∀ k v, metadata !! k = Some v →
          k ≠ "" ∧ (v = "" → k = "Recap" ∨ k = "Goals")) →
  ∀ k v,
    foldl (λ m line,
             labelled "**goals:**" "Goals"
               (labelled "**recap:**" "Recap" m line) line)
      metadata ls !! k = Some v →
    k ≠ "" ∧ (v = "" → k = "Recap" ∨ k = "Goals").
Proof.
  revert metadata.
  induction ls as [|line ls IH]; intros m Hm; simpl; [done|].
  apply IH. apply labelled_entries; [by right|].
  apply labelled_entries; [by left|done].
Qed.

Lemma linkedSession_filled app l :
  Forall metadataFilled (linkedSession app l).
Proof.
  unfold linkedSession, parseSessionFile.
  repeat case_match; try done; simplify_eq.
  apply Forall_cons. split; [|done].
  intros k v Hkv. simpl in Hkv.
  apply linkedMetadata_entries in Hkv as [Hk Hv].
  - split; [done|]. intros Hempty. simpl. split; [by eexists|by apply Hv].
  - intros k' v' Hkv'.
    apply parseSessionMetadata_entries in Hkv' as [? ?]. done.
Qed.

Lemma inlineSession_filled number date duration recap goals scenes
    startLine endLine line :
  metadataFilled
    (Session.mk number date duration recap goals scenes startLine endLine
       (parseSessionMetadata line) None).
Proof.
  intros k v Hkv. simpl in Hkv.
  apply parseSessionMetadata_entries in Hkv as [? ?]. done.
Qed.

Lemma sessionsLoop_filled app filePath links i ls sessions cur content
    start :
  Forall metadataFilled sessions →
  (∀ c, cur = Some c → metadataFilled c) →
  Forall metadataFilled
    (sessionsLoop app filePath links i ls sessions cur content start).
Proof.
  assert (∀ cur content start endLine,
            (∀ c, cur = Some c → metadataFilled c) →
            Forall metadataFilled
              (savedSession filePath cur content start endLine)) as Hsaved.
  { intros [c|] content' start' endLine Hcur; [|done].
    apply Forall_cons. split; [|done].
    intros k v. simpl. by apply Hcur. }
  revert i sessions cur content start.
  induction ls as [|line rest IH]; intros i sessions cur content start
    Hs Hc; simpl.
  - apply Forall_app. split; [done|]. by apply Hsaved.
  - destruct (matchSessionHeader line) as [number|] eqn:Eh.
    + apply IH.
      * apply Forall_app. split; [done|]. by apply Hsaved.
      * intros c [= <-]. apply inlineSession_filled.
    + destruct cur as [c|]; [by apply IH|].
      destruct (find _ links) as [l|] eqn:Ef; [|by apply IH].
      apply IH; [|done]. apply Forall_app. split; [done|].
      apply linkedSession_filled.
Qed.

(** X17. In the sessions of a document no metadata key is empty, and an
    empty value stands only under "Recap" or "Goals" of a session read
    from a linked note; the metadata of an inline session holds no empty
    value. *)
Theorem parseSessions_metadata_entries
    (app : option App) (content filePath : string) (session : Session.t)
    (key value : string) :
  session ∈ parseSessions app content filePath →
  Session.metadata session !! key = Some value →
  key ≠ "" ∧
  (value = "" →
   is_Some (Session.linkedFile session) ∧ (key = "Recap" ∨ key = "Goals")).
Proof.
  intros Hin Hkv.
  assert (Forall metadataFilled (parseSessions app content filePath))
    as Hall.
  { unfold parseSessions. rewrite sortSessions_perm.
    by apply sessionsLoop_filled. }
  eapply Forall_forall in Hall; [|exact Hin]. by apply Hall.
Qed.

Lemma without_sub cs cs' s :
  (∀ c, c ∈ cs' → c ∈ cs) → without cs s → without cs' s.
Proof.
  intros Hsub Hs. eapply Forall_impl; [exact Hs|].
  intros c Hc Hin. by apply Hc, Hsub.
Qed.

Lemma without_free c cs s : c ∈ cs → without cs s → c ∉ JS.chars s.
Proof.
  intros Hc Hs Hin. eapply Forall_forall in Hs; [|exact Hin]. done.
Qed.

(** X18. In a one-pair line "*key:value:more*", what follows the second colon
    is dropped: the value stored is the text between the first two
    colons. *)
Theorem parseSessionMetadata_second_colon (key value more : string) :
  without ["*"; "|"; ":"]%char key →
  without ["*"; "|"; ":"]%char value →
  without ["*"; "|"]%char more →
  parseSessionMetadata
    ("*" +:+ key +:+ ":" +:+ value +:+ ":" +:+ more +:+ "*") =
  if decide (JS.trim key ≠ "" ∧ JS.trim value ≠ "")
  then <[JS.trim key := JS.trim value]> ∅ else ∅.
Proof.
  intros Hk Hv Hm. unfold parseSessionMetadata.
  set (inner := key +:+ String ":" (value +:+ String ":" more)).
  assert (JS.chars ("*" +:+ key +:+ ":" +:+ value +:+ ":" +:+ more +:+ "*")
          = "*"%char :: JS.chars inner ++ ["*"%char]) as ->.
  { unfold inner. repeat (first [rewrite chars_append|progress simpl]).
    by repeat (rewrite <-app_assoc; simpl). }
  assert (JS.chars inner =
          JS.chars key ++ ":"%char :: JS.chars value ++
          ":"%char :: JS.chars more) as Hinner.
  { unfold inner. rewrite chars_append. simpl. by rewrite chars_append. }
  assert (without ["*"; "|"]%char inner) as Hfree.
  { unfold without. rewrite Hinner.
    apply Forall_app. split.
    { apply (without_sub ["*"; "|"; ":"]%char); [|done].
      intros c. rewrite !elem_of_cons. tauto. }
    apply Forall_cons. split; [by apply (bool_decide_unpack _)|].
    apply Forall_app. split.
    { apply (without_sub ["*"; "|"; ":"]%char); [|done].
      intros c. rewrite !elem_of_cons. tauto. }
    apply Forall_cons. split; [by apply (bool_decide_unpack _)|done]. }
  simpl. rewrite (span_stop _ (JS.chars inner) "*"%char []).
  - destruct (JS.chars inner) as [|c cs] eqn:Ec.
    { destruct (JS.chars key); discriminate. }
    rewrite <-Ec, ofChars_chars.
    rewrite split_word.
    + simpl. unfold setPair, inner.
      rewrite split_word_sep, split_word_sep; simpl.
      * done.
      * eapply without_free; [|exact Hv]. by apply (bool_decide_unpack _).
      * eapply without_free; [|exact Hk]. by apply (bool_decide_unpack _).
    + eapply without_free; [|exact Hfree]. by apply (bool_decide_unpack _).
  - eapply Forall_impl; [exact Hfree|]. intros c Hc. unfold notChar.
    apply bool_decide_eq_true. intros ->. apply Hc.
    by apply (bool_decide_unpack _).
  - reflexivity.
Qed.

(** X19. The start line that [parseCodeBlock] receives for a block of an inline
    session is the index of the first line of the block in the document,
    less two: the heading of the session and the heading of the scene are
    each left out of the text handed down, while the base line handed down
    with it is the line of the heading.  The block may stand in any scene
    of any inline session: the session (heading, then [notes], which may
    hold earlier scenes) is followed by [laterSessions], and the scene
    (heading, then [prose], the block and [post]) by [laterScenes].  No
    line of the scene is taken for a heading, fenced or not. *)
Theorem block_start_line
    (app : option App) (content filePath : string)
    (pre : list string) (heading : string) (notes : list string)
    (sceneHeading : string) (prose : list string) (opening : string)
    (block : list string) (closing : string)
    (post laterScenes laterSessions : list string)
    (number : Z) (id ctx : string) :
  lines content =
    pre ++ heading ::
    (notes ++ sceneHeading ::
     (prose ++ opening :: block ++ closing :: post) ++ laterScenes) ++
    laterSessions →
  matchSessionHeader heading = Some number →
  Forall (λ l, ¬ isSessionHeader l)
    (notes ++ sceneHeading ::
     (prose ++ opening :: block ++ closing :: post) ++ laterScenes) →
  endsBody isSessionHeader laterSessions →
  matchSceneHeader sceneHeading = Some (id, ctx) →
  Forall (λ l, ¬ isSceneHeader l)
    (prose ++ opening :: block ++ closing :: post) →
  endsBody isSceneHeader laterScenes →
  insideBlock false prose = false →
  isFence opening → Forall (λ l, ¬ isFence l) block → isFence closing →
  ∃ session scene before after,
    session ∈ parseSessions app content filePath ∧
    Session.number session = number ∧
    Session.startLine session = count pre ∧
    scene ∈ Session.scenes session ∧
    Scene.number scene = id ∧
    Scene.elements scene =
      before ++
      parseCodeBlock (unlines block)
        (count (pre ++ heading :: notes ++ sceneHeading ::
                prose ++ [opening]) - 2) ++
      after.
Proof.
  intros Hlines Hh Hbody Hnext Hsh Hscene Hlater Hprose Ho Hblock Hc.
  set (sceneBody := prose ++ opening :: block ++ closing :: post) in *.
  set (body := notes ++ sceneHeading :: sceneBody ++ laterScenes) in *.
  pose proof (split_no_sep content JS.newline) as Hall.
  fold (lines content) in Hall. rewrite Hlines in Hall.
  apply Forall_app in Hall as [_ Hall].
  apply Forall_cons in Hall as [_ Hall].
  apply Forall_app in Hall as [Hall _].
  assert (Forall (λ w, JS.newline ∉ JS.chars w) sceneBody) as HallS.
  { apply Forall_app in Hall as [_ Hall].
    apply Forall_cons in Hall as [_ Hall].
    by apply Forall_app in Hall as [Hall _]. }
  assert (lines (unlines body) = body) as Hl1.
  { apply lines_unlines; [|done]. unfold body. by destruct notes. }
  assert (lines (unlines sceneBody) =
          prose ++ opening :: block ++ closing :: post) as Hl2.
  { apply lines_unlines; [|done]. unfold sceneBody. by destruct prose. }
  assert (count (pre ++ heading :: notes ++ sceneHeading ::
                 prose ++ [opening]) - 2 =
          count pre + count notes + count prose + 1) as ->.
  { unfold count. rewrite !length_app. simpl. rewrite !length_app. simpl.
    rewrite !length_app. simpl. lia. }
  exists (inlineSession filePath number (count pre) body laterSessions).
  eexists (Scene.mk id id _ _ _ _), _, _. split_and!.
  - unfold parseSessions. rewrite sortSessions_perm, Hlines.
    by apply sessionsLoop_inline.
  - done.
  - done.
  - unfold inlineSession. simpl. unfold parseScenes. rewrite Hl1.
    unfold body.
    rewrite (scenesLoop_scene filePath (count pre) notes sceneHeading
               sceneBody laterScenes id ctx Hsh Hscene Hlater).
    apply elem_of_app. right. apply list_elem_of_here.
  - done.
  - simpl. unfold parseSceneContent. rewrite Hl2.
    rewrite sceneContentLoop_block by done. reflexivity.
Qed.

End SessionFields.

(** A linked note whose recap is white space alone: the session read
    from it holds the empty text under "Recap". *)
Lemma parseSessions_metadata_entries_witness :
  ∃ session,
    session ∈
      NotationParser.parseSessions
        (Some (Sample.vault "Session 2" "**Recap:** "))
        linkedCampaign "campaign.md" ∧
    Session.metadata session !! "Recap" = Some "" ∧
    "Recap" ≠ "" ∧
    ("" = "" →
     is_Some (Session.linkedFile session) ∧
     ("Recap" = "Recap" ∨ "Recap" = "Goals")).
Proof.
  exists (Session.mk 2 None None (Some "") None [] 1 1
            (<["Recap" := ""]> ∅) (Some "Session 2.md")).
  assert (Session.mk 2 None None (Some "") None [] 1 1
            (<["Recap" := ""]> ∅) (Some "Session 2.md") ∈
          NotationParser.parseSessions
            (Some (Sample.vault "Session 2" "**Recap:** "))
            linkedCampaign "campaign.md") as Hin.
  { replace (NotationParser.parseSessions _ _ _)
      with [Session.mk 2 None None (Some "") None [] 1 1
              (<["Recap" := ""]> ∅) (Some "Session 2.md")]
      by (vm_compute; reflexivity).
    apply list_elem_of_here. }
  split; [exact Hin|]. split; [reflexivity|].
  apply (parseSessions_metadata_entries _ _ _ _ "Recap" "" Hin).
  reflexivity.
Defined.

(** The time of day is cut at its colon. *)
Lemma parseSessionMetadata_second_colon_witness :
  NotationParser.parseSessionMetadata "*Start: 10:30*" =
  <["Start" := "10"]> ∅.
Proof.
  apply (parseSessionMetadata_second_colon "Start" " 10" "30");
    unfold without; repeat constructor; by apply (bool_decide_unpack _).
Defined.

(** A block in the first scene of the first of two sessions: its first
    line is line 6 of the document (counted from 0), and it is parsed
    with the start line 4. *)
Lemma block_start_line_witness :
  ∃ session scene before after,
    session ∈
      NotationParser.parseSessions None
        (NotationParser.unlines
           ["# Campaign"; "## Session 1"; "*Date: 2024-01-15*"; "### S1";
            "Prose."; "```"; "> Enter the cave"; "```"; "More prose.";
            "### S2"; "```"; "? Is it dark?"; "```";
            "## Session 2"; "### S1"])
        "campaign.md" ∧
    Session.number session = 1 ∧
    Session.startLine session = 1 ∧
    scene ∈ Session.scenes session ∧
    Scene.number scene = "S1" ∧
    Scene.elements scene =
      before ++ parseCodeBlock "> Enter the cave" 4 ++ after.
Proof.
  apply (block_start_line None _ "campaign.md" ["# Campaign"]
           "## Session 1" ["*Date: 2024-01-15*"] "### S1" ["Prose."]
           "```" ["> Enter the cave"] "```" ["More prose."]
           ["### S2"; "```"; "? Is it dark?"; "```"]
           ["## Session 2"; "### S1"] 1 "S1" "").
  - reflexivity.
  - reflexivity.
  - repeat constructor; unfold isSessionHeader; vm_compute; by intros [? ?].
  - by eexists.
  - reflexivity.
  - repeat constructor; unfold isSceneHeader; vm_compute; by intros [? ?].
  - by eexists.
  - reflexivity.
  - reflexivity.
  - repeat constructor; unfold isFence; vm_compute; discriminate.
  - reflexivity.
Defined.

(** ** What [collectAllTags] gathers *)
Section Collection.
Import NotationParser.
Context `{!TagExtractor} `{!CodeBlockParser} `{!ProgressParser}.

Lemma pushReferences location acc refs :
  foldl (pushReference location) acc refs =
  AllTags.mk
    (Tags.mk
       (Tags.npcs (AllTags.tags acc) ++ omap (npcAt location) refs)
       (Tags.locations (AllTags.tags acc) ++ omap (locationAt location) refs)
       (Tags.threads (AllTags.tags acc)) (Tags.clocks (AllTags.tags acc))
       (Tags.tracks (AllTags.tags acc)) (Tags.timers (AllTags.tags acc))
       (Tags.events (AllTags.tags acc))
       (Tags.playerCharacters (AllTags.tags acc)))
    (AllTags.references acc ++ (referenceAt location <$> refs)).
Proof.
  revert acc. induction refs as [|ref refs IH]; intros [[] ?]; simpl.
  - by rewrite !app_nil_r.
  - rewrite IH. unfold pushReference, npcAt, locationAt, referenceAt.
    destruct (RefTag.type ref) eqn:E; simpl; rewrite ?E, ?app_nil_r;
      by rewrite <-!app_assoc.
Qed.

Lemma foldl_collectScan acc scans :
  foldl collectScan acc scans =
  AllTags.mk
    (Tags.mk
       (Tags.npcs (AllTags.tags acc) ++
        (scans ≫= λ sc, Tags.npcs (extractTags sc.2 sc.1) ++
                        omap (npcAt sc.1) (extractReferences sc.2)))
       (Tags.locations (AllTags.tags acc) ++
        (scans ≫= λ sc, Tags.locations (extractTags sc.2 sc.1) ++
                        omap (locationAt sc.1) (extractReferences sc.2)))
       (Tags.threads (AllTags.tags acc) ++
        (scans ≫= λ sc, Tags.threads (extractTags sc.2 sc.1)))
       (Tags.clocks (AllTags.tags acc) ++
        (scans ≫= λ sc, Tags.clocks (extractTags sc.2 sc.1)))
       (Tags.tracks (AllTags.tags acc) ++
        (scans ≫= λ sc, Tags.tracks (extractTags sc.2 sc.1)))
       (Tags.timers (AllTags.tags acc) ++
        (scans ≫= λ sc, Tags.timers (extractTags sc.2 sc.1)))
       (Tags.events (AllTags.tags acc) ++
        (scans ≫= λ sc, Tags.events (extractTags sc.2 sc.1)))
       (Tags.playerCharacters (AllTags.tags acc) ++
        (scans ≫= λ sc, Tags.playerCharacters (extractTags sc.2 sc.1))))
    (AllTags.references acc ++
     (scans ≫= λ sc, referenceAt sc.1 <$> extractReferences sc.2)).
Proof.
  revert acc. induction scans as [|sc scans IH]; intros [[] ?]; simpl.
  - by rewrite !app_nil_r.
  - rewrite IH. unfold collectScan. rewrite pushReferences. simpl.
    by rewrite <-!app_assoc.
Qed.

(** X20. What [collectAllTags] returns, list by list, over the texts it scans
    in document order: the NPCs (and the locations) are those the
    extractor finds in each text, followed by one tag-less entry per
    back-reference of that text; the other six lists are what the
    extractor finds; and every back-reference yields one reference record,
    named as written, with the location of its element as only
    mention. *)
Theorem collectAllTags_lists (sessions : list Session.t) (filePath : string) :
  collectAllTags sessions filePath =
  let scans := scanned filePath sessions in
  AllTags.mk
    (Tags.mk
       (scans ≫= λ sc, Tags.npcs (extractTags sc.2 sc.1) ++
                       omap (npcAt sc.1) (extractReferences sc.2))
       (scans ≫= λ sc, Tags.locations (extractTags sc.2 sc.1) ++
                       omap (locationAt sc.1) (extractReferences sc.2))
       (scans ≫= λ sc, Tags.threads (extractTags sc.2 sc.1))
       (scans ≫= λ sc, Tags.clocks (extractTags sc.2 sc.1))
       (scans ≫= λ sc, Tags.tracks (extractTags sc.2 sc.1))
       (scans ≫= λ sc, Tags.timers (extractTags sc.2 sc.1))
       (scans ≫= λ sc, Tags.events (extractTags sc.2 sc.1))
       (scans ≫= λ sc, Tags.playerCharacters (extractTags sc.2 sc.1)))
    (scans ≫= λ sc, referenceAt sc.1 <$> extractReferences sc.2).
Proof.
  rewrite collectAllTags_scanned. apply foldl_collectScan.
Qed.

Lemma scanned_withoutMetaNotes filePath sessions :
  scanned filePath (withoutMetaNotes sessions) = scanned filePath sessions.
Proof.
  unfold scanned, withoutMetaNotes.
  induction sessions as [|session sessions IH]; [done|].
  rewrite fmap_cons. simpl. f_equal; [|exact IH]. clear IH.
  induction (Session.scenes session) as [|scene scenes IH]; [done|].
  rewrite fmap_cons. simpl. f_equal; [|exact IH]. clear IH.
  induction (Scene.elements scene) as [|[ln ty] elements IH]; [done|].
  rewrite filter_cons.
  destruct ty; simpl; first [apply IH|f_equal; apply IH].
Qed.

(** X21. Meta notes are not scanned for tags: a campaign and the same campaign
    without its meta notes yield the same tags and references. *)
Theorem collectAllTags_skips_meta_notes
    (sessions : list Session.t) (filePath : string) :
  collectAllTags (withoutMetaNotes sessions) filePath =
  collectAllTags sessions filePath.
Proof.
  by rewrite !collectAllTags_scanned, scanned_withoutMetaNotes.
Qed.

Lemma scanned_file filePath sessions :
  Forall (λ sc, file sc.1 = filePath) (scanned filePath sessions).
Proof.
  unfold scanned. apply Forall_bind, Forall_forall. intros session _.
  apply Forall_bind, Forall_forall. intros scene _.
  apply Forall_bind, Forall_forall. intros element _. simpl.
  destruct (contentToScan element); [|done].
  case_decide; by repeat constructor.
Qed.

(** X22. Every reference record of a parsed campaign points into the campaign
    file itself: the locations of its mentions carry the path of the
    campaign, also when the back-reference was read in the note of a
    linked session. *)
Theorem reference_locations_file
    (app : option App) (content filePath key : string) (r : Reference.t) :
  Campaign.references (parseCampaignFile app content filePath) !! key =
    Some r →
  file (Reference.firstMention r) = filePath ∧
  Forall (λ location, file location = filePath) (Reference.mentions r).
Proof.
  unfold parseCampaignFile. simpl.
  rewrite collectAllTags_scanned, foldl_collectScan. simpl.
  set (refs := scanned _ _ ≫= _).
  assert (Forall (λ r, file (Reference.firstMention r) = filePath ∧
                       Forall (λ l, file l = filePath)
                         (Reference.mentions r)) refs) as Hrefs.
  { unfold refs. apply Forall_bind.
    eapply Forall_impl; [apply scanned_file|].
    intros [location text] Hf. simpl in *.
    apply Forall_fmap, Forall_forall. intros ref _. simpl.
    split; [done|by repeat constructor]. }
  clearbody refs. unfold mergeReferences.
  assert (∀ m : gmap string Reference.t,
            map_Forall (λ _ r, file (Reference.firstMention r) = filePath ∧
                               Forall (λ l, file l = filePath)
                                 (Reference.mentions r)) m →
            map_Forall (λ _ r, file (Reference.firstMention r) = filePath ∧
                               Forall (λ l, file l = filePath)
                                 (Reference.mentions r))
              (foldl mergeReferencesStep m refs)) as Hfold.
  { induction Hrefs as [|ref refs [Hf Hm] _ IH]; intros m Hmap; [done|].
    simpl. apply IH. unfold mergeReferencesStep.
    destruct (m !! referenceKey ref) as [existing|] eqn:E.
    - apply map_Forall_insert_2; [|done].
      apply Hmap in E as [Hf' Hm']. simpl. split; [done|].
      apply Forall_app. by split.
    - apply map_Forall_insert_2; [|done]. by split. }
  intros Hr. eapply (Hfold ∅); [|exact Hr]. apply map_Forall_empty.
Qed.

End Collection.

(** The back-reference is written in the note "Session 2.md"; its record
    points into "campaign.md". *)
Lemma reference_locations_file_witness :
  Session.linkedFile <$>
    NotationParser.parseSessions
      (Some (Sample.vault "Session 2" noteWithReference))
      linkedCampaign "campaign.md" = [Some "Session 2.md"] ∧
  file (mkLocation "campaign.md" 1 "Session 2" "S1") = "campaign.md" ∧
  Forall (λ location, file location = "campaign.md")
    [mkLocation "campaign.md" 1 "Session 2" "S1"].
Proof.
  split; [reflexivity|].
  apply (reference_locations_file
           (Some (Sample.vault "Session 2" noteWithReference))
           linkedCampaign "campaign.md" "npc:Shadow"
           (Reference.mk "Shadow" "Shadow" RefNpc
              (mkLocation "campaign.md" 1 "Session 2" "S1")
              [mkLocation "campaign.md" 1 "Session 2" "S1"])).
  reflexivity.
Defined.

(** ** Linked sessions *)
Section LinkedSessions.
Import NotationParser.
Context `{!CodeBlockParser}.

(** Before the first heading no session is open. *)
Lemma sessionsLoop_before_heading app filePath links i pre sessions content
    start :
  Forall (λ l, ¬ isSessionHeader l) pre →
  ∃ sessions',
    ∀ rest,
      sessionsLoop app filePath links i (pre ++ rest) sessions None content
        start =
      sessionsLoop app filePath links (i + count pre) rest
        (sessions ++ sessions') None content start.
Proof.
  intros Hpre. revert i sessions.
  induction Hpre as [|l pre Hl _ IH]; intros i sessions.
  - exists []. intros rest. simpl. rewrite app_nil_r. f_equal.
    unfold count. simpl. lia.
  - unfold isSessionHeader in Hl. simpl.
    destruct (matchSessionHeader l) as [n|] eqn:E; [by destruct Hl|].
    replace (i + count (l :: pre)) with (i + 1 + count pre)
      by (unfold count; simpl length; lia).
    destruct (find _ links) as [link|].
    + destruct (IH (i + 1) (sessions ++ linkedSession app link))
        as [sessions' H'].
      exists (linkedSession app link ++ sessions'). intros rest.
      by rewrite H', app_assoc.
    + apply IH.
Qed.

Lemma sessionLinksFrom_app app i basePath pre rest :
  sessionLinksFrom app i basePath (pre ++ rest) =
  sessionLinksFrom app i basePath pre ++
  sessionLinksFrom app (i + count pre) basePath rest.
Proof.
  revert i. induction pre as [|l pre IH]; intros i; simpl.
  - by replace (i + count []) with i by (unfold count; simpl; lia).
  - rewrite IH, <-app_assoc.
    by replace (i + 1 + count pre) with (i + count (l :: pre))
      by (unfold count; simpl length; lia).
Qed.

Lemma find_skip {A} (p : A → bool) (skipped l : list A) :
  Forall (λ x, p x = false) skipped → find p (skipped ++ l) = find p l.
Proof.
  induction 1 as [|x skipped Hx _ IH]; simpl; [done|]. by rewrite Hx.
Qed.

(** X23. A line before the first session heading whose first session link
    leads to a note that can be read yields the session of that note: its
    number is the number written in the link, its scenes are those of the
    note (parsed with base line 0 and the path of the note), it records
    the path of the note in [linkedFile], and its line range is the line
    of the link in the campaign. *)
Theorem parseSessions_linked
    (a : App) (content filePath : string)
    (pre : list string) (line : string) (rest : list string)
    (link : SessionLink.t) (others : list SessionLink.t)
    (path path' note : string) :
  lines content = pre ++ line :: rest →
  Forall (λ l, ¬ isSessionHeader l) (pre ++ [line]) →
  omap (λ body, sessionLink (Some a) (count pre) filePath (JS.ofChars body))
    (wikilinks 0 (JS.chars line)) = link :: others →
  SessionLink.linkedFilePath link = Some path → path ≠ "" →
  getAbstractFileByPath a path = Some (TFile path') →
  read a path' = Some note →
  ∃ s,
    parseSessionFile (Some a) path (SessionLink.sessionNumber link) =
      Some s ∧
    Session.number s = SessionLink.sessionNumber link ∧
    Session.linkedFile s = Some path ∧
    Session.scenes s = parseScenes note path 0 ∧
    Session.mk (Session.number s) (Session.date s) (Session.duration s)
      (Session.recap s) (Session.goals s) (Session.scenes s)
      (count pre) (count pre) (Session.metadata s) (Session.linkedFile s) ∈
      parseSessions (Some a) content filePath.
Proof.
  intros Hlines [Hpre Hline]%Forall_app Hlink Hpath Hne Hfile Hread.
  apply Forall_cons in Hline as [Hline _].
  assert (SessionLink.lineNumber link = count pre) as Hln.
  { assert (link ∈ omap (λ body, sessionLink (Some a) (count pre)
                           filePath (JS.ofChars body))
              (wikilinks 0 (JS.chars line))) as Hin
      by (rewrite Hlink; apply list_elem_of_here).
    apply list_elem_of_omap in Hin as (body & _ & Hl).
    unfold sessionLink in Hl.
    destruct (JS.indexOf _ _); simpl in Hl;
      (match type of Hl with
       | match ?x with _ => _ end = _ => destruct x; [|done]
       end);
      by injection Hl as <-. }
  unfold parseSessionFile. rewrite Hfile, Hread.
  eexists. split; [done|]. simpl. split_and!; [done|done|done|].
  unfold parseSessions, extractSessionLinks.
  rewrite sortSessions_perm, Hlines.
  destruct (sessionsLoop_before_heading (Some a) filePath
              (sessionLinksFrom (Some a) 0 filePath (pre ++ line :: rest))
              0 pre [] [] 0 Hpre) as [sessions' ->].
  simpl. unfold isSessionHeader in Hline.
  destruct (matchSessionHeader line) as [n|]; [by destruct Hline|].
  assert (find (λ l, bool_decide (SessionLink.lineNumber l = 0 + count pre))
            (sessionLinksFrom (Some a) 0 filePath (pre ++ line :: rest)) =
          Some link) as ->.
  { rewrite sessionLinksFrom_app, find_skip.
    - simpl. rewrite Z.add_0_l, Hlink. simpl. rewrite Hln.
      by rewrite bool_decide_eq_true_2.
    - eapply Forall_impl; [apply sessionLinksFrom_lines|].
      intros l Hl. simpl in Hl. apply bool_decide_eq_false. lia. }
  rewrite sessionsLoop_sessions. apply elem_of_app. left.
  apply elem_of_app. right. unfold linkedSession. rewrite Hpath.
  rewrite decide_False by done. unfold parseSessionFile.
  rewrite Hfile, Hread. simpl. rewrite Hln. apply list_elem_of_here.
Qed.

End LinkedSessions.

(** The link of [Sample.linkThenInline] to the note of session 2. *)
Lemma parseSessions_linked_witness :
  ∃ s,
    NotationParser.parseSessionFile
      (Some (Sample.vault "Session 2" Sample.sessionNote)) "Session 2.md" 2 =
      Some s ∧
    Session.number s = 2 ∧
    Session.linkedFile s = Some "Session 2.md" ∧
    Session.scenes s =
      NotationParser.parseScenes Sample.sessionNote "Session 2.md" 0 ∧
    Session.mk (Session.number s) (Session.date s) (Session.duration s)
      (Session.recap s) (Session.goals s) (Session.scenes s)
      1 1 (Session.metadata s) (Session.linkedFile s) ∈
      NotationParser.parseSessions
        (Some (Sample.vault "Session 2" Sample.sessionNote))
        Sample.linkThenInline "campaign.md".
Proof.
  apply (parseSessions_linked
           (Sample.vault "Session 2" Sample.sessionNote)
           Sample.linkThenInline "campaign.md" ["# Campaign"]
           "[[Session 2]]" ["## Session 1"; "### S1"]
           (NotationParser.SessionLink.mk 1 2 "[[Session 2]]"
              (Some "Session 2.md")) []
           "Session 2.md" "Session 2.md" Sample.sessionNote).
  - reflexivity.
  - repeat constructor; unfold isSessionHeader; vm_compute; by intros [? ?].
  - reflexivity.
  - reflexivity.
  - done.
  - reflexivity.
  - reflexivity.
Defined.

(** ** The title of a campaign *)
Section Title.
Import NotationParser CampaignTitle.

Lemma split_head s w ws :
  JS.split s JS.newline = w :: ws → w ≠ "" →
  head (JS.chars s) = head (JS.chars w).
Proof.
  destruct s as [|d s]; simpl.
  - by intros [= <- <-].
  - case_decide.
    + by intros [= <- <-].
    + destruct (JS.split s JS.newline); by intros [= <- <-].
Qed.

Lemma titleFrom_cons b c l :
  titleFrom b (c :: l) =
  match (if b then titleAt (c :: l) else None) with
  | Some g => Some g
  | None => titleFrom (isLineTerminator c) l
  end.
Proof. reflexivity. Qed.

Lemma titleFrom_none s :
  "013"%char ∉ JS.chars s →
  (Forall noTitleLine (JS.split s JS.newline) →
   titleFrom true (JS.chars s) = None) ∧
  (Forall noTitleLine (tail (JS.split s JS.newline)) →
   titleFrom false (JS.chars s) = None).
Proof.
  induction s as [|c s IH]; intros Hcr; [done|].
  simpl in Hcr. apply not_elem_of_cons in Hcr as [Hc Hcr].
  destruct (IH Hcr) as [IHt IHf]. clear IH.
  change (JS.chars (String c s)) with (c :: JS.chars s).
  change (JS.split (String c s) JS.newline) with
    (if decide (c = JS.newline) then EmptyString :: JS.split s JS.newline
     else match JS.split s JS.newline with
          | [] => [String c EmptyString]
          | w :: ws => String c w :: ws
          end).
  destruct (decide (c = JS.newline)) as [->|Hnl].
  - split; intros Hall.
    + apply Forall_cons in Hall as [_ Hall]. by apply IHt.
    + by apply IHt.
  - assert (isLineTerminator c = false) as Hterm.
    { unfold isLineTerminator. apply bool_decide_eq_false.
      intros [->| ->]; [by apply Hnl|by apply Hc]. }
    destruct (JS.split s JS.newline) as [|w ws] eqn:Es.
    { by apply split_not_nil in Es. }
    split; intros Hall.
    + apply Forall_cons in Hall as [Hline Hall].
      assert (titleAt (c :: JS.chars s) = None) as Hat.
      { unfold titleAt.
        destruct (decide (c = "#"%char)) as [->|Hc'].
        - unfold noTitleLine in Hline. simpl in Hline.
          destruct (JS.chars w) as [|c' r] eqn:Ew; [done|].
          assert (head (JS.chars s) = Some c') as Hhead.
          { erewrite split_head; [by rewrite Ew|exact Es|].
            by destruct w. }
          destruct (JS.chars s) as [|c'' r']; [done|].
          injection Hhead as ->. simpl. by rewrite Hline.
        - by destruct c as [[] [] [] [] [] [] [] []]. }
      rewrite titleFrom_cons, Hat, Hterm. by apply IHf.
    + rewrite titleFrom_cons, Hterm. by apply IHf.
Qed.

(** X24. A document none of whose lines begins with '#' followed by white space
    (or by nothing) is titled "Untitled Campaign": headings of sessions
    and of scenes ("##", "###") do not count. *)
Theorem extractTitle_default (content : string) :
  "013"%char ∉ JS.chars content →
  Forall noTitleLine (lines content) →
  extractTitle content = "Untitled Campaign".
Proof.
  intros Hcr Hall. unfold extractTitle.
  destruct (titleFrom_none content Hcr) as [-> _]; done.
Qed.

Lemma titleFrom_skip b pre l :
  "#"%char ∉ pre →
  match last pre with
  | Some c => c = JS.newline
  | None => b = true
  end →
  titleFrom b (pre ++ l) = titleFrom true l.
Proof.
  revert b. induction pre as [|c pre IH]; intros b Hn Hlast.
  - simpl in *. by subst b.
  - apply not_elem_of_cons in Hn as [Hc Hn].
    change ((c :: pre) ++ l) with (c :: pre ++ l).
    rewrite titleFrom_cons.
    assert ((if b then titleAt (c :: pre ++ l) else None) = None) as ->.
    { destruct b; [|done]. unfold titleAt.
      by destruct c as [[] [] [] [] [] [] [] []]. }
    apply IH; [done|]. clear IH.
    destruct pre as [|c' pre'].
    + simpl in Hlast |- *. subst c. reflexivity.
    + change (last (c :: c' :: pre')) with (last (c' :: pre')) in Hlast.
      destruct (last (c' :: pre')) eqn:E; [exact Hlast|].
      by apply last_None in E.
Qed.

(** X25. The title of a document is the text of its first line "# title", when
    no '#' is written before that line: the text is taken up to the end of
    the line. *)
Theorem extractTitle_heading (before title after : string) :
  without ["#"]%char before → endsLine before →
  title ≠ "" → JS.trim title = title →
  without ["010"; "013"]%char title →
  startsLine after →
  extractTitle (before +:+ "# " +:+ title +:+ after) = title.
Proof.
  intros Hb Hbl Hne Htrim Ht Ha. unfold extractTitle.
  assert (JS.chars (before +:+ "# " +:+ title +:+ after) =
          JS.chars before ++
          "#"%char :: " "%char :: JS.chars title ++ JS.chars after) as ->.
  { repeat (first [rewrite chars_append|progress simpl]). done. }
  rewrite titleFrom_skip.
  - assert (titleAt ("#"%char :: " "%char :: JS.chars title ++ JS.chars after)
            = Some (JS.chars title)) as Hat.
    { unfold titleAt.
      destruct title as [|c t1]; [done|].
      change (JS.chars (String c t1)) with (c :: JS.chars t1) in *.
      set (r := JS.chars t1) in *.
      assert (JS.isSpace c = false) as Hc.
      { destruct (JS.isSpace c) eqn:E; [|done]. exfalso.
        unfold JS.trim in Htrim. simpl in Htrim. rewrite E in Htrim.
        apply (f_equal String.length) in Htrim.
        pose proof (trimEnd_length (JS.trimStart t1)).
        pose proof (trimStart_length t1). simpl in Htrim. lia. }
      change (JS.span JS.isSpace (" "%char :: (c :: r) ++ JS.chars after))
        with (let '(a, b) := JS.span JS.isSpace ((c :: r) ++ JS.chars after)
              in (" "%char :: a, b)).
      simpl. rewrite Hc. simpl.
      assert (JS.span (λ c0, negb (isLineTerminator c0))
                (r ++ JS.chars after) = (r, JS.chars after)) as Hspan.
      { assert (Forall (λ y, negb (isLineTerminator y) = true) r) as Hr.
        { unfold without in Ht. apply Forall_cons in Ht as [_ Ht].
          eapply Forall_impl; [exact Ht|]. intros y Hy.
          apply negb_true_iff, bool_decide_eq_false.
          intros [->| ->]; apply Hy; by apply (bool_decide_unpack _). }
        destruct Ha as [->|Ha].
        - simpl. rewrite app_nil_r.
          clear -Hr. induction Hr as [|y r Hy _ IH]; simpl; [done|].
          by rewrite Hy, IH.
        - destruct (JS.chars after) as [|a1 ar]; [done|].
          injection Ha as ->. by apply span_stop. }
      assert (negb (isLineTerminator c) = true) as Hct.
      { unfold without in Ht. apply Forall_cons in Ht as [Hy _].
        apply negb_true_iff, bool_decide_eq_false.
        intros [->| ->]; apply Hy; by apply (bool_decide_unpack _). }
      by rewrite Hct, Hspan. }
    rewrite titleFrom_cons, Hat.
    by rewrite ofChars_chars.
  - intros Hin. eapply Forall_forall in Hb; [|exact Hin].
    apply Hb. by apply (bool_decide_unpack _).
  - destruct Hbl as [->|Hl]; [done|]. by rewrite Hl.
Qed.

End Title.

Lemma extractTitle_default_witness :
  CampaignTitle.extractTitle Sample.referenceOnly = "Untitled Campaign".
Proof.
  apply extractTitle_default.
  - by apply (bool_decide_unpack _).
  - replace (NotationParser.lines _)
      with ["## Session 1"; "### S1"; "```"; "> Someone is watching";
            "[#N:Shadow]"; "```"] by reflexivity.
    repeat constructor.
Defined.

(** A heading below the front matter. *)
Lemma extractTitle_heading_witness :
  CampaignTitle.extractTitle
"---
genre: Fantasy
---

# Test Campaign

## Session 1" = "Test Campaign".
Proof.
  apply (extractTitle_heading
"---
genre: Fantasy
---

" "Test Campaign" "

## Session 1").
  - unfold without. apply Forall_forall. intros c Hc.
    apply (bool_decide_unpack _). revert c Hc. apply Forall_forall.
    by apply (bool_decide_unpack _).
  - right. reflexivity.
  - done.
  - reflexivity.
  - unfold without. apply Forall_forall. intros c Hc.
    apply (bool_decide_unpack _). revert c Hc. apply Forall_forall.
    by apply (bool_decide_unpack _).
  - right. reflexivity.
Defined.

(** ** The elements screen of the dashboard *)
Section Dashboard.
Import NotationParser DashboardView.

(** A card has none of the properties that [getTimestamp] looks at. *)
Lemma card_timestamp card : getTimestamp (cardValue card) = Some 0.
Proof. by destruct card. Qed.

(** Nor has it any of those that [elementMatchesSearch] looks at: what
    is compared with the query is the empty string. *)
Lemma card_search card query :
  elementMatchesSearch (cardValue card) query =
  Some (bool_decide (query = "")).
Proof.
  destruct card as [ty d]. destruct d; by destruct query.
Qed.

Lemma sortElements_cards elements : sortElements elements = Some elements.
Proof.
  unfold sortElements. destruct elements as [|a [|b rest]]; [done|done|].
  generalize (a :: b :: rest). clear. intros elements.
  assert (mapM (λ e, (λ k, (k, e)) <$> getTimestamp (cardValue e)) elements =
          Some ((λ e, (0, e)) <$> elements)) as ->.
  { apply mapM_Some_2. induction elements as [|e elements IH].
    - constructor.
    - rewrite fmap_cons. constructor; [by rewrite card_timestamp|done]. }
  simpl. f_equal.
  assert (foldr insertCard [] ((λ e, (0, e)) <$> elements) =
          (λ e, (0, e)) <$> elements) as ->.
  { induction elements as [|e elements IH]; [done|].
    rewrite fmap_cons.
    change (foldr insertCard [] ((0, e) :: ((λ e, (0, e)) <$> elements)))
      with (insertCard (0, e)
              (foldr insertCard [] ((λ e, (0, e)) <$> elements))).
    rewrite IH. by destruct elements. }
  rewrite <-list_fmap_compose. apply list_fmap_id.
Qed.

(** X27. Sorting "by last seen" leaves every list of cards as it is: the
    comparator finds any two cards equal, because it looks for the
    session, the mentions and the locations on the card itself and not on
    the entity that the card wraps.  The cards are therefore listed in
    the order in which they were collected. *)
Theorem sortByLastSeen_cards
    (a b : ElementCardData.t) (elements : list ElementCardData.t) :
  sortByLastSeen (cardValue a) (cardValue b) = Some 0 ∧
  sortElements elements = Some elements.
Proof.
  split; [|apply sortElements_cards].
  unfold sortByLastSeen. by rewrite !card_timestamp.
Qed.

Lemma filterElements_nothing query elements :
  query ≠ "" → filterElements query elements = Some [].
Proof.
  intros Hq. induction elements as [|e elements IH]; simpl; [done|].
  rewrite card_search, IH. simpl. by rewrite bool_decide_eq_false_2.
Qed.

Lemma toLowerCase_empty s : JS.toLowerCase s = "" → s = "".
Proof. by destruct s. Qed.

(** X28. With a chip other than 'All' selected, any text typed in the search
    box empties the list: the name, the type and the tags are looked for
    on the card and not on the entity, so that the query is compared with
    empty strings.  With the chip 'All' the search box is not consulted
    at all. *)
Theorem search_selects_nothing
    (currentElementType : ElementType.t) (searchQuery : string)
    (campaign : Campaign.t) :
  searchQuery ≠ "" →
  getFilteredElements currentElementType searchQuery (Some campaign) =
  if decide (currentElementType = ElementType.All)
  then getFilteredElements currentElementType "" (Some campaign)
  else Some [].
Proof.
  intros Hq. unfold getFilteredElements.
  destruct (rawElementsOf currentElementType campaign) as [raw|] eqn:E.
  - rewrite decide_True by done. rewrite decide_False.
    + apply filterElements_nothing. by intros ?%toLowerCase_empty.
    + by intros ->.
  - by destruct currentElementType.
Qed.

Lemma length_values {A} (m : gmap string A) : length (values m) = size m.
Proof. unfold values. by rewrite length_fmap, length_map_to_list. Qed.

Lemma length_bind_ext {A B C} (f : A → list B) (g : A → list C) l :
  (∀ x, length (f x) = length (g x)) → length (l ≫= f) = length (l ≫= g).
Proof.
  intros Hfg. induction l as [|x l IH]; [done|].
  rewrite !bind_cons, !length_app. by rewrite Hfg, IH.
Qed.

Lemma length_bind_add {A B C D} (f : A → list B) (g : A → list C)
    (h : A → list D) l :
  (∀ x, length (f x) = (length (g x) + length (h x))%nat) →
  length (l ≫= f) = (length (l ≫= g) + length (l ≫= h))%nat.
Proof.
  intros Hfg. induction l as [|x l IH]; [done|].
  rewrite !bind_cons, !length_app. rewrite Hfg, IH. lia.
Qed.

Lemma length_getMetaNotes campaign :
  length (getMetaNotes (Some campaign)) =
  length (collectElementsByTypes campaign ["meta_note"] (λ _ _ _, 1)).
Proof.
  unfold getMetaNotes, collectElementsByTypes.
  apply length_bind_ext. intros session.
  apply length_bind_ext. intros scene.
  apply length_bind_ext. intros element. by case_decide.
Qed.

Lemma length_getRandomEvents_one ty name campaign :
  (ty = ElementType.TableLookup ∧ name = "table_lookup") ∨
  (ty = ElementType.Generator ∧ name = "generator") →
  length (getRandomEvents ty (Some campaign)) =
  length (collectElementsByTypes campaign [name] (λ _ _ _, 1)).
Proof.
  intros Hty. unfold getRandomEvents, collectElementsByTypes.
  apply length_bind_ext. intros session.
  apply length_bind_ext. intros scene.
  apply length_bind_ext. intros element.
  destruct Hty as [[-> ->]|[-> ->]];
    destruct (Element.type element); simpl; by repeat case_decide.
Qed.

Lemma length_getRandomEvents_all campaign :
  length (getRandomEvents ElementType.All (Some campaign)) =
  (length (collectElementsByTypes campaign ["table_lookup"] (λ _ _ _, 1%Z)) +
   length (collectElementsByTypes campaign ["generator"] (λ _ _ _, 1%Z)))%nat.
Proof.
  unfold getRandomEvents, collectElementsByTypes.
  apply length_bind_add. intros session.
  apply length_bind_add. intros scene.
  apply length_bind_add. intros element.
  destruct (Element.type element); simpl; by repeat case_decide.
Qed.

(** X29. The number shown on a chip is the number of cards listed when that
    chip is selected and the search box is empty; listing the cards
    raises no exception. *)
Theorem counts_match_lists
    (currentElementType : ElementType.t) (campaign : Campaign.t) :
  ∃ cards,
    getFilteredElements currentElementType "" (Some campaign) = Some cards ∧
    Z.of_nat (length cards) =
      getElementCounts (Some campaign) currentElementType.
Proof.
  unfold getFilteredElements, rawElementsOf, getElementCounts.
  destruct currentElementType; cbv beta zeta iota;
    try (rewrite decide_False by (by intros ?));
    unfold getAllElements, wrapElements;
    rewrite sortElements_cards; (eexists; split; [reflexivity|]);
    rewrite ?length_app, !length_fmap, ?length_values; try done.
  - rewrite length_getMetaNotes, length_getRandomEvents_all. lia.
  - by rewrite length_getMetaNotes.
  - by rewrite (length_getRandomEvents_one _ "table_lookup")
      by (left; done).
  - by rewrite (length_getRandomEvents_one _ "generator")
      by (right; done).
Qed.

End Dashboard.

(** ** The front matter of a campaign *)
Section FrontMatter.
Import NotationParser CampaignTitle.

Lemma literalAt_closing_straddle s rest :
  s ≠ "" → JS.startsWith s closing = false →
  Pattern.literalAt (JS.chars closing)
    (JS.chars s ++ JS.chars closing ++ rest) = None.
Proof.
  intros Hne Hs. unfold closing in *.
  destruct s as [|c1 [|c2 [|c3 [|c4 s]]]]; [done|..]; simpl in *;
    repeat (case_decide; simplify_eq; try done).
  by rewrite startsWith_empty in Hs.
Qed.

Lemma upToClosing_first yaml rest :
  JS.includes yaml closing = false →
  upToClosing (JS.chars yaml ++ JS.chars closing ++ rest) =
  Some (JS.chars yaml).
Proof.
  induction yaml as [|c yaml IH]; intros Hin.
  - reflexivity.
  - change (JS.includes (String c yaml) closing) with
      (JS.startsWith (String c yaml) closing || JS.includes yaml closing)
      in Hin.
    apply orb_false_elim in Hin as [Hs Hin].
    change (JS.chars (String c yaml) ++ JS.chars closing ++ rest) with
      (c :: JS.chars yaml ++ JS.chars closing ++ rest).
    change (upToClosing (c :: JS.chars yaml ++ JS.chars closing ++ rest))
      with (match Pattern.literalAt (JS.chars closing)
                    (c :: JS.chars yaml ++ JS.chars closing ++ rest) with
            | Some _ => Some []
            | None =>
                (λ g, c :: g) <$>
                upToClosing (JS.chars yaml ++ JS.chars closing ++ rest)
            end).
    pose proof (literalAt_closing_straddle (String c yaml) rest) as Hlit.
    change (JS.chars (String c yaml) ++ JS.chars closing ++ rest) with
      (c :: JS.chars yaml ++ JS.chars closing ++ rest) in Hlit.
    rewrite Hlit by done. by rewrite IH.
Qed.

(** X26. The front matter handed to the YAML reader is the text between the
    opening "---" line at the very start of the document and the first
    line feed that three dashes follow; when the reader fails, and when
    the document does not start with "---" and a line feed (a blank first
    line, or a carriage return before the line feed), the front matter is
    empty. *)
Theorem extractFrontMatter_text {FrontMatter : Type} (empty : FrontMatter)
    (parseYaml : string → option FrontMatter) (yaml rest content : string) :
  (JS.includes yaml closing = false →
   extractFrontMatter empty parseYaml
     ("---" +:+ String JS.newline yaml +:+ closing +:+ rest) =
   default empty (parseYaml yaml)) ∧
  (JS.startsWith content ("---" +:+ String JS.newline "") = false →
   extractFrontMatter empty parseYaml content = empty).
Proof.
  split.
  - intros Hin. unfold extractFrontMatter, frontMatterText.
    assert (JS.chars ("---" +:+ String JS.newline yaml +:+ closing +:+ rest)
            = "-"%char :: "-"%char :: "-"%char :: JS.newline ::
              JS.chars yaml ++ JS.chars closing ++ JS.chars rest) as ->.
    { repeat (first [rewrite chars_append|progress simpl]). done. }
    simpl Pattern.literalAt. cbv beta iota.
    change (JS.newline :: "-"%char :: "-"%char :: "-"%char :: JS.chars rest)
      with (JS.chars closing ++ JS.chars rest).
    rewrite upToClosing_first by done.
    simpl. by rewrite ofChars_chars.
  - intros Hs. unfold extractFrontMatter, frontMatterText.
    destruct content as [|c1 [|c2 [|c3 [|c4 s]]]]; simpl in *;
      repeat (case_decide; simplify_eq; try done); try done.
    by rewrite startsWith_empty in Hs.
Qed.

End FrontMatter.

(** A front matter read with a reader that returns the text it is given,
    and the same document with Windows line ends. *)
Lemma extractFrontMatter_text_witness :
  CampaignTitle.extractFrontMatter "" Some
"---
title: My Campaign
---
# Heading" = "title: My Campaign" ∧
  CampaignTitle.extractFrontMatter "" Some
    ("---" +:+ String "013" (String "010" "title: My Campaign") +:+
     String "013" (String "010" "---")) = "".
Proof.
  split.
  - destruct (extractFrontMatter_text "" Some "title: My Campaign"
"
# Heading" "") as [H1 _].
    apply H1. reflexivity.
  - destruct (extractFrontMatter_text "" Some "" ""
      ("---" +:+ String "013" (String "010" "title: My Campaign") +:+
       String "013" (String "010" "---"))) as [_ H2].
    apply H2. reflexivity.
Defined.

(** The sample campaign has an NPC called Grim; with the chip 'NPC'
    selected, the query "Grim" lists no card. *)
Lemma search_selects_nothing_witness :
  is_Some
    (NotationParser.Campaign.npcs
       (NotationParser.parseCampaignFile None Sample.fixture "campaign.md")
       !! "npc:grim") ∧
  DashboardView.getFilteredElements DashboardView.ElementType.NPC "Grim"
    (Some (NotationParser.parseCampaignFile None Sample.fixture
             "campaign.md")) = Some [].
Proof.
  split.
  - vm_compute. by eexists.
  - apply (search_selects_nothing DashboardView.ElementType.NPC "Grim"
             (NotationParser.parseCampaignFile None Sample.fixture
                "campaign.md")).
    done.
Defined.
